(** * histogram_nd.c: an N-dimensional histogram filter

    A shallow embedding of [histogram_nd.c] and the properties of its
    binning, flattened array store, odometer and output passes.

    Conventions of the embedding.
    - [int] and [long] values are integers in [Z]; every arithmetic
      operation of the source is followed by the wrap-around of its type
      ([int_wrap], [long_wrap]).
    - [double] values are the kernel's binary64 floats ([PrimFloat]), so
      that every expression of the source evaluates bit for bit.
    - C arrays are lists; a read or write outside the list, and a
      conversion whose value the target type cannot hold, is undefined
      behaviour ([Undef]).
    - The local arrays [pos], which C leaves unset, start as zeros: no
      entry is read before it is written.
    - The two [while (1)] loops of [output] take a loop budget; the
      theorems show that the number of cells is enough.
    - The standard output is the list of [printf]/[write] calls made. The
      diagnostic channel, and the variables that only feed it ([min_ob],
      [max_ob], [line_nr]), are left out. *)

From Stdlib Require Import ZArith QArith Floats Uint63 Lia Bool.
From stdpp Require Import base list numbers.

Local Open Scope Z_scope.

(** ** Outcomes of a computation *)

Inductive result (A : Type) : Type :=
| Ok (a : A)
| Undef      (* undefined behaviour of the C program *)
| Timeout.   (* the loop budget of the model ran out *)
Arguments Ok {A} a.
Arguments Undef {A}.
Arguments Timeout {A}.

#[global] Instance result_ret : MRet result := @Ok.
#[global] Instance result_bind : MBind result := λ A B f m,
  match m with
  | Ok a => f a
  | Undef => Undef
  | Timeout => Timeout
  end.

(** ** Machine integers *)

Definition wrap (w z : Z) : Z := (z + 2 ^ (w - 1)) mod 2 ^ w - 2 ^ (w - 1).
Definition int_wrap : Z → Z := wrap 32.
Definition long_wrap : Z → Z := wrap 64.
Definition INT_MAX : Z := 2147483647.
Definition INT_MIN : Z := -2147483648.
Definition LONG_MAX : Z := 9223372036854775807.

Definition MAX_DIM : Z := 100.
Definition MAX (x y : Z) : Z := if x >? y then x else y.

(** ** Arrays *)

Definition rd {A} (a : list A) (i : Z) : result A :=
  if i <? 0 then Undef
  else match a !! Z.to_nat i with
       | Some x => Ok x
       | None => Undef
       end.

Definition wr {A} (a : list A) (i : Z) (x : A) : result (list A) :=
  if (0 <=? i) && (i <? Z.of_nat (length a))
  then Ok (<[Z.to_nat i := x]> a)
  else Undef.

(** [for (dim = start; dim < start + n; dim++) body] *)
Fixpoint for_loop {St} (n : nat) (dim : Z) (body : Z → St → result St)
    (s : St) : result St :=
  match n with
  | O => Ok s
  | S n' => s' ← body dim s; for_loop n' (dim + 1) body s'
  end.

(** [for (dim = 0; dim < dims; dim++) body] *)
Definition for_upto {St} (dims : Z) (body : Z → St → result St) (s : St)
  : result St :=
  for_loop (Z.to_nat dims) 0 body s.

(** ** Doubles *)

(** [(double)n] for an [int] or [long] n. *)
Definition double_of_int (z : Z) : float :=
  if z <? 0 then PrimFloat.opp (PrimFloat.of_uint63 (Uint63.of_Z (- z)))
  else PrimFloat.of_uint63 (Uint63.of_Z z).

(** The integer a finite double rounds to, with the given rounding of the
    quotient; nothing for an infinity or a NaN. *)
Definition float_to_Z (quo : Z → Z → Z) (x : float) : option Z :=
  match Prim2SF x with
  | S754_zero _ => Some 0
  | S754_finite s m e =>
      let n := if s then Z.neg m else Z.pos m in
      Some (if 0 <=? e then n * 2 ^ e else quo n (2 ^ (- e)))
  | _ => None
  end.

Definition floor_Z : float → option Z := float_to_Z Z.div.
Definition trunc_Z : float → option Z := float_to_Z Z.quot.

(** [(int)floor(x)] *)
Definition int_of_floor (x : float) : result Z :=
  match floor_Z x with
  | Some n => if (INT_MIN <=? n) && (n <=? INT_MAX) then Ok n else Undef
  | None => Undef
  end.

(** The implicit conversion of a double to [uint8_t] (w = 8) or
    [uint16_t] (w = 16): the fraction is discarded. *)
Definition uint_of_double (w : Z) (x : float) : result Z :=
  match trunc_Z x with
  | Some n => if (0 <=? n) && (n <? 2 ^ w) then Ok n else Undef
  | None => Undef
  end.

(** [htons] on a little-endian host, and the bytes of a [uint16_t] in its
    memory. *)
Definition htons (x : Z) : Z := (x mod 256) * 256 + x / 256.
Definition bytes16 (x : Z) : list Z := [x mod 256; x / 256].

(** ** The global variables *)

Record globals := Globals {
  low : list float;
  hi : list float;
  size : list float;
  bins : list Z;
  dims : Z;
  relative : bool;
  omit_outer_zero : bool;
  verbose : bool;
  raw8 : bool;
  raw16 : bool;
  min_bin_seen : list Z;
  max_bin_seen : list Z
}.

Definition set_low (a : list float) (g : globals) : globals :=
  Globals a (hi g) (size g) (bins g) (dims g) (relative g)
    (omit_outer_zero g) (verbose g) (raw8 g) (raw16 g)
    (min_bin_seen g) (max_bin_seen g).
Definition set_hi (a : list float) (g : globals) : globals :=
  Globals (low g) a (size g) (bins g) (dims g) (relative g)
    (omit_outer_zero g) (verbose g) (raw8 g) (raw16 g)
    (min_bin_seen g) (max_bin_seen g).
Definition set_size (a : list float) (g : globals) : globals :=
  Globals (low g) (hi g) a (bins g) (dims g) (relative g)
    (omit_outer_zero g) (verbose g) (raw8 g) (raw16 g)
    (min_bin_seen g) (max_bin_seen g).
Definition set_bins (a : list Z) (g : globals) : globals :=
  Globals (low g) (hi g) (size g) a (dims g) (relative g)
    (omit_outer_zero g) (verbose g) (raw8 g) (raw16 g)
    (min_bin_seen g) (max_bin_seen g).
Definition set_dims (n : Z) (g : globals) : globals :=
  Globals (low g) (hi g) (size g) (bins g) n (relative g)
    (omit_outer_zero g) (verbose g) (raw8 g) (raw16 g)
    (min_bin_seen g) (max_bin_seen g).
Definition set_relative (b : bool) (g : globals) : globals :=
  Globals (low g) (hi g) (size g) (bins g) (dims g) b
    (omit_outer_zero g) (verbose g) (raw8 g) (raw16 g)
    (min_bin_seen g) (max_bin_seen g).
Definition set_omit_outer_zero (b : bool) (g : globals) : globals :=
  Globals (low g) (hi g) (size g) (bins g) (dims g) (relative g)
    b (verbose g) (raw8 g) (raw16 g)
    (min_bin_seen g) (max_bin_seen g).
Definition set_verbose (b : bool) (g : globals) : globals :=
  Globals (low g) (hi g) (size g) (bins g) (dims g) (relative g)
    (omit_outer_zero g) b (raw8 g) (raw16 g)
    (min_bin_seen g) (max_bin_seen g).
Definition set_raw8 (b : bool) (g : globals) : globals :=
  Globals (low g) (hi g) (size g) (bins g) (dims g) (relative g)
    (omit_outer_zero g) (verbose g) b (raw16 g)
    (min_bin_seen g) (max_bin_seen g).
Definition set_raw16 (b : bool) (g : globals) : globals :=
  Globals (low g) (hi g) (size g) (bins g) (dims g) (relative g)
    (omit_outer_zero g) (verbose g) (raw8 g) b
    (min_bin_seen g) (max_bin_seen g).
Definition set_seen (mn mx : list Z) (g : globals) : globals :=
  Globals (low g) (hi g) (size g) (bins g) (dims g) (relative g)
    (omit_outer_zero g) (verbose g) (raw8 g) (raw16 g) mn mx.

(** The globals as the loader leaves them: arrays zeroed, [dims = 1],
    [verbose = 1], every other flag 0. *)
Definition zeros (n : Z) : list Z := replicate (Z.to_nat n) 0.
Definition initial_globals : globals :=
  let fz := replicate (Z.to_nat MAX_DIM) 0%float in
  Globals fz fz fz (zeros MAX_DIM) 1 false false true false false
    (zeros MAX_DIM) (zeros MAX_DIM).

(** ** The command line and the input stream *)

(** One result of [getopt_long], with its argument already converted by
    [atof] or [atoi]. *)
Inductive option_tok :=
| Opt_long (option_index : Z)   (* getopt_long returned 0 *)
| Opt_l (x : float)
| Opt_h (x : float)
| Opt_w (n : Z)
| Opt_d (n : Z)
| Opt_r
| Opt_o
| Opt_q
| Opt_other.                    (* any other return value *)

Record cmdline := Cmdline {
  options : list option_tok;
  operands : nat                (* arguments left at [argv[optind]] *)
}.

(** One line returned by [fgets]: a comment, or the numbers [strtod]
    converts in turn from its start. *)
Inductive line :=
| Comment
| Numbers (vs : list float).

(** One call of [printf] or [write] on the standard output. *)
Inductive out_item :=
| OutByte (b : Z)       (* one byte of a [write] *)
| OutMid (x : float)    (* printf("%lf\t", x) *)
| OutFreq (x : float)   (* printf("%le\n", x) *)
| OutCount (n : Z)      (* printf("%d\n", n) *)
| OutNewline.           (* printf("\n") *)

(** ** parseOptions *)

Fixpoint option_loop (g : globals) (dim : Z) (opts : list option_tok)
  : result (option globals) :=
  match opts with
  | [] => Ok (Some g)
  | o :: rest =>
      match o with
      | Opt_long idx =>
          if idx =? 0 then option_loop (set_raw8 true g) dim rest
          else if idx =? 1 then option_loop (set_raw16 true g) dim rest
          else Ok None
      | Opt_l x => a ← wr (low g) dim x; option_loop (set_low a g) dim rest
      | Opt_h x => a ← wr (hi g) dim x; option_loop (set_hi a g) dim rest
      | Opt_w n =>
          a ← wr (bins g) dim n;
          option_loop (set_bins a g) (int_wrap (dim + 1)) rest
      | Opt_d n => option_loop (set_dims n g) dim rest
      | Opt_r => option_loop (set_relative true g) dim rest
      | Opt_o => option_loop (set_omit_outer_zero true g) dim rest
      | Opt_q => option_loop (set_verbose false g) dim rest
      | Opt_other => Ok None
      end
  end.

Fixpoint range_loop (n : nat) (dim : Z) (g : globals) : result Z :=
  match n with
  | O => Ok 0
  | S n' =>
      l ← rd (low g) dim;
      h ← rd (hi g) dim;
      bad ← (if (h <=? l)%float then Ok true
             else b ← rd (bins g) dim; Ok (b <? 1));
      if (bad : bool) then Ok 1
      else range_loop n' (dim + 1) g
  end.

Definition sanity_checks (g : globals) (operands : nat) : result Z :=
  if negb (Nat.eqb operands 0) then Ok 1
  else if (dims g <? 1) || (dims g >=? MAX_DIM) then Ok 1
  else if (raw8 g || raw16 g) && (negb (dims g =? 2) || negb (relative g))
  then Ok 1
  else if raw8 g && raw16 g then Ok 1
  else range_loop (Z.to_nat (dims g)) 0 g.

Definition parseOptions (g : globals) (cl : cmdline) : result (Z * globals) :=
  r ← option_loop g 0 (options cl);
  match r with
  | None => Ok (1, g)
  | Some g' => rc ← sanity_checks g' (operands cl); Ok (rc, g')
  end.

(** ** The flattened array store *)

(** The address computation shared by [set_pos] and [get_pos]. *)
Definition index_of (dims : Z) (size pos : list Z) : result Z :=
  '(ind, _) ← for_upto dims
    (λ dim '(ind, offset),
       p ← rd pos dim;
       s ← rd size dim;
       Ok (long_wrap (ind + long_wrap (p * offset)), long_wrap (offset * s)))
    (0, 1);
  Ok ind.

Definition update_seen (dims : Z) (pos : list Z) (g : globals)
  : result globals :=
  for_upto dims
    (λ dim g,
       p ← rd pos dim;
       mn ← rd (min_bin_seen g) dim;
       a ← (if p <? mn then wr (min_bin_seen g) dim p
            else Ok (min_bin_seen g));
       mx ← rd (max_bin_seen g) dim;
       b ← (if p >? mx then wr (max_bin_seen g) dim p
            else Ok (max_bin_seen g));
       Ok (set_seen a b g))
    g.

Definition set_pos (g : globals) (field : list Z) (value : Z) (dims : Z)
    (size pos : list Z) : result (list Z * globals) :=
  ind ← index_of dims size pos;
  field' ← wr field ind value;
  g' ← update_seen dims pos g;
  Ok (field', g').

Definition get_pos (field : list Z) (dims : Z) (size pos : list Z)
  : result Z :=
  ind ← index_of dims size pos;
  rd field ind.

(** ** The odometer *)

Fixpoint adv_loop (n : nat) (dim : Z) (bins pos : list Z)
  : result (list Z * Z) :=
  match n with
  | O => Ok (pos, dim)
  | S n' =>
      p ← rd pos dim;
      pos1 ← wr pos dim (int_wrap (p + 1));
      b ← rd bins dim;
      if int_wrap (p + 1) >=? b
      then pos2 ← wr pos1 dim 0; adv_loop n' (dim + 1) bins pos2
      else Ok (pos1, dim)
  end.

Definition adv_pos (g : globals) (dims : Z) (pos : list Z)
  : result (list Z * Z) :=
  '(pos', dim) ← adv_loop (Z.to_nat dims) 0 (bins g) pos;
  Ok (pos', if dim >=? dims then 1 else 0).

(** ** import *)

(** The test "insert data if in range" over one parsed tuple. *)
Definition in_range_of (g : globals) (vals : list float) : result bool :=
  for_upto (dims g)
    (λ dim in_range,
       v ← rd vals dim;
       if (in_range : bool)
       then
         l ← rd (low g) dim;
         if (l <=? v)%float
         then h ← rd (hi g) dim; Ok (v <? h)%float
         else Ok false
       else Ok false)
    true.

(** "convert values to bin addresses" *)
Definition bin_of (g : globals) (vals : list float) (pos : list Z)
  : result (list Z) :=
  for_upto (dims g)
    (λ dim pos,
       v ← rd vals dim;
       l ← rd (low g) dim;
       s ← rd (size g) dim;
       p ← int_of_floor ((v - l) / s)%float;
       wr pos dim p)
    pos.

(** The variables the reading loop of [import] changes. *)
Record import_state := ImportState {
  ist_globals : globals;
  ist_field : list Z;
  ist_count : Z;
  ist_oor : Z;
  ist_pos : list Z
}.

(** The body of the reading loop on a line holding a full tuple. *)
Definition import_tuple (st : import_state) (vals : list float)
  : result import_state :=
  let g := ist_globals st in
  in_range ← in_range_of g vals;
  if (in_range : bool)
  then
    pos ← bin_of g vals (ist_pos st);
    val ← get_pos (ist_field st) (dims g) (bins g) pos;
    '(field, g') ← set_pos g (ist_field st) (int_wrap (val + 1))
                      (dims g) (bins g) pos;
    Ok (ImportState g' field (int_wrap (ist_count st + 1)) (ist_oor st) pos)
  else
    Ok (ImportState g (ist_field st) (int_wrap (ist_count st + 1))
          (int_wrap (ist_oor st + 1)) (ist_pos st)).

(** The reading loop, up to the end of the input or the first line that
    holds fewer than [dims] numbers; it returns the lines left unread. *)
Fixpoint import_loop (st : import_state) (stdin : list line)
  : result (import_state * list line) :=
  match stdin with
  | [] => Ok (st, [])
  | Comment :: rest => import_loop st rest
  | Numbers vs :: rest =>
      if Z.of_nat (length vs) <? dims (ist_globals st)
      then Ok (st, rest)
      else st' ← import_tuple st vs; import_loop st' rest
  end.

Inductive import_result :=
| ImportExit (status : Z) (rest : list line)
| Imported (g : globals) (field : list Z) (count : Z) (rest : list line).

Definition import (g : globals) (field : list Z) (count : Z)
    (stdin : list line) : result import_result :=
  '(st, rest) ← import_loop (ImportState g field count 0 (zeros MAX_DIM)) stdin;
  if int_wrap (ist_count st - ist_oor st) <=? 0
  then Ok (ImportExit 1 rest)
  else Ok (Imported (ist_globals st) (ist_field st) (ist_count st) rest).

(** ** output *)

(** "compute max now" *)
Fixpoint max_loop (fuel : nat) (g : globals) (field pos : list Z) (max : Z)
  : result (list Z * Z) :=
  match fuel with
  | O => Timeout
  | S fuel' =>
      v ← get_pos field (dims g) (bins g) pos;
      '(pos', over) ← adv_pos g (dims g) pos;
      if over =? 0
      then max_loop fuel' g field pos' (MAX max v)
      else Ok (pos', MAX max v)
  end.

(** "fixup min / max bins to allow one outer occurrence of 0" *)
Definition fixup_seen (g : globals) : result globals :=
  for_upto (dims g)
    (λ dim g,
       mn ← rd (min_bin_seen g) dim;
       a ← (if mn >? 0 then wr (min_bin_seen g) dim (int_wrap (mn - 1))
            else Ok (min_bin_seen g));
       mx ← rd (max_bin_seen g) dim;
       b ← rd (bins g) dim;
       c ← (if mx <? int_wrap (b - 1)
            then wr (max_bin_seen g) dim (int_wrap (mx + 1))
            else Ok (max_bin_seen g));
       Ok (set_seen a c g))
    g.

(** "reset pos pointer", second time *)
Definition start_pos (g : globals) (pos : list Z) : result (list Z) :=
  for_upto (dims g)
    (λ dim pos,
       if omit_outer_zero g
       then m ← rd (min_bin_seen g) dim; wr pos dim m
       else wr pos dim 0)
    pos.

(** The sample written for one cell in a raw mode. *)
Definition raw_sample (g : globals) (max v : Z) : result (list out_item) :=
  if raw8 g
  then
    out ← uint_of_double 8
            ((double_of_int v / double_of_int max) * 255)%float;
    Ok [OutByte out]
  else if raw16 g
  then
    out ← uint_of_double 16
            ((double_of_int v / double_of_int max) * 65535)%float;
    Ok (OutByte <$> bytes16 (htons out))
  else Ok [].

(** The midpoint printed for dimension [dim]. *)
Definition midpoint (g : globals) (pos : list Z) (dim : Z) : result float :=
  l ← rd (low g) dim;
  p ← rd pos dim;
  h ← rd (hi g) dim;
  b ← rd (bins g) dim;
  Ok (l + ((double_of_int p + 0.5) * (h - l)) / double_of_int b)%float.

(** "output one line" *)
Definition text_line (g : globals) (field : list Z) (count : Z)
    (pos : list Z) : result (list out_item) :=
  mids ← for_upto (dims g)
           (λ dim out, m ← midpoint g pos dim; Ok (out ++ [OutMid m])) [];
  if relative g
  then
    bin_sizes ← for_upto (dims g)
                  (λ dim bs, s ← rd (size g) dim; Ok (bs * s)%float) 1%float;
    v ← get_pos field (dims g) (bins g) pos;
    Ok (mids ++ [OutFreq (double_of_int v
                            / (bin_sizes * double_of_int count))%float])
  else
    v ← get_pos field (dims g) (bins g) pos;
    Ok (mids ++ [OutCount v]).

(** "check for position overflow": the test
    [pos[dim] >= bins[dim] || (omit_outer_zero && pos[dim] > max_bin_seen[dim])]
    on the value [p] of [pos[dim]]. *)
Definition overflows (g : globals) (dim p : Z) : result bool :=
  b ← rd (bins g) dim;
  if p >=? b then Ok true
  else if omit_outer_zero g
       then mx ← rd (max_bin_seen g) dim; Ok (p >? mx)
       else Ok false.

(** "update pos and maybe print a spacer line": the loop from
    [dim = n - 1] down to 0; it returns the value of [dim] on leaving. *)
Fixpoint text_adv_loop (n : nat) (g : globals) (pos : list Z)
    (out : list out_item) : result (list Z * list out_item * Z) :=
  match n with
  | O => Ok (pos, out, -1)
  | S n' =>
      let dim := Z.of_nat n' in
      p ← rd pos dim;
      pos1 ← wr pos dim (int_wrap (p + 1));
      over ← overflows g dim (int_wrap (p + 1));
      if (over : bool)
      then
        pos2 ← (if omit_outer_zero g
                then m ← rd (min_bin_seen g) dim; wr pos1 dim m
                else wr pos1 dim 0);
        text_adv_loop n' g pos2
          (if dim =? int_wrap (dims g - 1) then out ++ [OutNewline] else out)
      else Ok (pos1, out, dim)
  end.

Definition text_advance (g : globals) (pos : list Z)
  : result (list Z * list out_item * Z) :=
  text_adv_loop (Z.to_nat (dims g)) g pos [].

(** The output loop proper. *)
Fixpoint output_loop (fuel : nat) (g : globals) (field : list Z)
    (count max : Z) (pos : list Z) : result (list out_item) :=
  match fuel with
  | O => Timeout
  | S fuel' =>
      if raw8 g || raw16 g
      then
        v ← get_pos field (dims g) (bins g) pos;
        s ← raw_sample g max v;
        '(pos', over) ← adv_pos g (dims g) pos;
        if over =? 0
        then rest ← output_loop fuel' g field count max pos'; Ok (s ++ rest)
        else Ok s
      else
        l ← text_line g field count pos;
        '(pos', spacer, dim) ← text_advance g pos;
        if dim <? 0
        then Ok (l ++ spacer)
        else rest ← output_loop fuel' g field count max pos';
             Ok (l ++ spacer ++ rest)
  end.

(** "prepare output": the position is reset and, in a raw mode, the
    maximum is computed. *)
Definition first_pass (fuel : nat) (g : globals) (field : list Z)
  : result (list Z * Z) :=
  pos ← for_upto (dims g) (λ dim pos, wr pos dim 0) (zeros MAX_DIM);
  if raw8 g || raw16 g
  then max_loop fuel g field pos 0
  else Ok (pos, 0).

Definition output (fuel : nat) (g : globals) (field : list Z) (count : Z)
  : result (list out_item) :=
  '(pos, max) ← first_pass fuel g field;
  g ← fixup_seen g;
  pos ← start_pos g pos;
  output_loop fuel g field count max pos.

(** ** main *)

(** "compute bin borders etc." *)
Definition compute_sizes (g : globals) : result globals :=
  for_upto (dims g)
    (λ dim g,
       h ← rd (hi g) dim;
       l ← rd (low g) dim;
       b ← rd (bins g) dim;
       a ← wr (size g) dim ((h - l) / double_of_int b)%float;
       Ok (set_size a g))
    g.

(** "compute array size for histogram buffer" *)
Definition array_size (g : globals) : result Z :=
  for_upto (dims g)
    (λ dim temp, b ← rd (bins g) dim; Ok (int_wrap (temp * b))) 1.

(** "init. min and max statistics" *)
Definition init_seen (g : globals) : result globals :=
  for_upto (dims g)
    (λ dim g,
       a ← wr (min_bin_seen g) dim INT_MAX;
       b ← wr (max_bin_seen g) dim (-1);
       Ok (set_seen a b g))
    g.

(** The work of [main] between [parseOptions] and [import]; [calloc] is
    taken to succeed and gives [temp] zeroed cells. *)
Definition setup (g : globals) : result (globals * list Z) :=
  g ← compute_sizes g;
  temp ← array_size g;
  g ← init_seen g;
  Ok (g, zeros temp).

(** The exit status, the standard output and the lines left unread. *)
Definition main (fuel : nat) (cl : cmdline) (stdin : list line)
  : result (Z * list out_item * list line) :=
  '(rc, g) ← parseOptions initial_globals cl;
  if negb (rc =? 0) then Ok (1, [], stdin)
  else
    '(g, field) ← setup g;
    r ← import g field 0 stdin;
    match r with
    | ImportExit status rest => Ok (status, [], rest)
    | Imported g field count rest =>
        out ← output fuel g field count;
        Ok (0, out, rest)
    end.

(** * The vocabulary of the properties *)

(** ** Array elements and the stride formula *)

(** The element of an integer array, 0 outside it. *)
Definition elt (a : list Z) (d : Z) : Z := default 0 (a !! Z.to_nat d).

(** The element of an array of doubles, 0 outside it. *)
Definition flt (a : list float) (d : Z) : float :=
  default 0%float (a !! Z.to_nat d).

(** [stride_0 = 1], [stride_d = stride_(d-1) * bin_count_(d-1)]. *)
Fixpoint stride (bins : list Z) (d : nat) : Z :=
  match d with
  | O => 1
  | S d' => stride bins d' * elt bins (Z.of_nat d')
  end.

(** The linear index of the spec: the sum of [i_d * stride_d], d < D. *)
Fixpoint flat_index (bins pos : list Z) (D : nat) : Z :=
  match D with
  | O => 0
  | S D' => flat_index bins pos D' + elt pos (Z.of_nat D') * stride bins D'
  end.

(** Every index of the tuple lies in its dimension's range of bins. *)
Definition in_bins (bins pos : list Z) (D : Z) : Prop :=
  ∀ d, 0 ≤ d < D → 0 ≤ elt pos d < elt bins d.

Definition Zsum (l : list Z) : Z := foldr Z.add 0 l.

(** ** States of the globals *)

(** [g'] differs from [g] in the occupied range at most. *)
Definition same_config (g g' : globals) : Prop :=
  g' = set_seen (min_bin_seen g') (max_bin_seen g') g.

(** [g'] differs from [g] in the bin sizes and the occupied range at
    most. *)
Definition same_options (g g' : globals) : Prop :=
  g' = set_size (size g') (set_seen (min_bin_seen g') (max_bin_seen g') g).

(** The arrays of the globals hold [MAX_DIM] entries each. *)
Record full_arrays (g : globals) : Prop := FullArrays {
  full_low : Z.of_nat (length (low g)) = MAX_DIM;
  full_hi : Z.of_nat (length (hi g)) = MAX_DIM;
  full_size : Z.of_nat (length (size g)) = MAX_DIM;
  full_bins : Z.of_nat (length (bins g)) = MAX_DIM;
  full_min : Z.of_nat (length (min_bin_seen g)) = MAX_DIM;
  full_max : Z.of_nat (length (max_bin_seen g)) = MAX_DIM
}.

(** The bin counts and the array together are sound: between 1 and
    [MAX_DIM - 1] dimensions held in arrays long enough, a positive bin
    count in each dimension, and as many cells as the product of the bin
    counts, which an [int] holds. *)
Record sound (g : globals) (field : list Z) : Prop := Sound {
  sound_dims : 1 ≤ dims g < MAX_DIM;
  sound_bins_len : dims g ≤ Z.of_nat (length (bins g));
  sound_min_len : dims g ≤ Z.of_nat (length (min_bin_seen g));
  sound_max_len : dims g ≤ Z.of_nat (length (max_bin_seen g));
  sound_bins : ∀ d, 0 ≤ d < dims g → 1 ≤ elt (bins g) d;
  sound_cells :
    Z.of_nat (length field) = stride (bins g) (Z.to_nat (dims g));
  sound_fits : stride (bins g) (Z.to_nat (dims g)) ≤ INT_MAX
}.

(** ** The checks of [parseOptions] *)

(** The bounds and the bin count of dimension [d] pass the range test. *)
Definition range_ok (g : globals) (d : Z) : Prop :=
  ∃ l h, low g !! Z.to_nat d = Some l ∧ hi g !! Z.to_nat d = Some h ∧
         (h <=? l)%float = false ∧
         Z.of_nat (Z.to_nat d) < Z.of_nat (length (bins g)) ∧
         1 ≤ elt (bins g) d.



(** ** The range test and the counters of [import] *)

(** Dimension [d] of the tuple lies in [low, hi). *)
Definition coordinate_in_range (g : globals) (vals : list float) (d : Z)
  : Prop :=
  ∃ v l h, vals !! Z.to_nat d = Some v ∧ low g !! Z.to_nat d = Some l ∧
           hi g !! Z.to_nat d = Some h ∧
           (l <=? v)%float = true ∧ (v <? h)%float = true.

(** The bin index [import] computes for a tuple in dimension [d]. *)
Definition bin_index (g : globals) (vals : list float) (d : Z) : result Z :=
  pos ← bin_of g vals (zeros MAX_DIM);
  Ok (elt pos d).

(** The tuple, when it passes the range test, gets bin indices within
    the bin counts. *)
Definition binnable (g : globals) (vals : list float) : Prop :=
  in_range_of g vals = Ok true →
  ∀ pos, dims g ≤ Z.of_nat (length pos) →
         ∃ pos', bin_of g vals pos = Ok pos' ∧
                 length pos' = length pos ∧
                 in_bins (bins g) pos' (dims g).

Definition line_binnable (g : globals) (l : line) : Prop :=
  match l with
  | Comment => True
  | Numbers vs => binnable g vs
  end.

(** The tuples the reading loop takes in: every line of numbers up to the
    first one that holds fewer than [dims] of them. *)
Fixpoint tuples_read (g : globals) (stdin : list line) : Z :=
  match stdin with
  | [] => 0
  | Comment :: rest => tuples_read g rest
  | Numbers vs :: rest =>
      if Z.of_nat (length vs) <? dims g then 0
      else 1 + tuples_read g rest
  end.

(** Those of them that pass the range test. *)
Fixpoint accepted (g : globals) (stdin : list line) : Z :=
  match stdin with
  | [] => 0
  | Comment :: rest => accepted g rest
  | Numbers vs :: rest =>
      if Z.of_nat (length vs) <? dims g then 0
      else (match in_range_of g vs with Ok true => 1 | _ => 0 end)
           + accepted g rest
  end.

(** The counters tell the truth about the array. *)
Definition counted (st : import_state) : Prop :=
  Forall (λ c, 0 ≤ c) (ist_field st) ∧
  Zsum (ist_field st) = ist_count st - ist_oor st ∧
  0 ≤ ist_oor st ≤ ist_count st.

(** ** The padding step and the spacer lines *)

(** The padding of one dimension, as [output] computes it. *)
Definition pad_min (mn : Z) : Z := if mn >? 0 then int_wrap (mn - 1) else mn.
Definition pad_max (mx b : Z) : Z :=
  if mx <? int_wrap (b - 1) then int_wrap (mx + 1) else mx.

(** The occupied range of dimension 0 that [output] works with after its
    padding step. *)
Definition padded_window (g : globals) : result (Z * Z) :=
  g' ← fixup_seen g;
  Ok (elt (min_bin_seen g') 0, elt (max_bin_seen g') 0).

(** The test of [output] for "position overflow" in dimension [d]. *)
Definition wraps (g : globals) (pos : list Z) (d : Z) : Prop :=
  elt (bins g) d ≤ elt pos d + 1
  ∨ (omit_outer_zero g = true ∧ elt (max_bin_seen g) d < elt pos d + 1).

(** ** Raw samples *)

(** The samples of a list of cells, in order. *)
Fixpoint raw_samples (sample : Z → result (list out_item)) (cells : list Z)
  : result (list out_item) :=
  match cells with
  | [] => Ok []
  | v :: rest => s ← sample v; r ← raw_samples sample rest; Ok (s ++ r)
  end.

(** The sample of the cell value [v] in raw8 mode: the double
    [(double)v / max * 255] with its fraction discarded, as one byte. *)
Definition sample8 (max v : Z) : result (list out_item) :=
  n ← uint_of_double 8 ((double_of_int v / double_of_int max) * 255)%float;
  Ok [OutByte n].

(** The sample in raw16 mode: [(double)v / max * 65535] with its fraction
    discarded, as two bytes, the high one first. *)
Definition sample16 (max v : Z) : result (list out_item) :=
  n ← uint_of_double 16 ((double_of_int v / double_of_int max) * 65535)%float;
  Ok [OutByte (n / 256); OutByte (n mod 256)].

(** The sample as the spec words it: the quotient [v / max * scale]
    rounded to the nearest integer (a half rounds up). *)
Definition rounded_sample (scale max v : Z) : Z :=
  (2 * (v * scale) + max) / (2 * max).

(** The raw8 output as the spec words it, for an array. *)
Definition claimed_raw8 (field : list Z) : list out_item :=
  (λ v, OutByte (rounded_sample 255 (fold_left Z.max field 0) v)) <$> field.

(** ** Midpoints and bin widths *)

(** The bin width of dimension [d] as [main] computes it,
    [(hi - low) / bins], when the bounds are there. *)
Definition bin_width (g : globals) (d : Z) : option float :=
  l ← low g !! Z.to_nat d;
  h ← hi g !! Z.to_nat d;
  Some ((h - l) / double_of_int (elt (bins g) d))%float.


(** The midpoint as [output] computes it:
    [low + ((pos + 0.5) * (hi - low)) / bins]. *)
Definition code_midpoint (g : globals) (pos : list Z) (d : Z) : float :=
  (flt (low g) d
   + ((double_of_int (elt pos d) + 0.5) * (flt (hi g) d - flt (low g) d))
     / double_of_int (elt (bins g) d))%float.


(** ** Scenarios *)

(** The globals [parseOptions] leaves for a command line, then the
    globals and the zeroed array [main] hands to [import], then the
    globals, the array and the count [import] leaves (the initial globals
    and no array where a step fails). *)
Definition parsed (cl : cmdline) : globals :=
  match parseOptions initial_globals cl with
  | Ok (_, g) => g
  | _ => initial_globals
  end.

Definition configured (cl : cmdline) : globals * list Z :=
  match setup (parsed cl) with
  | Ok r => r
  | _ => (initial_globals, [])
  end.

Definition imported (cl : cmdline) (stdin : list line)
  : globals * list Z * Z :=
  match import (configured cl).1 (configured cl).2 0 stdin with
  | Ok (Imported g field count _) => (g, field, count)
  | _ => (initial_globals, [], 0)
  end.

(** The odometer scenario of the spec: two dimensions with bounds 2 and
    3. *)
Definition odometer_2_3 : globals :=
  set_bins [2; 3] (set_dims 2 initial_globals).

(** The first scenario of the spec: one dimension, the range [0, 10) in
    two bins, and the input 1, 1, 6, 6, 6. *)
Definition cmdline_1d : cmdline :=
  Cmdline [Opt_d 1; Opt_l 0; Opt_h 10; Opt_w 2] 0.
Definition input_1d : list line :=
  [Numbers [1%float]; Numbers [1%float]; Numbers [6%float];
   Numbers [6%float]; Numbers [6%float]].

(** A command line with a bin count of 0. *)
Definition cmdline_no_bins : cmdline :=
  Cmdline [Opt_d 1; Opt_l 0; Opt_h 10; Opt_w 0] 0.

(** A raw8 run over a 2 x 2 array of the square [0, 2) x [0, 2): one tuple
    in cell (0, 0) and four tuples in cell (1, 0). *)
Definition cmdline_raw8 : cmdline :=
  Cmdline [Opt_r; Opt_d 2; Opt_long 0;
           Opt_l 0; Opt_h 2; Opt_w 2; Opt_l 0; Opt_h 2; Opt_w 2] 0.
Definition input_raw : list line :=
  [Numbers [0.5; 0.5]%float; Numbers [1.5; 0.5]%float;
   Numbers [1.5; 0.5]%float; Numbers [1.5; 0.5]%float;
   Numbers [1.5; 0.5]%float].


(** A text run over three dimensions with 1, 2 and 2 bins. *)
Definition cmdline_3d : cmdline :=
  Cmdline [Opt_d 3; Opt_l 0; Opt_h 2; Opt_w 1;
           Opt_l 0; Opt_h 2; Opt_w 2; Opt_l 0; Opt_h 2; Opt_w 2] 0.
Definition input_3d : list line := [Numbers [0.5; 0.5; 0.5]%float].

(** The boundary-trim scenario of the spec: a text run with trimming over
    ten bins of [0, 10), and an input that occupies bin 7 only. *)
Definition cmdline_trim : cmdline :=
  Cmdline [Opt_o; Opt_d 1; Opt_l 0; Opt_h 10; Opt_w 10] 0.
Definition input_bin7 : list line := [Numbers [7.5%float]].

(** One dimension, the range [0, 1) in three bins; and two dimensions,
    [0, 1) in three bins by [0, 1) in two bins. *)
Definition cmdline_thirds : cmdline :=
  Cmdline [Opt_d 1; Opt_l 0; Opt_h 1; Opt_w 3] 0.
Definition cmdline_thirds_2d : cmdline :=
  Cmdline [Opt_d 2; Opt_l 0; Opt_h 1; Opt_w 3; Opt_l 0; Opt_h 1; Opt_w 2] 0.

(** The largest double below 1, which [strtod] returns for
    "0.9999999999999999". *)
Definition below_one : float := 0x1.fffffffffffffp-1%float.


(** A raw8 run over a 3 x 1 array of [0, 1) x [0, 1), and the tuple of
    the largest double below 1 and 0.5. *)
Definition cmdline_raw8_thirds : cmdline :=
  Cmdline [Opt_r; Opt_d 2; Opt_long 0;
           Opt_l 0; Opt_h 1; Opt_w 3; Opt_l 0; Opt_h 1; Opt_w 1] 0.
Definition input_thirds_raw : list line := [Numbers [below_one; 0.5%float]].

(** ** The formulas of a text line, read in an arithmetic *)

(** The operations the midpoint and the bin width are built from. *)
Class Arith (A : Type) := {
  a_add : A → A → A;
  a_sub : A → A → A;
  a_mul : A → A → A;
  a_div : A → A → A;
  a_of_int : Z → A;
  a_half : A
}.

(** The arithmetic of the program: binary64, every operation rounded. *)
#[global] Instance float_arith : Arith float := {|
  a_add := PrimFloat.add;
  a_sub := PrimFloat.sub;
  a_mul := PrimFloat.mul;
  a_div := PrimFloat.div;
  a_of_int := double_of_int;
  a_half := 0.5%float
|}.

(** Exact arithmetic, on the rationals. *)
#[global] Instance Q_arith : Arith Q := {|
  a_add := Qplus;
  a_sub := Qminus;
  a_mul := Qmult;
  a_div := Qdiv;
  a_of_int := inject_Z;
  a_half := Qmake 1 2
|}.



(** * The vocabulary of the further properties *)

(** ** The option loop *)

(** An option the loop of [parseOptions] has a case for. *)
Definition recognised (o : option_tok) : bool :=
  match o with
  | Opt_long idx => (idx =? 0) || (idx =? 1)
  | Opt_other => false
  | _ => true
  end.

(** The number of [-w] options, each of which moves on to the next
    dimension. *)
Fixpoint count_w (opts : list option_tok) : Z :=
  match opts with
  | [] => 0
  | Opt_w _ :: rest => 1 + count_w rest
  | _ :: rest => count_w rest
  end.

(** An option that stores into [low], [hi] or [bins] at the current
    dimension. *)
Definition stores (o : option_tok) : bool :=
  match o with
  | Opt_l _ | Opt_h _ | Opt_w _ => true
  | _ => false
  end.
(** ** Lines of the input *)

(** The input without its comment lines. *)
Fixpoint without_comments (stdin : list line) : list line :=
  match stdin with
  | [] => []
  | Comment :: rest => without_comments rest
  | l :: rest => l :: without_comments rest
  end.

(** The line holds at least [D] numbers, or is a comment. *)
Definition full_line (D : Z) (l : line) : Prop :=
  match l with
  | Comment => True
  | Numbers vs => D ≤ Z.of_nat (length vs)
  end.

(** What a caller of the program sees: the exit status and the standard
    output. *)
Definition run (fuel : nat) (cl : cmdline) (stdin : list line)
  : result (Z * list out_item) :=
  '(rc, out, _) ← main fuel cl stdin;
  Ok (rc, out).

(** ** The occupied range *)

(** The trackers as [main] sets them before [import]: no bin seen yet. *)
Definition unoccupied (g : globals) : Prop :=
  ∀ d, 0 ≤ d < dims g →
       elt (min_bin_seen g) d = INT_MAX ∧ elt (max_bin_seen g) d = -1.

(** The trackers span a range of bins in every dimension. *)
Definition occupied_range (g : globals) : Prop :=
  ∀ d, 0 ≤ d < dims g →
       0 ≤ elt (min_bin_seen g) d ∧
       elt (min_bin_seen g) d ≤ elt (max_bin_seen g) d ∧
       elt (max_bin_seen g) d < elt (bins g) d.
(** ** Bin indices *)

(** The bin index of dimension [d] of a tuple, as the binning loop of
    [import] computes it. *)
Definition bin_value (g : globals) (vals : list float) (d : Z) : result Z :=
  v ← rd vals d;
  l ← rd (low g) d;
  s ← rd (size g) d;
  int_of_floor ((v - l) / s)%float.

(** A tuple that fails the range test, or whose bin indices, computed
    from the zeroed tuple, lie within the bin counts. *)
Definition binnable_b (g : globals) (vals : list float) : bool :=
  match in_range_of g vals with
  | Ok true =>
      forallb
        (λ d, match bin_value g vals d with
              | Ok p => (0 <=? p) && (p <? elt (bins g) d)
              | _ => false
              end)
        (seqZ 0 (dims g))
  | _ => true
  end.

Definition line_binnable_b (g : globals) (l : line) : bool :=
  match l with
  | Comment => true
  | Numbers vs => binnable_b g vs
  end.
(** ** Runs of the odometer *)

(** [n] calls of [adv_pos] in a row: the tuple they leave and the flags
    they returned, in order. *)
Fixpoint adv_iter (n : nat) (g : globals) (pos : list Z)
  : result (list Z * list Z) :=
  match n with
  | O => Ok (pos, [])
  | S n' =>
      '(pos1, over) ← adv_pos g (dims g) pos;
      '(pos2, flags) ← adv_iter n' g pos1;
      Ok (pos2, over :: flags)
  end.
(** ** Text output *)

(** The rank of an index tuple in row-major order, the last dimension
    running fastest. *)
Fixpoint text_index (bins pos : list Z) (D : nat) : Z :=
  match D with
  | O => 0
  | S D' =>
      text_index bins pos D' * elt bins (Z.of_nat D') + elt pos (Z.of_nat D')
  end.

(** The index tuple of rank [k]. *)
Fixpoint text_tuple (bins : list Z) (D : nat) (k : Z) : list Z :=
  match D with
  | O => []
  | S D' =>
      text_tuple bins D' (k / elt bins (Z.of_nat D'))
        ++ [k mod elt bins (Z.of_nat D')]
  end.

(** The product of the entries of [size], taken in order from 1.0. *)
Definition sizes_product (g : globals) : float :=
  fold_left (λ acc d, (acc * flt (size g) d)%float) (seqZ 0 (dims g)) 1%float.

(** The line of an index tuple: the midpoints of its bins, then the count
    of its cell, or in relative mode the count over the product of the
    bin sizes and the number of tuples read. *)
Definition line_of (g : globals) (field : list Z) (count : Z) (pos : list Z)
  : list out_item :=
  ((λ d, OutMid (code_midpoint g pos d)) <$> seqZ 0 (dims g))
  ++ [if relative g
      then OutFreq
             (double_of_int
                (elt field (flat_index (bins g) pos (Z.to_nat (dims g))))
              / (sizes_product g * double_of_int count))%float
      else OutCount
             (elt field (flat_index (bins g) pos (Z.to_nat (dims g))))].

(** The blank line that closes a run over the last dimension. *)
Definition spacer_of (g : globals) (k : Z) : list out_item :=
  if (k + 1) mod elt (bins g) (dims g - 1) =? 0 then [OutNewline] else [].

(** The text output of the whole array: the lines of all index tuples in
    row-major order, a blank line after each run over the last
    dimension. *)
Definition text_output (g : globals) (field : list Z) (count : Z)
  : list out_item :=
  k ← seqZ 0 (stride (bins g) (Z.to_nat (dims g)));
  line_of g field count (text_tuple (bins g) (Z.to_nat (dims g)) k)
    ++ spacer_of g k.
(** ** Text output with boundary trimming *)

(** The number of bins of dimension [d] inside the occupied range. *)
Definition window_width (g : globals) (d : Z) : Z :=
  elt (max_bin_seen g) d - elt (min_bin_seen g) d + 1.

(** The number of cells of the first [D] dimensions of the occupied
    range. *)
Fixpoint window_cells (g : globals) (D : nat) : Z :=
  match D with
  | O => 1
  | S D' => window_cells g D' * window_width g (Z.of_nat D')
  end.

(** The index tuple lies inside the occupied range. *)
Definition in_window (g : globals) (pos : list Z) : Prop :=
  ∀ d, 0 ≤ d < dims g →
       elt (min_bin_seen g) d ≤ elt pos d ≤ elt (max_bin_seen g) d.

(** The rank of an index tuple among those of the occupied range, in
    row-major order. *)
Fixpoint window_index (g : globals) (pos : list Z) (D : nat) : Z :=
  match D with
  | O => 0
  | S D' =>
      window_index g pos D' * window_width g (Z.of_nat D')
      + (elt pos (Z.of_nat D') - elt (min_bin_seen g) (Z.of_nat D'))
  end.

(** The index tuple of rank [k] in the occupied range. *)
Fixpoint window_tuple (g : globals) (D : nat) (k : Z) : list Z :=
  match D with
  | O => []
  | S D' =>
      window_tuple g D' (k / window_width g (Z.of_nat D'))
        ++ [elt (min_bin_seen g) (Z.of_nat D')
            + k mod window_width g (Z.of_nat D')]
  end.

(** The globals after the padding step of [output]. *)
Definition padded (g : globals) : globals :=
  match fixup_seen g with
  | Ok g' => g'
  | _ => g
  end.

(** The blank line that closes a run over the last dimension of the
    occupied range. *)
Definition window_spacer (g : globals) (k : Z) : list out_item :=
  if (k + 1) mod window_width g (dims g - 1) =? 0 then [OutNewline] else [].

(** The text output of the occupied range: the lines of its index tuples
    in row-major order, a blank line after each run over the last
    dimension. *)
Definition trimmed_output (g : globals) (field : list Z) (count : Z)
  : list out_item :=
  k ← seqZ 0 (window_cells g (Z.to_nat (dims g)));
  line_of g field count (window_tuple g (Z.to_nat (dims g)) k)
    ++ window_spacer g k.
(** A raw8 run with boundary trimming over a 4 x 1 array of
    [0, 4) x [0, 1), and an input that occupies the last cell only. *)
Definition cmdline_raw8_strip : cmdline :=
  Cmdline [Opt_r; Opt_o; Opt_d 2; Opt_long 0;
           Opt_l 0; Opt_h 4; Opt_w 4; Opt_l 0; Opt_h 1; Opt_w 1] 0.
Definition input_strip : list line := [Numbers [3.5; 0.5]%float].

(** * Properties *)

(** ** The outcome monad, arrays and loops *)

Lemma bind_Ok {A B} (m : result A) (f : A → result B) (r : B) :
  m ≫= f = Ok r → ∃ a, m = Ok a ∧ f a = Ok r.
Proof. destruct m; simpl; intros H; try discriminate; eauto. Qed.

(** Split a hypothesis [x ← m; k = Ok r] into its two halves. *)
Ltac inv_bind H :=
  let a := fresh "a" in
  let H1 := fresh H "l" in
  apply bind_Ok in H as (a & H1 & H).

Ltac inv_Ok H := injection H as H; subst.

Lemma wrap_small (w z : Z) :
  0 < w → - 2 ^ (w - 1) ≤ z < 2 ^ (w - 1) → wrap w z = z.
Proof.
  intros Hw Hz. unfold wrap.
  replace (2 ^ w) with (2 * 2 ^ (w - 1)).
  - rewrite Z.mod_small; lia.
  - rewrite <- Z.pow_succ_r by lia. f_equal; lia.
Qed.

Lemma int_wrap_small (z : Z) : INT_MIN ≤ z ≤ INT_MAX → int_wrap z = z.
Proof.
  unfold INT_MIN, INT_MAX, int_wrap. intros H.
  apply wrap_small; [lia|]. change (2 ^ (32 - 1)) with 2147483648. lia.
Qed.

Lemma long_wrap_small (z : Z) : - LONG_MAX - 1 ≤ z ≤ LONG_MAX → long_wrap z = z.
Proof.
  unfold LONG_MAX, long_wrap. intros H.
  apply wrap_small; [lia|].
  change (2 ^ (64 - 1)) with 9223372036854775808. lia.
Qed.

Lemma rd_Ok {A} (a : list A) (i : Z) (x : A) :
  rd a i = Ok x ↔ 0 ≤ i ∧ a !! Z.to_nat i = Some x.
Proof.
  unfold rd. destruct (Z.ltb_spec i 0).
  - split; [discriminate | lia].
  - destruct (a !! Z.to_nat i) eqn:E; split; intros H'.
    + inv_Ok H'. auto.
    + destruct H' as [_ H']. congruence.
    + discriminate.
    + destruct H' as [_ H']. discriminate.
Qed.

Lemma rd_in_bounds {A} (a : list A) (i : Z) :
  0 ≤ i < Z.of_nat (length a) → ∃ x, rd a i = Ok x.
Proof.
  intros H. destruct (lookup_lt_is_Some_2 a (Z.to_nat i)) as [x Hx]; [lia|].
  exists x. apply rd_Ok. split; [lia | done].
Qed.

Lemma rd_elt (a : list Z) (i : Z) :
  0 ≤ i < Z.of_nat (length a) → rd a i = Ok (elt a i).
Proof.
  intros H. destruct (rd_in_bounds a i H) as [x Hx]. rewrite Hx.
  apply rd_Ok in Hx as [_ Hx]. unfold elt. rewrite Hx. reflexivity.
Qed.

Lemma rd_Ok_elt (a : list Z) (i x : Z) :
  rd a i = Ok x → x = elt a i ∧ 0 ≤ i < Z.of_nat (length a).
Proof.
  intros H. apply rd_Ok in H as [H0 H]. unfold elt. rewrite H. split; [done|].
  apply lookup_lt_Some in H. lia.
Qed.

Lemma wr_in_bounds {A} (a : list A) (i : Z) (x : A) :
  0 ≤ i < Z.of_nat (length a) → wr a i x = Ok (<[Z.to_nat i := x]> a).
Proof.
  intros H. unfold wr.
  destruct (Z.leb_spec 0 i); [|lia]. destruct (Z.ltb_spec i (Z.of_nat (length a))); [|lia].
  reflexivity.
Qed.

Lemma wr_Ok {A} (a a' : list A) (i : Z) (x : A) :
  wr a i x = Ok a' →
  0 ≤ i < Z.of_nat (length a) ∧ a' = <[Z.to_nat i := x]> a.
Proof.
  unfold wr. destruct (Z.leb_spec 0 i); simpl; [|discriminate].
  destruct (Z.ltb_spec i (Z.of_nat (length a))); [|discriminate].
  intros H'. inv_Ok H'. auto.
Qed.

Lemma elt_insert_eq (a : list Z) (i x : Z) :
  0 ≤ i < Z.of_nat (length a) → elt (<[Z.to_nat i := x]> a) i = x.
Proof.
  intros H. unfold elt. rewrite list_lookup_insert_eq by lia. reflexivity.
Qed.

Lemma elt_insert_ne (a : list Z) (i j x : Z) :
  0 ≤ i → 0 ≤ j → i ≠ j → elt (<[Z.to_nat i := x]> a) j = elt a j.
Proof.
  intros Hi Hj Hne. unfold elt. rewrite list_lookup_insert_ne by lia. reflexivity.
Qed.

(** A loop whose body keeps an invariant runs to its end and keeps it. *)
Lemma for_loop_inv {St} (P : Z → St → Prop) (body : Z → St → result St)
    (n : nat) (dim : Z) (s : St) :
  P dim s →
  (∀ i s, dim ≤ i < dim + Z.of_nat n → P i s →
          ∃ s', body i s = Ok s' ∧ P (i + 1) s') →
  ∃ s', for_loop n dim body s = Ok s' ∧ P (dim + Z.of_nat n) s'.
Proof.
  revert dim s. induction n as [|n IH]; intros dim s HP Hbody.
  - exists s. simpl. rewrite Z.add_0_r. auto.
  - destruct (Hbody dim s) as (s1 & Hs1 & HP1); [lia | done |].
    destruct (IH (dim + 1) s1) as (s' & Hs' & HP'); [done | |].
    + intros i s0 Hi. apply Hbody. lia.
    + exists s'. simpl. rewrite Hs1. simpl. split; [done|].
      replace (dim + Z.of_nat (S n)) with (dim + 1 + Z.of_nat n) by lia. done.
Qed.

(** What every successful iteration keeps, a successful loop keeps. *)
Lemma for_loop_keeps {St} (P : St → Prop) (body : Z → St → result St)
    (n : nat) (dim : Z) (s s' : St) :
  for_loop n dim body s = Ok s' →
  P s →
  (∀ i s s', body i s = Ok s' → P s → P s') →
  P s'.
Proof.
  revert dim s. induction n as [|n IH]; intros dim s H HP Hbody; simpl in H.
  - inv_Ok H. done.
  - inv_bind H. eapply IH; eauto.
Qed.

(** What every successful iteration carries one step further, a successful
    loop carries to its end. *)
Lemma for_loop_ok_inv {St} (P : Z → St → Prop) (body : Z → St → result St)
    (n : nat) :
  ∀ (dim : Z) (s s' : St),
  for_loop n dim body s = Ok s' →
  P dim s →
  (∀ i s s', dim ≤ i < dim + Z.of_nat n → body i s = Ok s' → P i s →
             P (i + 1) s') →
  P (dim + Z.of_nat n) s'.
Proof.
  induction n as [|n IH]; intros dim s s' H HP Hbody; simpl in H.
  - inv_Ok H. by rewrite Z.add_0_r.
  - inv_bind H.
    replace (dim + Z.of_nat (S n)) with (dim + 1 + Z.of_nat n) by lia.
    eapply IH; [done| |].
    + eapply Hbody; [lia|done|done].
    + intros i s1 s2 Hi. apply Hbody. lia.
Qed.

(** A loop whose body always succeeds is a fold. *)
Lemma for_loop_fold {St} (f : Z → St → St) (body : Z → St → result St)
    (n : nat) :
  ∀ (dim : Z) (s : St),
  (∀ i s, dim ≤ i < dim + Z.of_nat n → body i s = Ok (f i s)) →
  for_loop n dim body s
    = Ok (fold_left (λ s i, f i s) (seqZ dim (Z.of_nat n)) s).
Proof.
  induction n as [|n IH]; intros dim s Hbody; [done|].
  rewrite seqZ_cons by lia. simpl. rewrite Hbody by lia. simpl.
  replace (Z.pred (Z.of_nat (S n))) with (Z.of_nat n) by lia.
  apply IH. intros i s1 Hi. apply Hbody. lia.
Qed.

(** ** The flattened array store: the stride formula *)

Section Stride.
Variables (bins : list Z) (D : nat).
Hypothesis bins_pos : ∀ d, 0 ≤ d < Z.of_nat D → 1 ≤ elt bins d.

Lemma stride_pos (k : nat) : (k ≤ D)%nat → 1 ≤ stride bins k.
Proof.
  induction k as [|k IH]; intros Hk; simpl; [lia|].
  specialize (bins_pos (Z.of_nat k)). nia.
Qed.

Lemma stride_step (k : nat) : (k < D)%nat → stride bins k ≤ stride bins (S k).
Proof.
  intros Hk. simpl. pose proof (stride_pos k).
  specialize (bins_pos (Z.of_nat k)). nia.
Qed.

Lemma stride_mono (k k' : nat) :
  (k ≤ k')%nat → (k' ≤ D)%nat → stride bins k ≤ stride bins k'.
Proof.
  induction 1 as [|k' Hle IH]; intros Hk'; [lia|].
  etrans; [apply IH; lia|]. apply stride_step. lia.
Qed.

Lemma flat_index_bound (pos : list Z) (k : nat) :
  in_bins bins pos (Z.of_nat D) → (k ≤ D)%nat →
  0 ≤ flat_index bins pos k < stride bins k.
Proof.
  intros Hv. induction k as [|k IH]; intros Hk; simpl; [lia|].
  specialize (Hv (Z.of_nat k)). pose proof (stride_pos k). nia.
Qed.
End Stride.

Lemma in_bins_pos (bins pos : list Z) (D : Z) :
  in_bins bins pos D → ∀ d, 0 ≤ d < D → 1 ≤ elt bins d.
Proof. intros H d Hd. specialize (H d Hd). lia. Qed.

(** On a tuple within the bins of an array that a [long] can address,
    the address loop of the accessors computes the stride formula. *)
Lemma index_of_flat (dims : Z) (bins pos : list Z) :
  dims ≤ Z.of_nat (length pos) → dims ≤ Z.of_nat (length bins) →
  in_bins bins pos dims →
  stride bins (Z.to_nat dims) ≤ LONG_MAX →
  index_of dims bins pos = Ok (flat_index bins pos (Z.to_nat dims)).
Proof.
  intros Hlp Hlb Hv Hmax. unfold index_of, for_upto.
  set (D := Z.to_nat dims) in *.
  assert (HvD : in_bins bins pos (Z.of_nat D)).
  { intros d Hd. apply Hv. lia. }
  pose proof (in_bins_pos _ _ _ HvD) as Hb.
  edestruct (for_loop_inv
    (λ i (s : Z * Z), 0 ≤ i ≤ Z.of_nat D ∧
       s = (flat_index bins pos (Z.to_nat i), stride bins (Z.to_nat i))))
    as (s' & Hs' & _ & ->); [| |rewrite Hs'; simpl].
  - split; [lia|reflexivity].
  - intros i s Hi (_ & ->). simpl.
    rewrite (rd_elt pos i) by lia. rewrite (rd_elt bins i) by lia. simpl.
    eexists; split; [reflexivity|]. split; [lia|].
    replace (Z.to_nat (i + 1)) with (S (Z.to_nat i)) by lia.
    simpl. rewrite Z2Nat.id by lia.
    pose proof (flat_index_bound bins D Hb pos (Z.to_nat i) HvD ltac:(lia)).
    pose proof (flat_index_bound bins D Hb pos (S (Z.to_nat i)) HvD ltac:(lia))
      as Hn.
    pose proof (stride_mono bins D Hb (S (Z.to_nat i)) D ltac:(lia) ltac:(lia))
      as Hm.
    pose proof (stride_pos bins D Hb (Z.to_nat i) ltac:(lia)).
    simpl in Hn, Hm. rewrite Z2Nat.id in Hn, Hm by lia.
    specialize (HvD i ltac:(lia)).
    rewrite (long_wrap_small (elt pos i * _)) by (unfold LONG_MAX in *; nia).
    rewrite !long_wrap_small by (unfold LONG_MAX in *; nia).
    reflexivity.
  - replace (Z.to_nat (0 + Z.of_nat D)) with D by lia. reflexivity.
Qed.

(** ** The occupied-range tracker inside [set_pos] *)

Lemma same_config_refl (g : globals) : same_config g g.
Proof. destruct g; reflexivity. Qed.

Lemma same_config_set_seen (g g' : globals) (a b : list Z) :
  same_config g g' → same_config g (set_seen a b g').
Proof. unfold same_config. intros ->. reflexivity. Qed.

Lemma same_config_trans (g1 g2 g3 : globals) :
  same_config g1 g2 → same_config g2 g3 → same_config g1 g3.
Proof. unfold same_config. intros -> ->. reflexivity. Qed.

Lemma same_config_fields (g g' : globals) :
  same_config g g' →
  low g' = low g ∧ hi g' = hi g ∧ size g' = size g ∧ bins g' = bins g ∧
  dims g' = dims g ∧ relative g' = relative g ∧
  omit_outer_zero g' = omit_outer_zero g ∧ raw8 g' = raw8 g ∧
  raw16 g' = raw16 g.
Proof. unfold same_config. intros ->. repeat split. Qed.

(** [update_seen] always succeeds on arrays of [dims] entries, and leaves
    in each dimension the smaller (larger) of the old bound and the
    index. *)
Lemma update_seen_spec (dims : Z) (pos : list Z) (g : globals) :
  dims ≤ Z.of_nat (length pos) →
  dims ≤ Z.of_nat (length (min_bin_seen g)) →
  dims ≤ Z.of_nat (length (max_bin_seen g)) →
  ∃ g', update_seen dims pos g = Ok g' ∧ same_config g g' ∧
    length (min_bin_seen g') = length (min_bin_seen g) ∧
    length (max_bin_seen g') = length (max_bin_seen g) ∧
    ∀ d, 0 ≤ d →
      elt (min_bin_seen g') d =
        (if d <? dims then Z.min (elt (min_bin_seen g) d) (elt pos d)
         else elt (min_bin_seen g) d) ∧
      elt (max_bin_seen g') d =
        (if d <? dims then Z.max (elt (max_bin_seen g) d) (elt pos d)
         else elt (max_bin_seen g) d).
Proof.
  intros Hp Hmn Hmx. unfold update_seen, for_upto.
  edestruct (for_loop_inv
    (λ i g', 0 ≤ i ∧ same_config g g' ∧
       length (min_bin_seen g') = length (min_bin_seen g) ∧
       length (max_bin_seen g') = length (max_bin_seen g) ∧
       ∀ d, 0 ≤ d →
         elt (min_bin_seen g') d =
           (if d <? i then Z.min (elt (min_bin_seen g) d) (elt pos d)
            else elt (min_bin_seen g) d) ∧
         elt (max_bin_seen g') d =
           (if d <? i then Z.max (elt (max_bin_seen g) d) (elt pos d)
            else elt (max_bin_seen g) d)))
    as (g' & Hg' & _ & Hc & Hl1 & Hl2 & Hd); [| |exists g'; split; [apply Hg'|]].
  - split; [lia|]. split; [apply same_config_refl|]. do 2 (split; [done|]).
    intros d Hd. destruct (Z.ltb_spec d 0); [lia|]. done.
  - intros i g1 Hi (Hi0 & Hc & Hl1 & Hl2 & Hd).
    rewrite (rd_elt pos i) by lia. simpl.
    rewrite (rd_elt (min_bin_seen g1) i) by lia. simpl.
    rewrite (rd_elt (max_bin_seen g1) i) by lia.
    destruct (Hd i Hi0) as [Hmin Hmax].
    destruct (Z.ltb_spec i i); [lia|].
    set (a := if elt pos i <? elt (min_bin_seen g1) i
              then <[Z.to_nat i := elt pos i]> (min_bin_seen g1)
              else min_bin_seen g1).
    set (b := if elt pos i >? elt (max_bin_seen g1) i
              then <[Z.to_nat i := elt pos i]> (max_bin_seen g1)
              else max_bin_seen g1).
    exists (set_seen a b g1). split.
    { subst a b.
      rewrite !wr_in_bounds by lia.
      destruct (elt pos i <? _); simpl; destruct (elt pos i >? _); reflexivity. }
    split; [lia|]. split; [by apply same_config_set_seen|].
    assert (length a = length (min_bin_seen g) ∧
            length b = length (max_bin_seen g)) as [Hla Hlb].
    { subst a b. split.
      - destruct (elt pos i <? _); rewrite ?length_insert; done.
      - destruct (elt pos i >? _); rewrite ?length_insert; done. }
    simpl. do 2 (split; [done|]).
    intros d Hd0. destruct (Hd d Hd0) as [Hdmin Hdmax].
    destruct (Z.eq_dec d i) as [->|Hne].
    + destruct (Z.ltb_spec i (i + 1)); [|lia]. subst a b. split.
      * destruct (Z.ltb_spec (elt pos i) (elt (min_bin_seen g1) i)).
        -- rewrite elt_insert_eq by lia. lia.
        -- lia.
      * destruct (Z.gtb_spec (elt pos i) (elt (max_bin_seen g1) i)).
        -- rewrite elt_insert_eq by lia. lia.
        -- lia.
    + assert (elt a d = elt (min_bin_seen g1) d ∧
              elt b d = elt (max_bin_seen g1) d) as [-> ->].
      { subst a b. split.
        - destruct (elt pos i <? _); rewrite ?elt_insert_ne by lia; done.
        - destruct (elt pos i >? _); rewrite ?elt_insert_ne by lia; done. }
      destruct (Z.ltb_spec d i), (Z.ltb_spec d (i + 1)); try lia; done.
  - replace (0 + Z.of_nat (Z.to_nat dims)) with (Z.max 0 dims) in Hd by lia.
    split; [done|]. do 2 (split; [done|]).
    intros d Hd0. destruct (Hd d Hd0) as [H1 H2].
    destruct (Z.ltb_spec d (Z.max 0 dims)), (Z.ltb_spec d dims); try lia; done.
Qed.

(** The accessors on a tuple within the bins of an array that holds the
    product of the bin counts. *)
Lemma accessors_in_bins (g : globals) (field : list Z) (v dims : Z)
    (bins pos : list Z) :
  dims ≤ Z.of_nat (length pos) →
  dims ≤ Z.of_nat (length bins) →
  dims ≤ Z.of_nat (length (min_bin_seen g)) →
  dims ≤ Z.of_nat (length (max_bin_seen g)) →
  in_bins bins pos dims →
  stride bins (Z.to_nat dims) ≤ Z.of_nat (length field) →
  stride bins (Z.to_nat dims) ≤ LONG_MAX →
  0 ≤ flat_index bins pos (Z.to_nat dims) < Z.of_nat (length field) ∧
  get_pos field dims bins pos
    = Ok (elt field (flat_index bins pos (Z.to_nat dims))) ∧
  ∃ g', set_pos g field v dims bins pos
          = Ok (<[Z.to_nat (flat_index bins pos (Z.to_nat dims)) := v]> field,
                g').
Proof.
  intros Hp Hb Hmn Hmx Hv Hlen Hmax.
  set (ind := flat_index bins pos (Z.to_nat dims)).
  assert (Hind : 0 ≤ ind < Z.of_nat (length field)).
  { assert (HvD : in_bins bins pos (Z.of_nat (Z.to_nat dims))).
    { intros d Hd. apply Hv. lia. }
    pose proof (flat_index_bound bins (Z.to_nat dims)
                  (in_bins_pos _ _ _ HvD) pos (Z.to_nat dims) HvD ltac:(lia)).
    subst ind. lia. }
  pose proof (index_of_flat dims bins pos Hp Hb Hv Hmax) as Hidx.
  split; [done|]. split.
  - unfold get_pos. rewrite Hidx. simpl. by apply rd_elt.
  - destruct (update_seen_spec dims pos g Hp Hmn Hmx) as (g' & Hg' & _).
    exists g'. unfold set_pos. rewrite Hidx. simpl.
    rewrite wr_in_bounds by done. simpl. rewrite Hg'. reflexivity.
Qed.

(** ** C8: both accessors address the cell of the stride formula *)

(** C8. For an index tuple within the bin counts, of an array holding the
    product of the bin counts that a [long] can address, [get_pos] reads
    and [set_pos] writes the cell whose linear index is the sum of
    [i_d * stride_d], with [stride_0 = 1] and
    [stride_d = stride_(d-1) * bin_count_(d-1)]; so a read that follows a
    write of [v] at the same tuple returns [v]. *)
Theorem C8_accessors_stride_formula (g : globals) (field : list Z)
    (v dims : Z) (bins pos : list Z) :
  dims ≤ Z.of_nat (length pos) →
  dims ≤ Z.of_nat (length bins) →
  dims ≤ Z.of_nat (length (min_bin_seen g)) →
  dims ≤ Z.of_nat (length (max_bin_seen g)) →
  in_bins bins pos dims →
  stride bins (Z.to_nat dims) ≤ Z.of_nat (length field) →
  stride bins (Z.to_nat dims) ≤ LONG_MAX →
  let ind := flat_index bins pos (Z.to_nat dims) in
  0 ≤ ind < Z.of_nat (length field) ∧
  get_pos field dims bins pos = Ok (elt field ind) ∧
  ∃ g', set_pos g field v dims bins pos
          = Ok (<[Z.to_nat ind := v]> field, g') ∧
        get_pos (<[Z.to_nat ind := v]> field) dims bins pos = Ok v.
Proof.
  intros Hp Hb Hmn Hmx Hv Hlen Hmax ind.
  destruct (accessors_in_bins g field v dims bins pos Hp Hb Hmn Hmx Hv Hlen Hmax)
    as (Hind & Hget & g' & Hset).
  fold ind in Hind, Hget, Hset.
  split; [done|]. split; [done|]. exists g'. split; [done|].
  unfold get_pos. rewrite (index_of_flat dims bins pos Hp Hb Hv Hmax). simpl.
  fold ind. rewrite rd_elt by (rewrite length_insert; done).
  by rewrite elt_insert_eq.
Qed.

Lemma C8_accessors_stride_formula_witness :
  let field := [0; 0; 0; 0; 0; 0] in
  let ind := flat_index [2; 3] [1; 2] 2 in
  ind = 5 ∧
  get_pos field 2 [2; 3] [1; 2] = Ok 0 ∧
  ∃ g', set_pos initial_globals field 7 2 [2; 3] [1; 2]
          = Ok ([0; 0; 0; 0; 0; 7], g') ∧
        get_pos [0; 0; 0; 0; 0; 7] 2 [2; 3] [1; 2] = Ok 7.
Proof.
  split; [reflexivity|].
  refine (proj2 (C8_accessors_stride_formula initial_globals
                   [0; 0; 0; 0; 0; 0] 7 2 [2; 3] [1; 2] _ _ _ _ _ _ _)).
  - simpl; lia.
  - simpl; lia.
  - simpl; lia.
  - simpl; lia.
  - intros d Hd. assert (d = 0 ∨ d = 1) as [-> | ->] by lia; vm_compute; split; congruence.
  - vm_compute; congruence.
  - vm_compute; congruence.
Defined.

(** ** C7: the odometer *)

(** The carry loop of [adv_pos] started at [dim] with [n] dimensions to
    go: it leaves at some [k], having reset the dimensions before [k],
    which had reached their bound, and incremented dimension [k]. *)
Lemma adv_loop_spec (bins : list Z) (n : nat) :
  ∀ (dim : Z) (pos : list Z),
  0 ≤ dim →
  dim + Z.of_nat n ≤ Z.of_nat (length pos) →
  dim + Z.of_nat n ≤ Z.of_nat (length bins) →
  (∀ d, dim ≤ d < dim + Z.of_nat n → INT_MIN ≤ elt pos d < INT_MAX) →
  ∃ pos' k,
    dim ≤ k ≤ dim + Z.of_nat n ∧
    adv_loop n dim bins pos = Ok (pos', k) ∧
    length pos' = length pos ∧
    (∀ d, dim ≤ d < k → elt bins d ≤ elt pos d + 1 ∧ elt pos' d = 0) ∧
    (k < dim + Z.of_nat n →
       elt pos k + 1 < elt bins k ∧ elt pos' k = elt pos k + 1) ∧
    (∀ d, 0 ≤ d → d < dim ∨ k < d ∨ d = dim + Z.of_nat n →
       elt pos' d = elt pos d).
Proof.
  induction n as [|n IH]; intros dim pos Hdim Hlp Hlb Hint.
  - exists pos, dim. simpl. repeat split; try lia; done.
  - simpl.
    rewrite (rd_elt pos dim) by lia. simpl.
    rewrite (int_wrap_small (elt pos dim + 1))
      by (specialize (Hint dim); unfold INT_MIN, INT_MAX in *; lia).
    rewrite wr_in_bounds by lia. simpl.
    rewrite (rd_elt bins dim) by lia. simpl.
    destruct (Z.geb_spec (elt pos dim + 1) (elt bins dim)) as [Hge|Hlt].
    + rewrite wr_in_bounds by (rewrite length_insert; lia). simpl.
      rewrite list_insert_insert_eq.
      set (pos2 := <[Z.to_nat dim := 0]> pos).
      assert (Hl2 : length pos2 = length pos) by apply length_insert.
      assert (He2 : ∀ d, 0 ≤ d → d ≠ dim → elt pos2 d = elt pos d).
      { intros d Hd Hne. apply elt_insert_ne; lia. }
      destruct (IH (dim + 1) pos2) as (pos' & k & Hk & Hrun & Hl & Hlo & Hat & Hout).
      * lia.
      * lia.
      * lia.
      * intros d Hd. rewrite He2 by lia. apply Hint. lia.
      * exists pos', k. split; [lia|]. split; [done|]. split; [lia|].
        split; [|split].
        -- intros d Hd. destruct (Z.eq_dec d dim) as [->|Hne].
           ++ split; [lia|]. rewrite Hout by lia. apply elt_insert_eq. lia.
           ++ destruct (Hlo d) as [H1 H2]; [lia|]. rewrite He2 in H1 by lia. done.
        -- intros Hk'. destruct Hat as [H1 H2]; [lia|].
           rewrite He2 in H1, H2 by lia. done.
        -- intros d Hd0 Hd. rewrite Hout by lia. apply He2; lia.
    + exists (<[Z.to_nat dim := elt pos dim + 1]> pos), dim.
      split; [lia|]. split; [done|]. split; [apply length_insert|].
      split; [intros; lia|]. split.
      * intros _. split; [lia|]. apply elt_insert_eq. lia.
      * intros d Hd0 Hd. apply elt_insert_ne; lia.
Qed.

(** C7. [adv_pos] increments dimension 0 first; a dimension that reaches
    its bound is reset to 0 and the carry moves to the next one: the [k]
    dimensions that wrapped are 0, dimension [k] is one more, the others
    are untouched; it returns 1 exactly when the carry went past the last
    dimension ([k = dims]). Over the bounds (2, 3) and from (0, 0) it
    visits (0,0), (1,0), (0,1), (1,1), (0,2), (1,2) and then returns 1. *)
Theorem C7_adv_pos_odometer :
  (∀ (g : globals) (pos : list Z),
     0 ≤ dims g →
     dims g ≤ Z.of_nat (length pos) →
     dims g ≤ Z.of_nat (length (bins g)) →
     (∀ d, 0 ≤ d < dims g → INT_MIN ≤ elt pos d < INT_MAX) →
     ∃ pos' k,
       0 ≤ k ≤ dims g ∧
       adv_pos g (dims g) pos = Ok (pos', if k =? dims g then 1 else 0) ∧
       length pos' = length pos ∧
       (∀ d, 0 ≤ d < k → elt (bins g) d ≤ elt pos d + 1 ∧ elt pos' d = 0) ∧
       (k < dims g →
          elt pos k + 1 < elt (bins g) k ∧ elt pos' k = elt pos k + 1) ∧
       (∀ d, k < d → elt pos' d = elt pos d))
  ∧ adv_pos odometer_2_3 2 [0; 0] = Ok ([1; 0], 0)
  ∧ adv_pos odometer_2_3 2 [1; 0] = Ok ([0; 1], 0)
  ∧ adv_pos odometer_2_3 2 [0; 1] = Ok ([1; 1], 0)
  ∧ adv_pos odometer_2_3 2 [1; 1] = Ok ([0; 2], 0)
  ∧ adv_pos odometer_2_3 2 [0; 2] = Ok ([1; 2], 0)
  ∧ adv_pos odometer_2_3 2 [1; 2] = Ok ([0; 0], 1).
Proof.
  split; [|repeat split; reflexivity].
  intros g pos Hd Hlp Hlb Hint.
  destruct (adv_loop_spec (bins g) (Z.to_nat (dims g)) 0 pos)
    as (pos' & k & Hk & Hrun & Hl & Hlo & Hat & Hout); try lia.
  { intros d Hd'. apply Hint. lia. }
  exists pos', k. split; [lia|]. split.
  { unfold adv_pos. rewrite Hrun. simpl.
    destruct (Z.geb_spec k (dims g)), (Z.eqb_spec k (dims g)); try lia; done. }
  split; [done|]. split; [done|]. split.
  - intros Hlt. apply Hat. lia.
  - intros d Hkd. apply Hout; lia.
Qed.

Lemma C7_adv_pos_odometer_witness :
  ∃ pos' k,
    0 ≤ k ≤ 2 ∧
    adv_pos odometer_2_3 2 [1; 0] = Ok (pos', if k =? 2 then 1 else 0) ∧
    length pos' = 2%nat ∧
    (∀ d, 0 ≤ d < k → elt [2; 3] d ≤ elt [1; 0] d + 1 ∧ elt pos' d = 0) ∧
    (k < 2 → elt [1; 0] k + 1 < elt [2; 3] k ∧ elt pos' k = elt [1; 0] k + 1) ∧
    (∀ d, k < d → elt pos' d = elt [1; 0] d).
Proof.
  apply (proj1 C7_adv_pos_odometer odometer_2_3 [1; 0]).
  - simpl; lia.
  - simpl; lia.
  - simpl; lia.
  - intros d Hd. simpl in Hd.
    assert (d = 0 ∨ d = 1) as [-> | ->] by lia; vm_compute; split; congruence.
Defined.

(** ** The odometer walks the linear indices in order *)

Section Carry.
Variables (bins pos pos' : list Z) (k : nat).
Hypothesis wrapped : ∀ d, 0 ≤ d < Z.of_nat k →
  elt pos d = elt bins d - 1 ∧ elt pos' d = 0.

Lemma flat_index_wrapped (m : nat) :
  (m ≤ k)%nat →
  flat_index bins pos m = stride bins m - 1 ∧ flat_index bins pos' m = 0.
Proof.
  induction m as [|m IH]; intros Hm; simpl; [lia|].
  destruct IH as [IH1 IH2]; [lia|].
  destruct (wrapped (Z.of_nat m)) as [H1 H2]; [lia|].
  rewrite IH1, IH2, H1, H2. lia.
Qed.

Hypothesis incremented : elt pos' (Z.of_nat k) = elt pos (Z.of_nat k) + 1.
Hypothesis untouched : ∀ d, Z.of_nat k < d → elt pos' d = elt pos d.

Lemma flat_index_carried (m : nat) :
  (k < m)%nat → flat_index bins pos' m = flat_index bins pos m + 1.
Proof.
  induction m as [|m IH]; intros Hm; [lia|]. simpl.
  destruct (decide (m = k)) as [->|Hne].
  - destruct (flat_index_wrapped k) as [-> ->]; [lia|].
    rewrite incremented. lia.
  - rewrite IH by lia. rewrite untouched by lia. lia.
Qed.
End Carry.

Lemma sound_bins_D (g : globals) (field : list Z) :
  sound g field →
  ∀ d, 0 ≤ d < Z.of_nat (Z.to_nat (dims g)) → 1 ≤ elt (bins g) d.
Proof. intros H d Hd. apply (sound_bins g field H). lia. Qed.

Lemma sound_bin_le (g : globals) (field : list Z) (d : Z) :
  sound g field → 0 ≤ d < dims g → elt (bins g) d ≤ INT_MAX.
Proof.
  intros H Hd. pose proof (sound_bins_D g field H) as Hb.
  pose proof (stride_mono (bins g) _ Hb (S (Z.to_nat d)) (Z.to_nat (dims g))
                ltac:(lia) ltac:(lia)) as Hm.
  pose proof (stride_pos (bins g) _ Hb (Z.to_nat d) ltac:(lia)).
  pose proof (sound_fits g field H).
  simpl in Hm. rewrite Z2Nat.id in Hm by lia.
  pose proof (sound_bins g field H d Hd). nia.
Qed.

(** One step of the odometer on a tuple within the bins: the linear index
    goes up by one, or, from the last cell, back to 0 with the overflow
    flag raised. *)
Lemma adv_pos_next (g : globals) (field pos : list Z) :
  sound g field →
  dims g ≤ Z.of_nat (length pos) →
  in_bins (bins g) pos (dims g) →
  let D := Z.to_nat (dims g) in
  ∃ pos',
    length pos' = length pos ∧
    in_bins (bins g) pos' (dims g) ∧
    ((flat_index (bins g) pos D + 1 < stride (bins g) D ∧
      adv_pos g (dims g) pos = Ok (pos', 0) ∧
      flat_index (bins g) pos' D = flat_index (bins g) pos D + 1)
     ∨
     (flat_index (bins g) pos D + 1 = stride (bins g) D ∧
      adv_pos g (dims g) pos = Ok (pos', 1) ∧
      flat_index (bins g) pos' D = 0)).
Proof.
  intros Hs Hlp Hv D.
  pose proof (sound_dims g field Hs) as Hd.
  pose proof (sound_bins_len g field Hs) as Hlb.
  destruct (adv_loop_spec (bins g) D 0 pos)
    as (pos' & k & Hk & Hrun & Hl & Hlo & Hat & Hout); try (subst D; lia).
  { intros d Hd'. specialize (Hv d ltac:(subst D; lia)).
    pose proof (sound_bin_le g field d Hs ltac:(subst D; lia)).
    unfold INT_MIN, INT_MAX in *. lia. }
  assert (Hw : ∀ d, 0 ≤ d < Z.of_nat (Z.to_nat k) →
             elt pos d = elt (bins g) d - 1 ∧ elt pos' d = 0).
  { intros d Hd'. destruct (Hlo d) as [H1 H2]; [lia|].
    specialize (Hv d ltac:(subst D; lia)). lia. }
  assert (HvD : in_bins (bins g) pos (Z.of_nat D)).
  { intros d Hd'. apply Hv. subst D; lia. }
  exists pos'. split; [done|].
  destruct (Z.eq_dec k (dims g)) as [Hkd|Hkd].
  - (* the carry went past the last dimension *)
    destruct (flat_index_wrapped (bins g) pos pos' (Z.to_nat k) Hw D)
      as [Hf Hf']; [subst D; lia|].
    split.
    + intros d Hd'. destruct (Hlo d) as [_ ->]; [lia|].
      pose proof (sound_bins g field Hs d Hd'). lia.
    + right. split; [lia|]. split; [|done].
      unfold adv_pos. fold D. rewrite Hrun. simpl.
      destruct (Z.geb_spec k (dims g)); [done|lia].
  - (* dimension k was incremented *)
    destruct Hat as [Hlt Hinc]; [subst D; lia|].
    assert (Hf' : flat_index (bins g) pos' D = flat_index (bins g) pos D + 1).
    { apply (flat_index_carried (bins g) pos pos' (Z.to_nat k) Hw).
      - rewrite Z2Nat.id by lia. done.
      - intros d Hd'. apply Hout; lia.
      - subst D; lia. }
    assert (Hv' : in_bins (bins g) pos' (dims g)).
    { intros d Hd'. destruct (Z.lt_trichotomy d k) as [Hc|[->|Hc]].
      - destruct (Hlo d) as [_ ->]; [lia|].
        pose proof (sound_bins g field Hs d Hd'). lia.
      - specialize (Hv k Hd'). lia.
      - rewrite Hout by lia. apply Hv. done. }
    split; [done|]. left.
    assert (HvD' : in_bins (bins g) pos' (Z.of_nat D)).
    { intros d Hd'. apply Hv'. subst D; lia. }
    pose proof (flat_index_bound (bins g) D (sound_bins_D g field Hs) pos' D
                  HvD' ltac:(lia)).
    split; [lia|]. split; [|done].
    unfold adv_pos. fold D. rewrite Hrun. simpl.
    destruct (Z.geb_spec k (dims g)); [lia|done].
Qed.

Lemma MAX_max (x y : Z) : MAX x y = Z.max x y.
Proof. unfold MAX. destruct (Z.gtb_spec x y); lia. Qed.

Lemma flat_index_zero (bins pos : list Z) (D : nat) :
  (∀ d, 0 ≤ d < Z.of_nat D → elt pos d = 0) → flat_index bins pos D = 0.
Proof.
  induction D as [|D IH]; intros H; simpl; [done|].
  rewrite IH by (intros; apply H; lia). rewrite H by lia. lia.
Qed.

(** "reset pos pointer": the first [dims] entries become 0. *)
Lemma reset_pos_spec (dims : Z) (pos : list Z) :
  dims ≤ Z.of_nat (length pos) →
  ∃ pos', for_upto dims (λ dim pos, wr pos dim 0) pos = Ok pos' ∧
          length pos' = length pos ∧
          ∀ d, 0 ≤ d < dims → elt pos' d = 0.
Proof.
  intros Hl. unfold for_upto.
  edestruct (for_loop_inv
    (λ i (p : list Z), 0 ≤ i ∧ length p = length pos ∧
                       ∀ d, 0 ≤ d < i → elt p d = 0))
    as (pos' & Hrun & _ & Hlen & Hz); [| |exists pos'; split; [apply Hrun|]].
  - split; [lia|]. split; [done|]. intros; lia.
  - intros i p Hi (Hi0 & Hlen & Hz).
    rewrite wr_in_bounds by lia. eexists; split; [reflexivity|].
    split; [lia|]. split; [by rewrite length_insert|].
    intros d Hd. destruct (Z.eq_dec d i) as [->|Hne].
    + apply elt_insert_eq. lia.
    + rewrite elt_insert_ne by lia. apply Hz. lia.
  - split; [done|]. intros d Hd. apply Hz. lia.
Qed.

Lemma zeros_length (n : Z) : length (zeros n) = Z.to_nat n.
Proof. apply length_replicate. Qed.

Lemma drop_elt (l : list Z) (i : nat) :
  (i < length l)%nat → drop i l = elt l (Z.of_nat i) :: drop (S i) l.
Proof.
  intros Hi. destruct (lookup_lt_is_Some_2 l i Hi) as [x Hx].
  unfold elt. rewrite Nat2Z.id, Hx. simpl. by apply drop_S.
Qed.

(** The first pass over a sound array, from the linear index [i] on, folds
    [MAX] over the cells [i], [i+1], ... and ends on the overflow of the
    odometer. *)
Lemma max_loop_spec (g : globals) (field : list Z) :
  sound g field →
  ∀ (n fuel : nat) (pos : list Z) (max : Z),
  dims g ≤ Z.of_nat (length pos) →
  in_bins (bins g) pos (dims g) →
  Z.of_nat n = Z.of_nat (length field)
               - flat_index (bins g) pos (Z.to_nat (dims g)) →
  (n ≤ fuel)%nat →
  ∃ pos',
    max_loop fuel g field pos max
      = Ok (pos', fold_left Z.max
                    (drop (Z.to_nat (flat_index (bins g) pos
                                       (Z.to_nat (dims g)))) field) max) ∧
    length pos' = length pos ∧
    in_bins (bins g) pos' (dims g) ∧
    flat_index (bins g) pos' (Z.to_nat (dims g)) = 0.
Proof.
  intros Hs. pose proof (sound_dims g field Hs) as Hd.
  pose proof (sound_cells g field Hs) as Hc.
  pose proof (sound_fits g field Hs) as Hf.
  induction n as [|n IH]; intros fuel pos max Hlp Hv Hn Hfuel.
  - (* no cell left: the index would be outside the array *)
    assert (HvD : in_bins (bins g) pos (Z.of_nat (Z.to_nat (dims g)))).
    { intros d Hd'. apply Hv. lia. }
    pose proof (flat_index_bound (bins g) _ (sound_bins_D g field Hs) pos
                  (Z.to_nat (dims g)) HvD ltac:(lia)).
    lia.
  - destruct fuel as [|fuel]; [lia|]. simpl.
    assert (HvD : in_bins (bins g) pos (Z.of_nat (Z.to_nat (dims g)))).
    { intros d Hd'. apply Hv. lia. }
    pose proof (flat_index_bound (bins g) _ (sound_bins_D g field Hs) pos
                  (Z.to_nat (dims g)) HvD ltac:(lia)) as Hb.
    set (i := flat_index (bins g) pos (Z.to_nat (dims g))) in *.
    assert (Hget : get_pos field (dims g) (bins g) pos = Ok (elt field i)).
    { unfold get_pos. rewrite index_of_flat; try done.
      - simpl. apply rd_elt. lia.
      - apply (sound_bins_len g field Hs).
      - unfold LONG_MAX, INT_MAX in *. lia. }
    rewrite Hget. simpl.
    rewrite (drop_elt field (Z.to_nat i)) by lia.
    rewrite Z2Nat.id by lia. simpl. rewrite MAX_max.
    destruct (adv_pos_next g field pos Hs Hlp Hv)
      as (pos' & Hl' & Hv' & [(Hlt & Hadv & Hi') | (Heq & Hadv & Hi')]);
      rewrite Hadv; simpl.
    + destruct (IH fuel pos' (Z.max max (elt field i)))
        as (pos'' & Hrun & Hl'' & Hv'' & Hz); [lia | done | lia | lia |].
      exists pos''. rewrite Hrun, Hi'. fold i.
      replace (Z.to_nat (i + 1)) with (S (Z.to_nat i)) by lia.
      split; [done|]. split; [lia|]. split; done.
    + exists pos'.
      rewrite drop_ge by lia. simpl. split; [done|]. split; [done|]. split; done.
Qed.

(** ** The padding step and the start position of the second pass *)

Lemma fixup_seen_spec (g : globals) :
  dims g ≤ Z.of_nat (length (bins g)) →
  dims g ≤ Z.of_nat (length (min_bin_seen g)) →
  dims g ≤ Z.of_nat (length (max_bin_seen g)) →
  ∃ g', fixup_seen g = Ok g' ∧ same_config g g' ∧
    length (min_bin_seen g') = length (min_bin_seen g) ∧
    length (max_bin_seen g') = length (max_bin_seen g) ∧
    ∀ d, 0 ≤ d →
      elt (min_bin_seen g') d =
        (if d <? dims g then pad_min (elt (min_bin_seen g) d)
         else elt (min_bin_seen g) d) ∧
      elt (max_bin_seen g') d =
        (if d <? dims g
         then pad_max (elt (max_bin_seen g) d) (elt (bins g) d)
         else elt (max_bin_seen g) d).
Proof.
  intros Hb Hmn Hmx. unfold fixup_seen, for_upto.
  edestruct (for_loop_inv
    (λ i g', 0 ≤ i ∧ same_config g g' ∧
       length (min_bin_seen g') = length (min_bin_seen g) ∧
       length (max_bin_seen g') = length (max_bin_seen g) ∧
       ∀ d, 0 ≤ d →
         elt (min_bin_seen g') d =
           (if d <? i then pad_min (elt (min_bin_seen g) d)
            else elt (min_bin_seen g) d) ∧
         elt (max_bin_seen g') d =
           (if d <? i
            then pad_max (elt (max_bin_seen g) d) (elt (bins g) d)
            else elt (max_bin_seen g) d)))
    as (g' & Hg' & _ & Hc & Hl1 & Hl2 & Hd); [| |exists g'; split; [apply Hg'|]].
  - split; [lia|]. split; [apply same_config_refl|]. do 2 (split; [done|]).
    intros d Hd. destruct (Z.ltb_spec d 0); [lia|]. done.
  - intros i g1 Hi (Hi0 & Hc & Hl1 & Hl2 & Hd).
    destruct (same_config_fields g g1 Hc) as (_ & _ & _ & Hbins & _).
    rewrite Hbins.
    rewrite (rd_elt (min_bin_seen g1) i) by lia. simpl.
    rewrite (rd_elt (max_bin_seen g1) i) by lia.
    rewrite (rd_elt (bins g) i) by lia.
    rewrite !wr_in_bounds by lia.
    destruct (Hd i Hi0) as [Hmin Hmax].
    destruct (Z.ltb_spec i i); [lia|].
    set (mn := elt (min_bin_seen g1) i) in *.
    set (mx := elt (max_bin_seen g1) i) in *.
    set (b := elt (bins g) i) in *.
    set (a := if mn >? 0 then <[Z.to_nat i := int_wrap (mn - 1)]> (min_bin_seen g1)
              else min_bin_seen g1).
    set (c := if mx <? int_wrap (b - 1)
              then <[Z.to_nat i := int_wrap (mx + 1)]> (max_bin_seen g1)
              else max_bin_seen g1).
    exists (set_seen a c g1). split.
    { subst a c.
      destruct (mn >? 0); simpl; rewrite ?wr_in_bounds by lia;
        fold mx b; destruct (mx <? int_wrap (b - 1)); reflexivity. }
    split; [lia|]. split; [by apply same_config_set_seen|].
    assert (length a = length (min_bin_seen g) ∧
            length c = length (max_bin_seen g)) as [Hla Hlc].
    { subst a c. split.
      - destruct (mn >? 0); rewrite ?length_insert; done.
      - destruct (mx <? _); rewrite ?length_insert; done. }
    simpl. do 2 (split; [done|]).
    intros d Hd0. destruct (Hd d Hd0) as [Hdmin Hdmax].
    destruct (Z.eq_dec d i) as [->|Hne].
    + destruct (Z.ltb_spec i (i + 1)); [|lia]. subst a c.
      unfold pad_min, pad_max. rewrite <- Hmin, <- Hmax. fold mn mx b. split.
      * destruct (mn >? 0); [|done]. rewrite elt_insert_eq by lia. done.
      * destruct (mx <? int_wrap (b - 1)); [|done].
        rewrite elt_insert_eq by lia. done.
    + assert (elt a d = elt (min_bin_seen g1) d ∧
              elt c d = elt (max_bin_seen g1) d) as [-> ->].
      { subst a c. split.
        - destruct (mn >? 0); rewrite ?elt_insert_ne by lia; done.
        - destruct (mx <? _); rewrite ?elt_insert_ne by lia; done. }
      destruct (Z.ltb_spec d i), (Z.ltb_spec d (i + 1)); try lia; done.
  - replace (0 + Z.of_nat (Z.to_nat (dims g))) with (Z.max 0 (dims g)) in Hd by lia.
    split; [done|]. do 2 (split; [done|]).
    intros d Hd0. destruct (Hd d Hd0) as [H1 H2].
    destruct (Z.ltb_spec d (Z.max 0 (dims g))), (Z.ltb_spec d (dims g));
      try lia; done.
Qed.

(** Without boundary trimming the second pass starts at the origin. *)
Lemma start_pos_origin (g : globals) (pos : list Z) :
  omit_outer_zero g = false →
  dims g ≤ Z.of_nat (length pos) →
  ∃ pos', start_pos g pos = Ok pos' ∧ length pos' = length pos ∧
          ∀ d, 0 ≤ d < dims g → elt pos' d = 0.
Proof.
  intros Ho Hl. unfold start_pos. rewrite Ho. by apply reset_pos_spec.
Qed.

(** ** The second pass in a raw mode *)

Lemma raw_loop_spec (g : globals) (field : list Z) (count max : Z) :
  sound g field →
  raw8 g || raw16 g = true →
  ∀ (n fuel : nat) (pos : list Z),
  dims g ≤ Z.of_nat (length pos) →
  in_bins (bins g) pos (dims g) →
  Z.of_nat n = Z.of_nat (length field)
               - flat_index (bins g) pos (Z.to_nat (dims g)) →
  (n ≤ fuel)%nat →
  output_loop fuel g field count max pos
    = raw_samples (raw_sample g max)
        (drop (Z.to_nat (flat_index (bins g) pos (Z.to_nat (dims g)))) field).
Proof.
  intros Hs Hraw. pose proof (sound_dims g field Hs) as Hd.
  pose proof (sound_cells g field Hs) as Hc.
  pose proof (sound_fits g field Hs) as Hf.
  induction n as [|n IH]; intros fuel pos Hlp Hv Hn Hfuel.
  - assert (HvD : in_bins (bins g) pos (Z.of_nat (Z.to_nat (dims g)))).
    { intros d Hd'. apply Hv. lia. }
    pose proof (flat_index_bound (bins g) _ (sound_bins_D g field Hs) pos
                  (Z.to_nat (dims g)) HvD ltac:(lia)).
    lia.
  - destruct fuel as [|fuel]; [lia|]. simpl. rewrite Hraw.
    assert (HvD : in_bins (bins g) pos (Z.of_nat (Z.to_nat (dims g)))).
    { intros d Hd'. apply Hv. lia. }
    pose proof (flat_index_bound (bins g) _ (sound_bins_D g field Hs) pos
                  (Z.to_nat (dims g)) HvD ltac:(lia)) as Hb.
    set (i := flat_index (bins g) pos (Z.to_nat (dims g))) in *.
    assert (Hget : get_pos field (dims g) (bins g) pos = Ok (elt field i)).
    { unfold get_pos. rewrite index_of_flat; try done.
      - simpl. apply rd_elt. lia.
      - apply (sound_bins_len g field Hs).
      - unfold LONG_MAX, INT_MAX in *. lia. }
    rewrite Hget. simpl.
    rewrite (drop_elt field (Z.to_nat i)) by lia.
    rewrite Z2Nat.id by lia. simpl.
    destruct (raw_sample g max (elt field i)) as [s| |]; simpl; try reflexivity.
    destruct (adv_pos_next g field pos Hs Hlp Hv)
      as (pos' & Hl' & Hv' & [(Hlt & Hadv & Hi') | (Heq & Hadv & Hi')]);
      rewrite Hadv; simpl.
    + rewrite (IH fuel pos') by (done || lia). rewrite Hi'. fold i.
      replace (Z.to_nat (i + 1)) with (S (Z.to_nat i)) by lia. reflexivity.
    + rewrite drop_ge by lia. simpl. by rewrite app_nil_r.
Qed.

Lemma uint_of_double_range (w : Z) (x : float) (n : Z) :
  uint_of_double w x = Ok n → 0 ≤ n < 2 ^ w.
Proof.
  unfold uint_of_double. destruct (trunc_Z x) as [m|]; [|discriminate].
  destruct (Z.leb_spec 0 m); simpl; [|discriminate].
  destruct (Z.ltb_spec m (2 ^ w)); [|discriminate].
  intros H'. inv_Ok H'. lia.
Qed.

Lemma bytes16_htons (n : Z) :
  0 ≤ n < 2 ^ 16 → bytes16 (htons n) = [n / 256; n mod 256].
Proof.
  intros Hn. unfold bytes16, htons. change (2 ^ 16) with 65536 in Hn.
  assert (0 ≤ n / 256 < 256).
  { split; [apply Z.div_pos; lia | apply Z.div_lt_upper_bound; lia]. }
  f_equal; [|f_equal].
  - rewrite Z.add_comm, Z.mod_add by lia. apply Z.mod_small. lia.
  - rewrite Z.add_comm, Z.div_add by lia. rewrite Z.div_small by lia. lia.
Qed.

Lemma raw_sample_raw8 (g : globals) (max v : Z) :
  raw8 g = true → raw_sample g max v = sample8 max v.
Proof. intros H. unfold raw_sample. rewrite H. reflexivity. Qed.

Lemma raw_sample_raw16 (g : globals) (max v : Z) :
  raw8 g = false → raw16 g = true → raw_sample g max v = sample16 max v.
Proof.
  intros H8 H16. unfold raw_sample, sample16. rewrite H8, H16.
  destruct (uint_of_double 16 _) as [n| |] eqn:E; [|reflexivity..].
  unfold mbind, result_bind.
  rewrite bytes16_htons by (eapply uint_of_double_range; eauto). reflexivity.
Qed.

Lemma raw_samples_ext (f h : Z → result (list out_item)) (cells : list Z) :
  (∀ v, f v = h v) → raw_samples f cells = raw_samples h cells.
Proof.
  intros Hfh. induction cells as [|v cells IH]; simpl; [done|].
  rewrite Hfh, IH. reflexivity.
Qed.

(** ** import: what one tuple does to the array *)

Lemma Zsum_insert (l : list Z) (i : nat) (x y : Z) :
  l !! i = Some x → Zsum (<[i := y]> l) = Zsum l - x + y.
Proof.
  revert i. induction l as [|a l IH]; intros [|i] H; simpl in *; try done.
  - inv_Ok H. lia.
  - rewrite (IH i H). lia.
Qed.

Lemma Zsum_zeros (n : Z) : Zsum (zeros n) = 0.
Proof.
  unfold zeros. induction (Z.to_nat n) as [|k IH]; [done|].
  change (0 + Zsum (replicate k 0) = 0). lia.
Qed.

Lemma Zsum_nonneg (l : list Z) : Forall (λ c, 0 ≤ c) l → 0 ≤ Zsum l.
Proof. induction 1; simpl; lia. Qed.

Lemma Zsum_lookup_le (l : list Z) (i : nat) (x : Z) :
  Forall (λ c, 0 ≤ c) l → l !! i = Some x → x ≤ Zsum l.
Proof.
  intros Hl. revert i. induction Hl as [|a l Ha Hl IH]; intros [|i] H;
    simpl in *; try done.
  - inv_Ok H. pose proof (Zsum_nonneg l Hl). lia.
  - specialize (IH i H). lia.
Qed.

Lemma Zsum_pos_lookup (l : list Z) :
  0 < Zsum l → ∃ i x, l !! i = Some x ∧ 1 ≤ x.
Proof.
  induction l as [|a l IH]; simpl; [lia|]. intros H.
  destruct (Z_lt_le_dec 0 a).
  - exists 0%nat, a. split; [done|lia].
  - destruct IH as (i & x & Hi & Hx); [lia|]. exists (S i), x. done.
Qed.

Lemma update_seen_keeps (dims : Z) (pos : list Z) (g g' : globals) :
  update_seen dims pos g = Ok g' →
  same_config g g' ∧
  length (min_bin_seen g') = length (min_bin_seen g) ∧
  length (max_bin_seen g') = length (max_bin_seen g).
Proof.
  intros H. unfold update_seen, for_upto in H.
  apply (for_loop_keeps
           (λ g1, same_config g g1 ∧
                  length (min_bin_seen g1) = length (min_bin_seen g) ∧
                  length (max_bin_seen g1) = length (max_bin_seen g))) in H.
  - done.
  - split; [apply same_config_refl|done].
  - clear. intros i g1 g2 Hb (Hc & Hl1 & Hl2).
    inv_bind Hb. inv_bind Hb. inv_bind Hb. inv_bind Hb. inv_bind Hb.
    inv_Ok Hb. simpl. split; [by apply same_config_set_seen|].
    split.
    + destruct (a <? a0).
      * apply wr_Ok in Hbl1 as [_ ->]. by rewrite length_insert.
      * by inv_Ok Hbl1.
    + destruct (a >? a2).
      * apply wr_Ok in Hbl3 as [_ ->]. by rewrite length_insert.
      * by inv_Ok Hbl3.
Qed.

(** The accessors address the same cell: a [get_pos] followed by a
    [set_pos] at the same tuple replaces the cell that was read. *)
Lemma get_set_pos (g g' : globals) (field field' : list Z) (dims : Z)
    (size pos : list Z) (val value : Z) :
  get_pos field dims size pos = Ok val →
  set_pos g field value dims size pos = Ok (field', g') →
  ∃ i : nat, field !! i = Some val ∧ field' = <[i := value]> field ∧
    same_config g g' ∧
    length (min_bin_seen g') = length (min_bin_seen g) ∧
    length (max_bin_seen g') = length (max_bin_seen g).
Proof.
  unfold get_pos, set_pos. intros Hget Hset.
  inv_bind Hget. inv_bind Hset. rewrite Hgetl in Hsetl. inv_Ok Hsetl.
  inv_bind Hset. inv_bind Hset. inv_Ok Hset.
  apply rd_Ok in Hget as [_ Hget]. apply wr_Ok in Hsetl as [_ ->].
  exists (Z.to_nat a0). split; [done|]. split; [done|].
  by apply update_seen_keeps in Hsetl0.
Qed.

Lemma in_range_of_same_config (g g' : globals) (vals : list float) :
  same_config g g' → in_range_of g' vals = in_range_of g vals.
Proof. unfold same_config. intros ->. reflexivity. Qed.

(** What the loop body does with a full tuple. *)
Lemma import_tuple_spec (st st' : import_state) (vals : list float) :
  import_tuple st vals = Ok st' →
  same_config (ist_globals st) (ist_globals st') ∧
  length (min_bin_seen (ist_globals st'))
    = length (min_bin_seen (ist_globals st)) ∧
  length (max_bin_seen (ist_globals st'))
    = length (max_bin_seen (ist_globals st)) ∧
  ist_count st' = int_wrap (ist_count st + 1) ∧
  ((in_range_of (ist_globals st) vals = Ok true ∧
    ist_oor st' = ist_oor st ∧
    ∃ (i : nat) (c : Z),
      ist_field st !! i = Some c ∧
      ist_field st' = <[i := int_wrap (c + 1)]> (ist_field st))
   ∨
   (in_range_of (ist_globals st) vals = Ok false ∧
    ist_oor st' = int_wrap (ist_oor st + 1) ∧
    ist_field st' = ist_field st)).
Proof.
  unfold import_tuple. intros H. inv_bind H. destruct a.
  - inv_bind H. inv_bind H. inv_bind H. destruct a1 as [field g'].
    inv_Ok H. simpl.
    destruct (get_set_pos _ _ _ _ _ _ _ _ _ Hl1 Hl2)
      as (i & Hi & -> & Hc & Hl3 & Hl4).
    split; [done|]. split; [done|]. split; [done|]. split; [done|].
    left. split; [done|]. split; [done|]. by exists i, a0.
  - inv_Ok H. simpl. split; [apply same_config_refl|].
    split; [done|]. split; [done|]. split; [done|]. right. done.
Qed.

(** ** import: the whole input *)

Lemma tuples_read_bound (g : globals) (stdin : list line) :
  0 ≤ tuples_read g stdin ≤ Z.of_nat (length stdin).
Proof.
  induction stdin as [|[|vs] rest IH]; simpl; try lia.
  destruct (_ <? _); lia.
Qed.

Lemma accepted_same_config (g g' : globals) (stdin : list line) :
  same_config g g' → accepted g' stdin = accepted g stdin.
Proof.
  intros Hc. destruct (same_config_fields g g' Hc) as (_ & _ & _ & _ & Hd & _).
  induction stdin as [|[|vs] rest IH]; simpl; try done.
  rewrite Hd, IH, (in_range_of_same_config g g' vs Hc). reflexivity.
Qed.

Lemma tuples_read_same_config (g g' : globals) (stdin : list line) :
  same_config g g' → tuples_read g' stdin = tuples_read g stdin.
Proof.
  intros Hc. destruct (same_config_fields g g' Hc) as (_ & _ & _ & _ & Hd & _).
  induction stdin as [|[|vs] rest IH]; simpl; try done.
  rewrite Hd, IH. reflexivity.
Qed.

Lemma import_loop_spec (stdin : list line) :
  ∀ (st st' : import_state) (rest : list line),
  import_loop st stdin = Ok (st', rest) →
  counted st →
  ist_count st + Z.of_nat (length stdin) ≤ INT_MAX →
  counted st' ∧
  same_config (ist_globals st) (ist_globals st') ∧
  length (ist_field st') = length (ist_field st) ∧
  length (min_bin_seen (ist_globals st'))
    = length (min_bin_seen (ist_globals st)) ∧
  length (max_bin_seen (ist_globals st'))
    = length (max_bin_seen (ist_globals st)) ∧
  ist_count st' = ist_count st + tuples_read (ist_globals st) stdin ∧
  ist_count st' - ist_oor st'
    = ist_count st - ist_oor st + accepted (ist_globals st) stdin.
Proof.
  induction stdin as [|[|vs] stdin IH]; intros st st' rest Hrun Hinv Hroom;
    simpl in Hrun.
  - inv_Ok Hrun. simpl. split; [done|]. split; [apply same_config_refl|].
    repeat split; lia.
  - simpl in Hroom. destruct (IH st st' rest Hrun Hinv) as (? & ? & ? & ? & ? & ? & ?);
      [lia|]. simpl. done.
  - simpl. simpl in Hroom. destruct (Z.ltb_spec (Z.of_nat (length vs)) (dims (ist_globals st))).
    + inv_Ok Hrun. split; [done|]. split; [apply same_config_refl|].
      repeat split; lia.
    + inv_bind Hrun. rename a into st1.
      destruct Hinv as (Hnn & Hsum & Hoor).
      destruct (import_tuple_spec st st1 vs Hrunl)
        as (Hc & Hl1 & Hl2 & Hcnt & Hcase).
      rewrite int_wrap_small in Hcnt by (unfold INT_MIN, INT_MAX in *; lia).
      assert (Hstep : counted st1 ∧
                length (ist_field st1) = length (ist_field st) ∧
                ist_count st1 - ist_oor st1
                  = ist_count st - ist_oor st
                    + match in_range_of (ist_globals st) vs with
                      | Ok true => 1
                      | _ => 0
                      end).
      { destruct Hcase as [(Hin & Ho & i & c & Hi & Hf) | (Hin & Ho & Hf)];
          rewrite Hin.
        - pose proof (Zsum_lookup_le _ _ _ Hnn Hi).
          assert (0 ≤ c) by (eapply (Forall_lookup_1 _ _ _ _ Hnn); eauto).
          rewrite int_wrap_small in Hf by (unfold INT_MIN, INT_MAX in *; lia).
          split; [|split].
          + split; [|split].
            * rewrite Hf. apply Forall_insert; [done|lia].
            * rewrite Hf, (Zsum_insert _ _ _ _ Hi). lia.
            * lia.
          + rewrite Hf. apply length_insert.
          + lia.
        - rewrite int_wrap_small in Ho by (unfold INT_MIN, INT_MAX in *; lia).
          split; [|split].
          + split; [|split]; [by rewrite Hf | rewrite Hf; lia | lia].
          + by rewrite Hf.
          + lia. }
      destruct Hstep as (Hinv1 & Hlf & Hacc).
      destruct (IH st1 st' rest Hrun Hinv1) as (Hinv' & Hc' & Hlf' & Hl1' & Hl2' & Hcnt' & Hacc');
        [lia|].
      rewrite (tuples_read_same_config _ _ _ Hc) in Hcnt'.
      rewrite (accepted_same_config _ _ _ Hc) in Hacc'.
      split; [done|]. split; [by eapply same_config_trans|].
      repeat split; lia.
Qed.

(** ** C4: conservation *)

(** C4 fails on the code. Over three bins of [0, 1), the tuple of the
    largest double below 1 passes the range test and is counted as
    accepted, but its bin index is 3, the bin count: the cell that
    [set_pos] is to increment is [field[3]] of an array of three cells.
    No cell of the array is incremented, so that the cells, all 0, do not
    add up to the one accepted tuple. This is the defect of C3. *)
Theorem C4_accepted_tuple_misses_array :
  in_range_of (configured cmdline_thirds).1 [below_one] = Ok true
  ∧ accepted (configured cmdline_thirds).1 [Numbers [below_one]] = 1
  ∧ (bin_of (configured cmdline_thirds).1 [below_one] (zeros MAX_DIM)
     ≫= index_of 1 (bins (configured cmdline_thirds).1)) = Ok 3
  ∧ (configured cmdline_thirds).2 = [0; 0; 0]
  ∧ Zsum (configured cmdline_thirds).2 = 0
  ∧ get_pos (configured cmdline_thirds).2 1
      (bins (configured cmdline_thirds).1) [3] = Undef
  ∧ wr (configured cmdline_thirds).2 3 1 = Undef
  ∧ import (configured cmdline_thirds).1 (configured cmdline_thirds).2 0
      [Numbers [below_one]] = Undef.
Proof. vm_compute. repeat split; reflexivity. Qed.

(** ** C10: the maximum of the first pass *)

Lemma sound_same_config (g g' : globals) (field field' : list Z) :
  sound g field →
  same_config g g' →
  length field' = length field →
  length (min_bin_seen g') = length (min_bin_seen g) →
  length (max_bin_seen g') = length (max_bin_seen g) →
  sound g' field'.
Proof.
  intros [] Hc Hlf Hl1 Hl2.
  destruct (same_config_fields g g' Hc) as (_ & _ & _ & Hb & Hd & _).
  constructor; rewrite ?Hb, ?Hd, ?Hlf, ?Hl1, ?Hl2; done.
Qed.

Lemma fold_left_max_ge (l : list Z) :
  ∀ m, m ≤ fold_left Z.max l m ∧
       ∀ (i : nat) (x : Z), l !! i = Some x → x ≤ fold_left Z.max l m.
Proof.
  induction l as [|a l IH]; intros m; simpl.
  - split; [lia|]. intros i x H. done.
  - destruct (IH (Z.max m a)) as [H1 H2]. split; [lia|].
    intros [|i] x H; simpl in H.
    + inv_Ok H. lia.
    + eauto.
Qed.

(** On a sound array the first pass of a raw mode returns the largest
    cell (or 0 when every cell is negative). *)
Lemma first_pass_raw (g : globals) (field : list Z) (fuel : nat) :
  sound g field →
  raw8 g || raw16 g = true →
  (length field ≤ fuel)%nat →
  ∃ pos,
    first_pass fuel g field = Ok (pos, fold_left Z.max field 0) ∧
    length pos = Z.to_nat MAX_DIM.
Proof.
  intros Hs Hraw Hfuel. pose proof (sound_dims g field Hs) as Hd.
  unfold first_pass.
  destruct (reset_pos_spec (dims g) (zeros MAX_DIM))
    as (pos0 & Hreset & Hl0 & Hz0).
  { rewrite zeros_length. lia. }
  rewrite Hreset. simpl. rewrite Hraw.
  rewrite zeros_length in Hl0.
  assert (Hf0 : flat_index (bins g) pos0 (Z.to_nat (dims g)) = 0).
  { apply flat_index_zero. intros d Hd'. apply Hz0. lia. }
  destruct (max_loop_spec g field Hs (length field) fuel pos0 0)
    as (pos & Hrun & Hl & _); try (rewrite ?Hl0, ?Hf0; unfold MAX_DIM in *; lia).
  { intros d Hd'. rewrite Hz0 by done.
    pose proof (sound_bins g field Hs d Hd'). lia. }
  exists pos. rewrite Hrun, Hf0. simpl. split; [done|]. lia.
Qed.

(** C10 fails on the code. In a raw8 run over a 3 x 1 array, the tuple
    of the largest double below 1 and 0.5 is accepted, so [import] does
    not leave on the empty-result error; its bin indices are (3, 0) and
    its cell is [field[3]] of an array of three cells, outside the array.
    The first pass over the three cells, all still 0, ends with the
    maximum 0, and the sample of a cell is then 0 / 0. This is the defect
    of C3. *)
Theorem C10_raw_max_zero :
  (parseOptions initial_globals cmdline_raw8_thirds ≫= λ r, Ok r.1) = Ok 0
  ∧ raw8 (configured cmdline_raw8_thirds).1 = true
  ∧ in_range_of (configured cmdline_raw8_thirds).1 [below_one; 0.5%float]
    = Ok true
  ∧ accepted (configured cmdline_raw8_thirds).1 input_thirds_raw = 1
  ∧ (bin_of (configured cmdline_raw8_thirds).1 [below_one; 0.5%float]
       (zeros MAX_DIM)
     ≫= index_of 2 (bins (configured cmdline_raw8_thirds).1)) = Ok 3
  ∧ (configured cmdline_raw8_thirds).2 = [0; 0; 0]
  ∧ import (configured cmdline_raw8_thirds).1
      (configured cmdline_raw8_thirds).2 0 input_thirds_raw = Undef
  ∧ (first_pass 3 (configured cmdline_raw8_thirds).1 [0; 0; 0]
     ≫= λ r, Ok r.2) = Ok 0
  ∧ (double_of_int 0 / double_of_int 0 * 255 =? 
     double_of_int 0 / double_of_int 0 * 255)%float = false
  ∧ raw_sample (configured cmdline_raw8_thirds).1 0 0 = Undef
  ∧ output 3 (configured cmdline_raw8_thirds).1 [0; 0; 0] 1 = Undef.
Proof. vm_compute. repeat split; reflexivity. Qed.

(** ** What [parseOptions] accepts *)

Lemma option_loop_keeps (opts : list option_tok) :
  ∀ (g g' : globals) (dim : Z),
  option_loop g dim opts = Ok (Some g') →
  length (low g') = length (low g) ∧
  length (hi g') = length (hi g) ∧
  length (bins g') = length (bins g) ∧
  size g' = size g ∧
  min_bin_seen g' = min_bin_seen g ∧
  max_bin_seen g' = max_bin_seen g.
Proof.
  induction opts as [|o opts IH]; intros g g' dim H; simpl in H.
  - inv_Ok H. done.
  - destruct o.
    + destruct (option_index =? 0); [|destruct (option_index =? 1)];
        try discriminate; apply IH in H; simpl in H; done.
    + inv_bind H. apply wr_Ok in Hl as [_ ->]. apply IH in H. simpl in H.
      rewrite length_insert in H. done.
    + inv_bind H. apply wr_Ok in Hl as [_ ->]. apply IH in H. simpl in H.
      rewrite length_insert in H. done.
    + inv_bind H. apply wr_Ok in Hl as [_ ->]. apply IH in H. simpl in H.
      rewrite length_insert in H. done.
    + apply IH in H. simpl in H. done.
    + apply IH in H. simpl in H. done.
    + apply IH in H. simpl in H. done.
    + apply IH in H. simpl in H. done.
    + discriminate.
Qed.

Lemma range_loop_accepts (g : globals) (n : nat) :
  ∀ dim, 0 ≤ dim → range_loop n dim g = Ok 0 →
         ∀ d, dim ≤ d < dim + Z.of_nat n → range_ok g d.
Proof.
  induction n as [|n IH]; intros dim Hdim H d Hd; [lia|]. simpl in H.
  inv_bind H. inv_bind H. inv_bind H.
  destruct (a0 <=? a)%float eqn:Ef; [inv_Ok Hl1; discriminate|].
  inv_bind Hl1. inv_Ok Hl1.
  destruct (Z.ltb_spec a2 1); [discriminate|].
  destruct (Z.eq_dec d dim) as [->|Hne].
  - apply rd_Ok in Hl as [_ Hl]. apply rd_Ok in Hl0 as [_ Hl0].
    apply rd_Ok_elt in Hl1l as [-> Hl1].
    exists a, a0. repeat split; try done; lia.
  - apply (IH (dim + 1)); [lia | done | lia].
Qed.


Lemma sanity_checks_accepts (g : globals) (ops : nat) :
  sanity_checks g ops = Ok 0 →
  ops = 0%nat ∧
  1 ≤ dims g < MAX_DIM ∧
  (raw8 g || raw16 g = true → dims g = 2 ∧ relative g = true) ∧
  raw8 g && raw16 g = false ∧
  ∀ d, 0 ≤ d < dims g → range_ok g d.
Proof.
  unfold sanity_checks. intros H.
  destruct (Nat.eqb_spec ops 0); simpl in H; [|discriminate].
  destruct (Z.ltb_spec (dims g) 1); simpl in H; [discriminate|].
  destruct (Z.geb_spec (dims g) MAX_DIM); simpl in H; [discriminate|].
  destruct (raw8 g || raw16 g) eqn:Eraw; simpl in H.
  - destruct (Z.eqb_spec (dims g) 2); simpl in H; [|discriminate].
    destruct (relative g); simpl in H; [|discriminate].
    destruct (raw8 g && raw16 g); [discriminate|].
    repeat split; try done; try lia.
    intros d Hd. eapply range_loop_accepts; eauto; lia.
  - destruct (raw8 g), (raw16 g); try discriminate. simpl in H.
    repeat split; try done; try lia.
    intros d Hd. eapply range_loop_accepts; eauto; lia.
Qed.

(** ** What [main] sets up before [import] *)


Lemma same_options_fields (g g' : globals) :
  same_options g g' →
  low g' = low g ∧ hi g' = hi g ∧ bins g' = bins g ∧
  dims g' = dims g ∧ relative g' = relative g ∧
  omit_outer_zero g' = omit_outer_zero g ∧ raw8 g' = raw8 g ∧
  raw16 g' = raw16 g.
Proof. unfold same_options. intros ->. repeat split. Qed.

Lemma compute_sizes_spec (g : globals) :
  dims g ≤ Z.of_nat (length (low g)) →
  dims g ≤ Z.of_nat (length (hi g)) →
  dims g ≤ Z.of_nat (length (bins g)) →
  dims g ≤ Z.of_nat (length (size g)) →
  ∃ g', compute_sizes g = Ok g' ∧
    g' = set_size (size g') g ∧
    length (size g') = length (size g) ∧
    ∀ d, 0 ≤ d < dims g → size g' !! Z.to_nat d = bin_width g d.
Proof.
  intros Hl Hh Hb Hs. unfold compute_sizes, for_upto.
  edestruct (for_loop_inv
    (λ i g', 0 ≤ i ∧ g' = set_size (size g') g ∧
       length (size g') = length (size g) ∧
       ∀ d, 0 ≤ d < i → size g' !! Z.to_nat d = bin_width g d))
    as (g' & Hg' & _ & He & Hlen & Hd); [| |exists g'; split; [apply Hg'|]].
  - split; [lia|]. split; [by destruct g|]. split; [done|]. intros; lia.
  - intros i g1 Hi (Hi0 & He & Hlen & Hd).
    assert (low g1 = low g ∧ hi g1 = hi g ∧ bins g1 = bins g)
      as (El & Eh & Eb) by (rewrite He; done).
    rewrite El, Eh, Eb.
    destruct (rd_in_bounds (low g) i) as [l Hrl]; [lia|].
    destruct (rd_in_bounds (hi g) i) as [h Hrh]; [lia|].
    rewrite Hrh, Hrl, (rd_elt (bins g) i) by lia. simpl.
    rewrite wr_in_bounds by lia. simpl.
    eexists; split; [reflexivity|]. simpl.
    split; [lia|]. split; [by rewrite He|].
    split; [by rewrite length_insert|].
    intros d Hd'. destruct (Z.eq_dec d i) as [->|Hne].
    + rewrite list_lookup_insert_eq by lia.
      apply rd_Ok in Hrl as [_ Hrl]. apply rd_Ok in Hrh as [_ Hrh].
      unfold bin_width. rewrite Hrl, Hrh. reflexivity.
    + rewrite list_lookup_insert_ne by lia. apply Hd. lia.
  - split; [done|]. split; [done|]. intros d Hd'. apply Hd. lia.
Qed.

Lemma array_size_spec (g : globals) :
  0 ≤ dims g →
  dims g ≤ Z.of_nat (length (bins g)) →
  (∀ d, 0 ≤ d < dims g → 1 ≤ elt (bins g) d) →
  stride (bins g) (Z.to_nat (dims g)) ≤ INT_MAX →
  array_size g = Ok (stride (bins g) (Z.to_nat (dims g))).
Proof.
  intros Hd Hb Hpos Hfit. unfold array_size, for_upto.
  assert (HposD : ∀ d, 0 ≤ d < Z.of_nat (Z.to_nat (dims g)) →
                       1 ≤ elt (bins g) d) by (intros; apply Hpos; lia).
  edestruct (for_loop_inv
    (λ i temp, 0 ≤ i ≤ dims g ∧ temp = stride (bins g) (Z.to_nat i)))
    as (t & Ht & _ & ->); [| |rewrite Ht].
  - split; [lia|reflexivity].
  - intros i temp Hi (Hi0 & ->).
    rewrite (rd_elt (bins g) i) by lia. simpl.
    eexists; split; [reflexivity|]. split; [lia|].
    replace (Z.to_nat (i + 1)) with (S (Z.to_nat i)) by lia. simpl.
    rewrite Z2Nat.id by lia.
    pose proof (stride_mono (bins g) _ HposD (S (Z.to_nat i))
                  (Z.to_nat (dims g)) ltac:(lia) ltac:(lia)) as Hm.
    pose proof (stride_pos (bins g) _ HposD (S (Z.to_nat i)) ltac:(lia)) as Hp.
    simpl in Hm, Hp. rewrite Z2Nat.id in Hm, Hp by lia.
    apply int_wrap_small. unfold INT_MIN, INT_MAX in *. lia.
  - replace (Z.to_nat (0 + Z.of_nat (Z.to_nat (dims g))))
      with (Z.to_nat (dims g)) by lia. reflexivity.
Qed.

Lemma init_seen_spec (g : globals) :
  dims g ≤ Z.of_nat (length (min_bin_seen g)) →
  dims g ≤ Z.of_nat (length (max_bin_seen g)) →
  ∃ g', init_seen g = Ok g' ∧ same_config g g' ∧
    length (min_bin_seen g') = length (min_bin_seen g) ∧
    length (max_bin_seen g') = length (max_bin_seen g) ∧
    ∀ d, 0 ≤ d < dims g →
      elt (min_bin_seen g') d = INT_MAX ∧ elt (max_bin_seen g') d = -1.
Proof.
  intros Hmn Hmx. unfold init_seen, for_upto.
  edestruct (for_loop_inv
    (λ i g', 0 ≤ i ∧ same_config g g' ∧
       length (min_bin_seen g') = length (min_bin_seen g) ∧
       length (max_bin_seen g') = length (max_bin_seen g) ∧
       ∀ d, 0 ≤ d < i →
         elt (min_bin_seen g') d = INT_MAX ∧ elt (max_bin_seen g') d = -1))
    as (g' & Hg' & _ & Hc & Hl1 & Hl2 & Hd); [| |exists g'; split; [apply Hg'|]].
  - split; [lia|]. split; [apply same_config_refl|]. do 2 (split; [done|]).
    intros; lia.
  - intros i g1 Hi (Hi0 & Hc & Hl1 & Hl2 & Hd).
    rewrite !wr_in_bounds by lia. simpl.
    eexists; split; [reflexivity|]. simpl.
    split; [lia|]. split; [by apply same_config_set_seen|].
    rewrite !length_insert. do 2 (split; [done|]).
    intros d Hd'. destruct (Z.eq_dec d i) as [->|Hne].
    + rewrite !elt_insert_eq by lia. done.
    + rewrite !elt_insert_ne by lia. apply Hd. lia.
  - do 3 (split; [done|]). intros d Hd'. apply Hd. lia.
Qed.

Lemma parseOptions_accepts (cl : cmdline) (g : globals) :
  parseOptions initial_globals cl = Ok (0, g) →
  full_arrays g ∧
  operands cl = 0%nat ∧
  1 ≤ dims g < MAX_DIM ∧
  (raw8 g || raw16 g = true → dims g = 2 ∧ relative g = true) ∧
  raw8 g && raw16 g = false ∧
  ∀ d, 0 ≤ d < dims g → range_ok g d.
Proof.
  unfold parseOptions. intros H. inv_bind H.
  destruct a as [g'|]; [|discriminate]. inv_bind H. inv_Ok H.
  apply option_loop_keeps in Hl as (H1 & H2 & H3 & H4 & H5 & H6).
  split; [|by apply sanity_checks_accepts].
  constructor; rewrite ?H1, ?H2, ?H3, ?H4, ?H5, ?H6; reflexivity.
Qed.

(** For a command line that [parseOptions] accepts and an array size that
    an [int] holds, [main] reaches [import] with a sound, zeroed array,
    the bin widths computed and the occupied range at its sentinels. *)
Lemma setup_sound (cl : cmdline) (g : globals) :
  parseOptions initial_globals cl = Ok (0, g) →
  stride (bins g) (Z.to_nat (dims g)) ≤ INT_MAX →
  ∃ g',
    setup g = Ok (g', zeros (stride (bins g) (Z.to_nat (dims g)))) ∧
    same_options g g' ∧
    full_arrays g' ∧
    sound g' (zeros (stride (bins g) (Z.to_nat (dims g)))) ∧
    (∀ d, 0 ≤ d < dims g → size g' !! Z.to_nat d = bin_width g d) ∧
    (∀ d, 0 ≤ d < dims g →
       elt (min_bin_seen g') d = INT_MAX ∧ elt (max_bin_seen g') d = -1).
Proof.
  intros Hparse Hfit.
  destruct (parseOptions_accepts cl g Hparse) as ([] & _ & Hd & _ & _ & Hr).
  unfold MAX_DIM in *.
  assert (Hpos : ∀ d, 0 ≤ d < dims g → 1 ≤ elt (bins g) d).
  { intros d Hd'. destruct (Hr d Hd') as (_ & _ & _ & _ & _ & _ & H). done. }
  destruct (compute_sizes_spec g) as (g1 & Hg1 & He1 & Hl1 & Hsz); try lia.
  assert (bins g1 = bins g ∧ dims g1 = dims g ∧
          min_bin_seen g1 = min_bin_seen g ∧ max_bin_seen g1 = max_bin_seen g ∧
          low g1 = low g ∧ hi g1 = hi g)
    as (Eb & Ed & Emn & Emx & Elo & Ehi) by (rewrite He1; done).
  destruct (init_seen_spec g1) as (g2 & Hg2 & Hc2 & Hl2 & Hl3 & Hsent);
    [rewrite Ed, Emn; lia | rewrite Ed, Emx; lia |].
  destruct (same_config_fields g1 g2 Hc2)
    as (Elo2 & Ehi2 & Esz2 & Eb2 & Ed2 & _).
  exists g2. split.
  { unfold setup. rewrite Hg1. simpl.
    rewrite array_size_spec by (rewrite ?Eb, ?Ed; (lia || done)).
    simpl. rewrite Hg2. simpl. rewrite Eb, Ed. reflexivity. }
  split.
  { unfold same_options. unfold same_config in Hc2. rewrite Hc2 at 1.
    rewrite He1 at 1. rewrite Esz2. reflexivity. }
  split.
  { constructor; rewrite ?Elo2, ?Ehi2, ?Esz2, ?Eb2, ?Hl2, ?Hl3, ?Elo, ?Ehi,
      ?Eb, ?Emn, ?Emx, ?Hl1; done. }
  split.
  { constructor; rewrite ?Eb2, ?Ed2, ?Eb, ?Ed, ?Hl2, ?Hl3, ?Emn, ?Emx;
      try lia; try done.
    rewrite zeros_length.
    assert (HposD : ∀ d, 0 ≤ d < Z.of_nat (Z.to_nat (dims g)) →
                         1 ≤ elt (bins g) d) by (intros; apply Hpos; lia).
    pose proof (stride_pos (bins g) _ HposD (Z.to_nat (dims g)) ltac:(lia)).
    lia. }
  split.
  { intros d Hd'. rewrite Esz2. by apply Hsz. }
  { intros d Hd'. apply Hsent. rewrite Ed. done. }
Qed.

Lemma configured_sound (cl : cmdline) :
  parseOptions initial_globals cl = Ok (0, parsed cl) →
  stride (bins (parsed cl)) (Z.to_nat (dims (parsed cl))) ≤ INT_MAX →
  sound (configured cl).1 (configured cl).2.
Proof.
  intros Hp Hfit.
  destruct (setup_sound cl _ Hp Hfit) as (g2 & Hs2 & _ & _ & Hsound & _).
  unfold configured. rewrite Hs2. done.
Qed.

(** ** C1: the samples of a raw mode *)

(** C1, amended. In a raw mode without boundary trimming, over a sound
    array, the output holds one sample per cell, the cells taken by
    rising linear index (dimension 0 fastest); the sample of a cell is the
    double [(double)value / max * 255] (raw8) or [... * 65535] (raw16)
    with its fraction discarded, not rounded, written as one byte or as
    two bytes, the high one first; [max] is the largest cell, found by the
    first pass. *)
Theorem C1_raw_samples_truncate (g : globals) (field : list Z) (count : Z)
    (fuel : nat) :
  sound g field →
  raw8 g || raw16 g = true →
  omit_outer_zero g = false →
  (length field ≤ fuel)%nat →
  let max := fold_left Z.max field 0 in
  output fuel g field count
    = raw_samples (if raw8 g then sample8 max else sample16 max) field.
Proof.
  intros Hs Hraw Homit Hfuel max. pose proof (sound_dims g field Hs) as Hd.
  unfold output.
  destruct (first_pass_raw g field fuel Hs Hraw Hfuel) as (pos & Hfp & Hlp).
  rewrite Hfp. simpl. fold max.
  destruct (fixup_seen_spec g) as (g' & Hfix & Hc & Hl1 & Hl2 & _);
    [apply (sound_bins_len g field Hs) | apply (sound_min_len g field Hs)
     | apply (sound_max_len g field Hs) |].
  rewrite Hfix. simpl.
  destruct (same_config_fields g g' Hc)
    as (_ & _ & _ & Eb & Ed & _ & Eo & E8 & E16).
  destruct (start_pos_origin g' pos) as (pos' & Hstart & Hlp' & Hz);
    [by rewrite Eo | rewrite Ed, Hlp; unfold MAX_DIM in *; lia |].
  rewrite Hstart. simpl.
  assert (Hs' : sound g' field) by (eapply sound_same_config; eauto).
  assert (Hf0 : flat_index (bins g') pos' (Z.to_nat (dims g')) = 0).
  { apply flat_index_zero. intros d Hd'. apply Hz. lia. }
  rewrite (raw_loop_spec g' field count max Hs' ltac:(by rewrite E8, E16)
             (length field) fuel pos').
  - rewrite Hf0. simpl. apply raw_samples_ext. intros v.
    destruct (raw8 g) eqn:H8.
    + apply raw_sample_raw8. by rewrite E8.
    + apply raw_sample_raw16; [by rewrite E8 | rewrite E16].
      by destruct (raw16 g).
  - rewrite Hlp', Hlp, Ed. unfold MAX_DIM in *. lia.
  - intros d Hd'. rewrite Hz by done.
    pose proof (sound_bins g' field Hs' d Hd'). lia.
  - rewrite Hf0. lia.
  - done.
Qed.

Lemma C1_raw_samples_truncate_witness :
  output 4 (imported cmdline_raw8 input_raw).1.1 [1; 4; 0; 0] 5
    = raw_samples (sample8 4) [1; 4; 0; 0].
Proof.
  apply (C1_raw_samples_truncate (imported cmdline_raw8 input_raw).1.1
           [1; 4; 0; 0] 5 4).
  - apply (sound_same_config (configured cmdline_raw8).1 _
             (configured cmdline_raw8).2).
    + apply (configured_sound cmdline_raw8); vm_compute;
        [reflexivity|congruence].
    + vm_compute; reflexivity.
    + vm_compute; reflexivity.
    + vm_compute; reflexivity.
    + vm_compute; reflexivity.
  - vm_compute; reflexivity.
  - vm_compute; reflexivity.
  - vm_compute; lia.
Defined.

(** C1 as stated fails: the cell holding 1 of a run whose largest cell
    holds 4 is written as 63, the double 63.75 cut off, where rounding
    gives 64. *)
Lemma C1_rounding_counterexample :
  (imported cmdline_raw8 input_raw).1.2 = [1; 4; 0; 0]
  ∧ main 4 cmdline_raw8 input_raw
      = Ok (0, [OutByte 63; OutByte 255; OutByte 0; OutByte 0], [])
  ∧ claimed_raw8 (imported cmdline_raw8 input_raw).1.2
      = [OutByte 64; OutByte 255; OutByte 0; OutByte 0].
Proof. vm_compute. repeat split; reflexivity. Qed.

(** ** C2: configuration errors *)





(** ** C6: the spacer lines of text mode *)

Lemma overflows_spec (g : globals) (dim p : Z) :
  0 ≤ dim < Z.of_nat (length (bins g)) →
  0 ≤ dim < Z.of_nat (length (max_bin_seen g)) →
  overflows g dim p
    = Ok ((p >=? elt (bins g) dim)
          || omit_outer_zero g && (p >? elt (max_bin_seen g) dim)).
Proof.
  intros Hb Hm. unfold overflows. rewrite (rd_elt (bins g)) by done. simpl.
  destruct (p >=? _); [done|].
  destruct (omit_outer_zero g); [|done].
  rewrite (rd_elt (max_bin_seen g)) by done. reflexivity.
Qed.

(** Below the last dimension the update loop prints nothing. *)
Lemma text_adv_loop_lower (g : globals) (n : nat) :
  ∀ (pos : list Z) (out : list out_item),
  1 ≤ dims g < MAX_DIM →
  Z.of_nat n ≤ dims g - 1 →
  dims g ≤ Z.of_nat (length pos) →
  dims g ≤ Z.of_nat (length (bins g)) →
  dims g ≤ Z.of_nat (length (min_bin_seen g)) →
  dims g ≤ Z.of_nat (length (max_bin_seen g)) →
  (∀ d, 0 ≤ d < Z.of_nat n → INT_MIN ≤ elt pos d < INT_MAX) →
  ∃ pos' dim,
    text_adv_loop n g pos out = Ok (pos', out, dim) ∧ -1 ≤ dim < Z.of_nat n.
Proof.
  induction n as [|n IH]; intros pos out Hd Hn Hlp Hlb Hmn Hmx Hint.
  - exists pos, (-1). simpl. split; [done|lia].
  - simpl. rewrite (rd_elt pos) by lia. simpl.
    rewrite wr_in_bounds by lia. simpl.
    rewrite overflows_spec by lia. simpl.
    destruct (_ || _).
    + assert (∃ pos2,
        (if omit_outer_zero g
         then m ← rd (min_bin_seen g) (Z.of_nat n);
              wr (<[Z.to_nat (Z.of_nat n) := int_wrap (elt pos (Z.of_nat n) + 1)]>
                    pos) (Z.of_nat n) m
         else wr (<[Z.to_nat (Z.of_nat n) := int_wrap (elt pos (Z.of_nat n) + 1)]>
                    pos) (Z.of_nat n) 0) = Ok pos2 ∧
        length pos2 = length pos ∧
        ∀ d, 0 ≤ d < Z.of_nat n → elt pos2 d = elt pos d)
        as (pos2 & -> & Hl2 & He2).
      { destruct (omit_outer_zero g).
        - rewrite (rd_elt (min_bin_seen g)) by lia. simpl.
          rewrite wr_in_bounds by (rewrite length_insert; lia).
          eexists; split; [reflexivity|]. rewrite !length_insert.
          split; [done|]. intros d Hd'. rewrite !elt_insert_ne by lia. done.
        - rewrite wr_in_bounds by (rewrite length_insert; lia).
          eexists; split; [reflexivity|]. rewrite !length_insert.
          split; [done|]. intros d Hd'. rewrite !elt_insert_ne by lia. done. }
      simpl.
      rewrite int_wrap_small by (unfold INT_MIN, INT_MAX, MAX_DIM in *; lia).
      destruct (Z.eqb_spec (Z.of_nat n) (dims g - 1)); [lia|].
      destruct (IH pos2 out) as (pos' & dim & Hrun & Hdim); try lia; try done.
      { intros d Hd'. rewrite He2 by lia. apply Hint. lia. }
      exists pos', dim. split; [done|lia].
    + eexists _, (Z.of_nat n). split; [reflexivity|lia].
Qed.

(** C6, amended. In text mode the update of the position prints one
    spacer line exactly when the index of the last dimension
    ([dims - 1], the one that moves fastest) overflows and is reset;
    this is dimension 0 only when there is a single dimension. *)
Theorem C6_spacer_on_last_dimension (g : globals) (pos : list Z) :
  1 ≤ dims g < MAX_DIM →
  dims g ≤ Z.of_nat (length pos) →
  dims g ≤ Z.of_nat (length (bins g)) →
  dims g ≤ Z.of_nat (length (min_bin_seen g)) →
  dims g ≤ Z.of_nat (length (max_bin_seen g)) →
  (∀ d, 0 ≤ d < dims g → INT_MIN ≤ elt pos d < INT_MAX) →
  ∃ pos' spacer dim,
    text_advance g pos = Ok (pos', spacer, dim) ∧
    (wraps g pos (dims g - 1) → spacer = [OutNewline]) ∧
    (¬ wraps g pos (dims g - 1) → spacer = [] ∧ dim = dims g - 1).
Proof.
  intros Hd Hlp Hlb Hmn Hmx Hint. unfold text_advance.
  destruct (Z.to_nat (dims g)) as [|n] eqn:En; [lia|].
  assert (Hn : Z.of_nat n = dims g - 1) by lia.
  simpl. rewrite Hn.
  rewrite (rd_elt pos) by lia. simpl.
  rewrite wr_in_bounds by lia. simpl.
  rewrite overflows_spec by lia. simpl.
  rewrite (int_wrap_small (elt pos _ + 1))
    by (specialize (Hint (dims g - 1)); unfold INT_MIN, INT_MAX in *; lia).
  rewrite (int_wrap_small (dims g - 1))
    by (unfold INT_MIN, INT_MAX, MAX_DIM in *; lia).
  rewrite Z.eqb_refl.
  set (L := dims g - 1) in *.
  assert (Hw : (elt pos L + 1 >=? elt (bins g) L)
               || omit_outer_zero g && (elt pos L + 1 >? elt (max_bin_seen g) L)
               = true ↔ wraps g pos L).
  { unfold wraps. rewrite orb_true_iff, andb_true_iff.
    destruct (Z.geb_spec (elt pos L + 1) (elt (bins g) L)),
             (Z.gtb_spec (elt pos L + 1) (elt (max_bin_seen g) L));
      split; intros [?|[? ?]]; try lia; auto; try discriminate. }
  destruct (_ || _) eqn:Ew.
  - assert (∃ pos2,
      (if omit_outer_zero g
       then m ← rd (min_bin_seen g) L;
            wr (<[Z.to_nat L := elt pos L + 1]> pos) L m
       else wr (<[Z.to_nat L := elt pos L + 1]> pos) L 0) = Ok pos2 ∧
      length pos2 = length pos ∧
      ∀ d, 0 ≤ d < L → elt pos2 d = elt pos d)
      as (pos2 & -> & Hl2 & He2).
    { destruct (omit_outer_zero g).
      - rewrite (rd_elt (min_bin_seen g)) by lia. simpl.
        rewrite wr_in_bounds by (rewrite length_insert; lia).
        eexists; split; [reflexivity|]. rewrite !length_insert.
        split; [done|]. intros d Hd'. rewrite !elt_insert_ne by lia. done.
      - rewrite wr_in_bounds by (rewrite length_insert; lia).
        eexists; split; [reflexivity|]. rewrite !length_insert.
        split; [done|]. intros d Hd'. rewrite !elt_insert_ne by lia. done. }
    simpl.
    destruct (text_adv_loop_lower g n pos2 [OutNewline])
      as (pos' & dim & Hrun & _); try lia; try done.
    { intros d Hd'. rewrite He2 by lia. apply Hint. lia. }
    exists pos', [OutNewline], dim. split; [done|]. split; [done|].
    intros Hnot. exfalso. apply Hnot, Hw. done.
  - eexists _, [], L. split; [reflexivity|]. split; [|done].
    intros Hyes. apply Hw in Hyes. discriminate.
Qed.

Lemma C6_spacer_on_last_dimension_witness :
  ∃ pos' spacer dim,
    text_advance (configured cmdline_3d).1 [0; 0; 1] = Ok (pos', spacer, dim) ∧
    (wraps (configured cmdline_3d).1 [0; 0; 1] (3 - 1) →
     spacer = [OutNewline]) ∧
    (¬ wraps (configured cmdline_3d).1 [0; 0; 1] (3 - 1) →
     spacer = [] ∧ dim = 3 - 1).
Proof.
  apply (C6_spacer_on_last_dimension (configured cmdline_3d).1 [0; 0; 1]).
  - vm_compute. split; congruence.
  - vm_compute; congruence.
  - vm_compute; congruence.
  - vm_compute; congruence.
  - vm_compute; congruence.
  - intros d Hd. change (dims (configured cmdline_3d).1) with 3 in Hd.
    assert (d = 0 ∨ d = 1 ∨ d = 2) as [-> | [-> | ->]] by lia;
      vm_compute; split; congruence.
Defined.

(** C6 as stated fails from three dimensions on: with 1, 2 and 2 bins a
    spacer follows the second line, where the update loop leaves at
    dimension 1 and the index of dimension 0 has not moved. *)
Lemma C6_spacer_counterexample :
  text_advance (configured cmdline_3d).1 [0; 0; 1]
    = Ok ([0; 1; 0], [OutNewline], 1)
  ∧ main 4 cmdline_3d input_3d
      = Ok (0, [OutMid 1; OutMid 0.5; OutMid 0.5; OutCount 1;
                OutMid 1; OutMid 0.5; OutMid 1.5; OutCount 0;
                OutNewline;
                OutMid 1; OutMid 1.5; OutMid 0.5; OutCount 0;
                OutMid 1; OutMid 1.5; OutMid 1.5; OutCount 0;
                OutNewline]%float, []).
Proof. vm_compute. split; reflexivity. Qed.

(** ** C9: the padding step *)

(** C9. The padding step, run once by [output] before it prints, lowers
    [min_bin_seen[d]] by 1 exactly when it is above 0 and raises
    [max_bin_seen[d]] by 1 exactly when it is below [bins[d] - 1], in
    every dimension whose range holds a bin. With ten bins and bin 7 alone
    occupied the window becomes [6, 8], and the trimmed output is bins 6,
    7 and 8. *)
Theorem C9_padding_step :
  (∀ g : globals,
     dims g ≤ Z.of_nat (length (bins g)) →
     dims g ≤ Z.of_nat (length (min_bin_seen g)) →
     dims g ≤ Z.of_nat (length (max_bin_seen g)) →
     ∃ g', fixup_seen g = Ok g' ∧ same_config g g' ∧
       ∀ d, 0 ≤ d < dims g →
         0 ≤ elt (min_bin_seen g) d ≤ elt (max_bin_seen g) d →
         elt (max_bin_seen g) d ≤ INT_MAX →
         1 ≤ elt (bins g) d ≤ INT_MAX →
         elt (min_bin_seen g') d
           = (if 0 <? elt (min_bin_seen g) d
              then elt (min_bin_seen g) d - 1
              else elt (min_bin_seen g) d) ∧
         elt (max_bin_seen g') d
           = (if elt (max_bin_seen g) d <? elt (bins g) d - 1
              then elt (max_bin_seen g) d + 1
              else elt (max_bin_seen g) d))
  ∧ (elt (min_bin_seen (imported cmdline_trim input_bin7).1.1) 0 = 7
     ∧ elt (max_bin_seen (imported cmdline_trim input_bin7).1.1) 0 = 7)
  ∧ padded_window (imported cmdline_trim input_bin7).1.1 = Ok (6, 8)
  ∧ main 3 cmdline_trim input_bin7
      = Ok (0, [OutMid 6.5; OutCount 0; OutMid 7.5; OutCount 1;
                OutMid 8.5; OutCount 0; OutNewline]%float, []).
Proof.
  split; [|vm_compute; repeat split; reflexivity].
  intros g Hb Hmn Hmx.
  destruct (fixup_seen_spec g Hb Hmn Hmx) as (g' & Hfix & Hc & _ & _ & Hd).
  exists g'. split; [done|]. split; [done|].
  intros d Hd' Hocc Hmax Hbins.
  destruct (Hd d ltac:(lia)) as [-> ->].
  destruct (Z.ltb_spec d (dims g)); [|lia].
  unfold pad_min, pad_max.
  rewrite (int_wrap_small (elt (bins g) d - 1))
    by (unfold INT_MIN, INT_MAX in *; lia).
  split.
  - destruct (Z.gtb_spec (elt (min_bin_seen g) d) 0),
             (Z.ltb_spec 0 (elt (min_bin_seen g) d)); try lia.
    apply int_wrap_small. unfold INT_MIN, INT_MAX in *. lia.
  - destruct (Z.ltb_spec (elt (max_bin_seen g) d) (elt (bins g) d - 1));
      [|done].
    apply int_wrap_small. unfold INT_MIN, INT_MAX in *. lia.
Qed.

Lemma C9_padding_step_witness :
  ∃ g', fixup_seen (imported cmdline_trim input_bin7).1.1 = Ok g' ∧
    elt (min_bin_seen g') 0 = 7 - 1 ∧ elt (max_bin_seen g') 0 = 7 + 1.
Proof.
  destruct (proj1 C9_padding_step (imported cmdline_trim input_bin7).1.1)
    as (g' & Hfix & _ & Hd).
  - vm_compute; congruence.
  - vm_compute; congruence.
  - vm_compute; congruence.
  - exists g'. split; [done|].
    destruct (Hd 0) as [H1 H2]; [vm_compute; intuition congruence..|].
    rewrite H1, H2. vm_compute. split; reflexivity.
Defined.

(** ** C3: the bin index of an accepted tuple *)

(** C3 fails on the code. The double just below the upper bound 1 passes
    the range test, but its quotient by the bin width [1.0 / 3] rounds to
    3.0, so its bin index is 3, the bin count. With one dimension
    [get_pos] then reads past the three cells of the array; with a second
    dimension the tuple (below_one, 0.25) is counted in the cell of the
    tuple (0, 1), whose midpoints are 1/6 and 0.75. *)
Theorem C3_bin_index_reaches_bin_count :
  in_range_of (configured cmdline_thirds).1 [below_one] = Ok true
  ∧ (below_one <? 1)%float = true
  ∧ size (configured cmdline_thirds).1 !! 0%nat = Some (1 / 3)%float
  ∧ ((below_one - 0) / (1 / 3))%float = 3%float
  ∧ elt (bins (configured cmdline_thirds).1) 0 = 3
  ∧ bin_index (configured cmdline_thirds).1 [below_one] 0 = Ok 3
  ∧ (configured cmdline_thirds).2 = [0; 0; 0]
  ∧ get_pos [0; 0; 0] 1 [3] [3] = Undef
  ∧ main 3 cmdline_thirds [Numbers [below_one]] = Undef
  ∧ main 6 cmdline_thirds_2d [Numbers [below_one; 0.25%float]]
      = Ok (0, [OutMid 0x1.5555555555555p-3; OutMid 0.25; OutCount 0;
                OutMid 0x1.5555555555555p-3; OutMid 0.75; OutCount 1;
                OutNewline;
                OutMid 0.5; OutMid 0.25; OutCount 0;
                OutMid 0.5; OutMid 0.75; OutCount 0;
                OutNewline;
                OutMid 0x1.aaaaaaaaaaaabp-1; OutMid 0.25; OutCount 0;
                OutMid 0x1.aaaaaaaaaaaabp-1; OutMid 0.75; OutCount 0;
                OutNewline]%float, []).
Proof. vm_compute. repeat split; reflexivity. Qed.

(** What does hold of the range test: it is the half-open test
    [low <= v < hi] in every dimension, and a coordinate equal to the
    upper bound is rejected. *)
Lemma in_range_of_spec (g : globals) (vals : list float) (b : bool) :
  in_range_of g vals = Ok b →
  (b = true ↔ ∀ d, 0 ≤ d < dims g → coordinate_in_range g vals d).
Proof.
  intros H. unfold in_range_of, for_upto in H.
  apply (for_loop_ok_inv
           (λ i b, b = true ↔ ∀ d, 0 ≤ d < i → coordinate_in_range g vals d))
    in H.
  - rewrite H. split; intros Hall d Hd; apply Hall; lia.
  - split; [intros; lia|done].
  - clear. intros i b b' Hi Hb HP.
    inv_bind Hb. apply rd_Ok in Hbl as [_ Hv]. destruct b.
    + inv_bind Hb. apply rd_Ok in Hbl as [_ Hl].
      destruct (a0 <=? a)%float eqn:Ele.
      * inv_bind Hb. apply rd_Ok in Hbl as [_ Hh]. inv_Ok Hb. split.
        -- intros Hlt d Hd. destruct (Z.eq_dec d i) as [->|].
           ++ by exists a, a0, a1.
           ++ apply HP; [done|lia].
        -- intros Hall.
           destruct (Hall i) as (v & l & h & Hv' & Hl' & Hh' & Hle & Hlt);
             [lia|].
           congruence.
      * inv_Ok Hb. split; [done|]. intros Hall.
        destruct (Hall i) as (v & l & h & Hv' & Hl' & Hh' & Hle & Hlt); [lia|].
        congruence.
    + inv_Ok Hb. split; [done|]. intros Hall. apply HP.
      intros d Hd. apply Hall. lia.
Qed.

Lemma float_ltb_irrefl (x : float) : (x <? x)%float = false.
Proof.
  rewrite FloatAxioms.ltb_spec. unfold SFltb, SFcompare.
  destruct (Prim2SF x) as [s|s| |s m e]; try done.
  - by destruct s.
  - rewrite Z.compare_refl.
    change (PosDef.Pos.compare_cont Eq m m) with (Pos.compare m m).
    rewrite Pos.compare_refl. by destruct s.
Qed.

Lemma upper_bound_rejected (g : globals) (vals : list float) (b : bool)
    (d : Z) (h : float) :
  in_range_of g vals = Ok b →
  0 ≤ d < dims g →
  vals !! Z.to_nat d = Some h →
  hi g !! Z.to_nat d = Some h →
  b = false.
Proof.
  intros H Hd Hv Hh. destruct b; [|done].
  destruct (proj1 (in_range_of_spec g vals true H) eq_refl d Hd)
    as (v' & l' & h' & Hv' & _ & Hh' & _ & Hlt).
  rewrite Hv in Hv'. rewrite Hh in Hh'. inv_Ok Hv'. inv_Ok Hh'.
  by rewrite float_ltb_irrefl in Hlt.
Qed.

(** ** C5: a line of text mode *)

Lemma fold_left_snoc_map {A B} (f : A → B) (l : list A) (acc : list B) :
  fold_left (λ out i, out ++ [f i]) l acc = acc ++ (f <$> l).
Proof.
  revert acc. induction l as [|a l IH]; intros acc; simpl.
  - by rewrite app_nil_r.
  - rewrite IH, <- app_assoc. reflexivity.
Qed.

Lemma rd_flt (a : list float) (i : Z) :
  0 ≤ i < Z.of_nat (length a) → rd a i = Ok (flt a i).
Proof.
  intros H. destruct (rd_in_bounds a i H) as [x Hx]. rewrite Hx.
  apply rd_Ok in Hx as [_ Hx]. unfold flt. rewrite Hx. reflexivity.
Qed.



Lemma tuples_read_dims (g g' : globals) (stdin : list line) :
  dims g' = dims g → tuples_read g' stdin = tuples_read g stdin.
Proof.
  intros Hd. induction stdin as [|[|vs] rest IH]; simpl; try done.
  rewrite Hd, IH. reflexivity.
Qed.








(** ** When [import] runs without undefined behaviour *)

Lemma binnable_same_config (g g' : globals) (vals : list float) :
  same_config g g' → binnable g vals → binnable g' vals.
Proof. unfold same_config. intros ->. done. Qed.

Lemma in_range_of_total (g : globals) (vals : list float) :
  full_arrays g → dims g < MAX_DIM →
  dims g ≤ Z.of_nat (length vals) →
  ∃ b, in_range_of g vals = Ok b.
Proof.
  intros [] Hd Hv. unfold MAX_DIM in *. unfold in_range_of, for_upto.
  edestruct (for_loop_inv (λ (i : Z) (b : bool), True))
    as (b & Hb & _); [done| |by exists b].
  intros i b Hi _.
  destruct (rd_in_bounds vals i) as [v ->]; [lia|].
  destruct (rd_in_bounds (low g) i) as [l Hl]; [lia|].
  destruct (rd_in_bounds (hi g) i) as [h Hh]; [lia|].
  simpl. destruct b; [|eauto]. rewrite Hl. simpl.
  destruct (l <=? v)%float; [|eauto]. rewrite Hh. simpl. eauto.
Qed.

Lemma import_tuple_total (st : import_state) (vals : list float) :
  full_arrays (ist_globals st) →
  sound (ist_globals st) (ist_field st) →
  dims (ist_globals st) ≤ Z.of_nat (length (ist_pos st)) →
  dims (ist_globals st) ≤ Z.of_nat (length vals) →
  binnable (ist_globals st) vals →
  ∃ st', import_tuple st vals = Ok st' ∧
         length (ist_field st') = length (ist_field st) ∧
         length (ist_pos st') = length (ist_pos st).
Proof.
  intros Hfull Hs Hlp Hlv Hbin. pose proof (sound_dims _ _ Hs) as Hd.
  unfold import_tuple.
  destruct (in_range_of_total _ vals Hfull ltac:(lia) Hlv) as [b Hb].
  rewrite Hb. simpl. destruct b; [|eexists; split; [reflexivity|done]].
  destruct (Hbin Hb (ist_pos st) Hlp) as (pos' & Hpos' & Hl' & Hv').
  rewrite Hpos'. simpl.
  pose proof (sound_cells _ _ Hs). pose proof (sound_fits _ _ Hs).
  destruct (accessors_in_bins (ist_globals st) (ist_field st)
              (int_wrap (elt (ist_field st)
                 (flat_index (bins (ist_globals st)) pos'
                    (Z.to_nat (dims (ist_globals st)))) + 1))
              (dims (ist_globals st)) (bins (ist_globals st)) pos')
    as (_ & Hget & g' & Hset);
    [lia | apply (sound_bins_len _ _ Hs) | apply (sound_min_len _ _ Hs)
     | apply (sound_max_len _ _ Hs) | done | lia
     | unfold LONG_MAX, INT_MAX in *; lia |].
  rewrite Hget. simpl. rewrite Hset. simpl.
  eexists; split; [reflexivity|]. simpl. rewrite length_insert. split; [done|lia].
Qed.

Lemma full_arrays_same_config (g g' : globals) :
  full_arrays g →
  same_config g g' →
  length (min_bin_seen g') = length (min_bin_seen g) →
  length (max_bin_seen g') = length (max_bin_seen g) →
  full_arrays g'.
Proof.
  intros [] Hc Hl1 Hl2.
  destruct (same_config_fields g g' Hc) as (El & Eh & Es & Eb & _).
  constructor; rewrite ?El, ?Eh, ?Es, ?Eb, ?Hl1, ?Hl2; done.
Qed.

(** The reading loop runs to its end, with every access inside its
    array, on an input whose accepted tuples get bin indices within the
    bin counts. *)
Lemma import_loop_total (stdin : list line) :
  ∀ st : import_state,
  full_arrays (ist_globals st) →
  sound (ist_globals st) (ist_field st) →
  dims (ist_globals st) ≤ Z.of_nat (length (ist_pos st)) →
  Forall (line_binnable (ist_globals st)) stdin →
  ∃ st' rest, import_loop st stdin = Ok (st', rest).
Proof.
  induction stdin as [|[|vs] stdin IH]; intros st Hfull Hs Hlp Hall; simpl.
  - eauto.
  - apply IH; try done. by inversion Hall.
  - destruct (Z.ltb_spec (Z.of_nat (length vs)) (dims (ist_globals st)));
      [eauto|].
    inversion Hall as [|? ? Hvs Hrest]; subst.
    destruct (import_tuple_total st vs) as (st1 & Hst1 & Hlf & Hlp1);
      try done.
    rewrite Hst1. simpl.
    destruct (import_tuple_spec st st1 vs Hst1) as (Hc & Hl1 & Hl2 & _).
    destruct (same_config_fields _ _ Hc) as (_ & _ & _ & _ & Ed & _).
    apply IH.
    + by eapply full_arrays_same_config.
    + by eapply sound_same_config.
    + rewrite Ed, Hlp1. done.
    + revert Hrest. apply Forall_impl.
      intros [|vs']; simpl; [done|]. by apply binnable_same_config.
Qed.

(** * Further properties of the code *)

(** ** parseOptions: what is accepted, what is refused, what overruns *)

(** X1. A command line that [parseOptions] accepts (it returns 0) has no
    operand left, between 1 and [MAX_DIM - 1] dimensions, in every
    dimension bounds that are not [low >= hi] and at least one bin, never
    raw8 with raw16, and a raw mode only with two dimensions and relative
    mode. *)
Theorem parseOptions_zero_is_valid (cl : cmdline) (g : globals) :
  parseOptions initial_globals cl = Ok (0, g) →
  operands cl = 0%nat ∧
  1 ≤ dims g < MAX_DIM ∧
  (raw8 g || raw16 g = true → dims g = 2 ∧ relative g = true) ∧
  raw8 g && raw16 g = false ∧
  ∀ d, 0 ≤ d < dims g →
    ∃ l h, low g !! Z.to_nat d = Some l ∧ hi g !! Z.to_nat d = Some h ∧
           (h <=? l)%float = false ∧ 1 ≤ elt (bins g) d.
Proof.
  intros H. destruct (parseOptions_accepts cl g H) as (_ & H1 & H2 & H3 & H4 & H5).
  do 4 (split; [done|]). intros d Hd.
  destruct (H5 d Hd) as (l & h & Hl & Hh & Hle & _ & Hb). by exists l, h.
Qed.

Lemma parseOptions_zero_is_valid_witness :
  operands cmdline_raw8 = 0%nat ∧
  1 ≤ dims (parsed cmdline_raw8) < MAX_DIM ∧
  (raw8 (parsed cmdline_raw8) || raw16 (parsed cmdline_raw8) = true →
   dims (parsed cmdline_raw8) = 2 ∧ relative (parsed cmdline_raw8) = true) ∧
  raw8 (parsed cmdline_raw8) && raw16 (parsed cmdline_raw8) = false ∧
  ∀ d, 0 ≤ d < dims (parsed cmdline_raw8) →
    ∃ l h, low (parsed cmdline_raw8) !! Z.to_nat d = Some l ∧
           hi (parsed cmdline_raw8) !! Z.to_nat d = Some h ∧
           (h <=? l)%float = false ∧ 1 ≤ elt (bins (parsed cmdline_raw8)) d.
Proof.
  apply (parseOptions_zero_is_valid cmdline_raw8 (parsed cmdline_raw8)).
  vm_compute; reflexivity.
Defined.

Lemma option_loop_in_bounds (opts : list option_tok) :
  ∀ (g : globals) (dim : Z),
  full_arrays g →
  0 ≤ dim →
  dim + count_w opts < MAX_DIM →
  forallb recognised opts = true →
  ∃ g', option_loop g dim opts = Ok (Some g') ∧ full_arrays g'.
Proof.
  induction opts as [|o opts IH]; intros g dim Hfull Hdim Hw Hrec; simpl.
  - eauto.
  - simpl in Hrec. apply andb_true_iff in Hrec as [Ho Hrec].
    pose proof Hfull as [].
    assert (0 ≤ count_w opts).
    { clear. induction opts as [|[] ? ?]; simpl; lia. }
    unfold MAX_DIM in *.
    destruct o as [idx| | | | | | | |]; simpl in Ho, Hw; try discriminate;
      rewrite ?wr_in_bounds by lia; simpl;
      rewrite ?int_wrap_small by (unfold INT_MIN, INT_MAX; lia).
    1: destruct (idx =? 0); [|simpl in Ho; rewrite Ho].
    all: apply IH; try done; try lia;
      constructor; simpl; rewrite ?length_insert; done.
Qed.

Lemma option_loop_app (pre : list option_tok) :
  ∀ (g g' : globals) (dim : Z) (post : list option_tok),
  0 ≤ dim → dim + count_w pre < MAX_DIM →
  option_loop g dim pre = Ok (Some g') →
  option_loop g dim (pre ++ post) = option_loop g' (dim + count_w pre) post.
Proof.
  induction pre as [|o pre IH]; intros g g' dim post Hdim Hw H; simpl in *.
  - inv_Ok H. by rewrite Z.add_0_r.
  - assert (0 ≤ count_w pre).
    { clear. induction pre as [|[] ? ?]; simpl; lia. }
    destruct o as [idx| | | | | | | |]; try discriminate.
    1: destruct (idx =? 0); [|destruct (idx =? 1)]; try discriminate;
      by apply IH.
    1-3: inv_bind H; rewrite Hl; simpl.
    3: rewrite int_wrap_small in * by
         (unfold INT_MIN, INT_MAX, MAX_DIM in *; lia);
       rewrite (IH _ g' (dim + 1) post); try done; try lia; f_equal; lia.
    all: by apply IH.
Qed.

(** X2. With fewer than [MAX_DIM] options [-w], every store of the option
    loop stays inside the global arrays: the loop ends with the globals
    when every option is recognised, and on the first option that is not,
    [main] leaves with status 1 before it reads or writes anything. *)
Theorem option_loop_below_MAX_DIM :
  (∀ opts : list option_tok,
     count_w opts < MAX_DIM →
     forallb recognised opts = true →
     ∃ g, option_loop initial_globals 0 opts = Ok (Some g) ∧ full_arrays g)
  ∧
  (∀ (pre post : list option_tok) (o : option_tok) (n : nat)
     (stdin : list line) (fuel : nat),
     count_w pre < MAX_DIM →
     forallb recognised pre = true →
     recognised o = false →
     main fuel (Cmdline (pre ++ o :: post) n) stdin = Ok (1, [], stdin)).
Proof.
  assert (Hinit : full_arrays initial_globals) by (constructor; reflexivity).
  split.
  - intros opts Hw Hrec. apply option_loop_in_bounds; done || lia.
  - intros pre post o n stdin fuel Hw Hrec Ho.
    destruct (option_loop_in_bounds pre initial_globals 0) as (g & Hg & _);
      try done; try lia.
    unfold main, parseOptions. simpl.
    rewrite (option_loop_app pre _ g 0 (o :: post)) by (done || lia).
    simpl. destruct o; try discriminate; simpl.
    + simpl in Ho. apply orb_false_iff in Ho as [-> ->]. reflexivity.
    + reflexivity.
Qed.

Lemma option_loop_below_MAX_DIM_witness :
  main 4 (Cmdline ([Opt_d 1; Opt_l 0; Opt_h 1; Opt_w 3] ++ Opt_other :: [Opt_r]) 0)
    input_1d = Ok (1, [], input_1d).
Proof.
  apply (proj2 option_loop_below_MAX_DIM [Opt_d 1; Opt_l 0; Opt_h 1; Opt_w 3]
           [Opt_r] Opt_other 0%nat input_1d 4%nat).
  - vm_compute; reflexivity.
  - reflexivity.
  - reflexivity.
Defined.

Lemma count_w_replicate (n : nat) (k : Z) :
  count_w (replicate n (Opt_w k)) = Z.of_nat n.
Proof. induction n as [|n IH]; simpl; lia. Qed.

Lemma wr_past_end {A} (a : list A) (i : Z) (x : A) :
  Z.of_nat (length a) ≤ i → wr a i x = Undef.
Proof.
  intros H. unfold wr.
  destruct (Z.ltb_spec i (Z.of_nat (length a))); [lia|].
  by rewrite andb_false_r.
Qed.

(** X3. The option loop does not bound its dimension counter: after
    [MAX_DIM] options [-w], the next [-l], [-h] or [-w] stores past the
    end of its global array. *)
Theorem option_loop_overruns (k : Z) (o : option_tok)
    (rest : list option_tok) :
  stores o = true →
  option_loop initial_globals 0
    (replicate (Z.to_nat MAX_DIM) (Opt_w k) ++ o :: rest) = Undef.
Proof.
  intros Ho.
  assert (Hinit : full_arrays initial_globals) by (constructor; reflexivity).
  assert (Hrec : ∀ n, forallb recognised (replicate n (Opt_w k)) = true).
  { intros n. induction n as [|n IH]; [reflexivity|exact IH]. }
  assert (Hw : 0 + count_w (replicate 99 (Opt_w k)) < MAX_DIM).
  { rewrite count_w_replicate. unfold MAX_DIM. lia. }
  destruct (option_loop_in_bounds (replicate 99 (Opt_w k)) initial_globals 0
              Hinit (Z.le_refl 0) Hw (Hrec _)) as (g & Hg & Hfull).
  assert (E : replicate (Z.to_nat MAX_DIM) (Opt_w k) ++ o :: rest
              = replicate 99 (Opt_w k) ++ Opt_w k :: o :: rest).
  { change (Z.to_nat MAX_DIM) with (99 + 1)%nat.
    rewrite replicate_add, <- app_assoc. reflexivity. }
  rewrite E.
  rewrite (option_loop_app _ _ g _ _ (Z.le_refl 0) Hw Hg).
  rewrite count_w_replicate.
  change (0 + Z.of_nat 99) with 99.
  destruct Hfull as [Hl Hh _ Hb _ _]. unfold MAX_DIM in *.
  cbn [option_loop].
  rewrite wr_in_bounds by lia. cbn [mbind result_bind].
  rewrite int_wrap_small by (unfold INT_MIN, INT_MAX; lia).
  change (99 + 1) with 100.
  destruct o; try discriminate Ho; cbn [option_loop];
    rewrite wr_past_end; try reflexivity;
    cbn [set_bins low hi bins]; rewrite ?length_insert; lia.
Qed.

Lemma option_loop_overruns_witness :
  option_loop initial_globals 0
    (replicate (Z.to_nat MAX_DIM) (Opt_w 2) ++ Opt_l 0 :: []) = Undef.
Proof. apply (option_loop_overruns 2 (Opt_l 0) []). reflexivity. Defined.
Lemma count_w_nonneg (opts : list option_tok) : 0 ≤ count_w opts.
Proof. induction opts as [|[] ? ?]; simpl; lia. Qed.

(** The option loop leaves the bin counts of the dimensions it was given
    no [-w] for as they were. *)
Lemma option_loop_leaves_bins (opts : list option_tok) :
  ∀ (g g' : globals) (dim : Z),
  Z.of_nat (length (bins g)) ≤ MAX_DIM →
  0 ≤ dim →
  option_loop g dim opts = Ok (Some g') →
  ∀ d, dim + count_w opts ≤ d →
       bins g' !! Z.to_nat d = bins g !! Z.to_nat d.
Proof.
  induction opts as [|o opts IH]; intros g g' dim Hlen Hdim H d Hd;
    simpl in *.
  - by inv_Ok H.
  - pose proof (count_w_nonneg opts).
    destruct o as [idx|x|x|n|n| | | |]; try discriminate.
    1: destruct (idx =? 0); [|destruct (idx =? 1)]; try discriminate.
    3-5: inv_bind H; apply wr_Ok in Hl as [Hi ->].
    5: { rewrite int_wrap_small in H by
           (unfold INT_MIN, INT_MAX, MAX_DIM in *; lia).
         rewrite (IH (set_bins (<[Z.to_nat dim := n]> (bins g)) g) g' (dim + 1)
                    ltac:(simpl; by rewrite length_insert)
                    ltac:(lia) H d ltac:(lia)).
         simpl. apply list_lookup_insert_ne. lia. }
    all: refine (IH _ _ _ _ Hdim H d Hd); exact Hlen.
Qed.

(** X4. [parseOptions] accepts no command line that holds fewer [-w] options
    than it has dimensions: the bin count of a dimension without its
    [-w] is still the 0 of the zeroed global. *)
Theorem parseOptions_needs_w_per_dimension (cl : cmdline) (g : globals) :
  parseOptions initial_globals cl = Ok (0, g) →
  dims g ≤ count_w (options cl).
Proof.
  intros H. destruct (parseOptions_accepts cl g H) as (_ & _ & Hd & _ & _ & Hr).
  destruct (Z.le_gt_cases (dims g) (count_w (options cl))) as [|Hlt]; [done|].
  pose proof (count_w_nonneg (options cl)) as H0.
  destruct (Hr (count_w (options cl)) ltac:(lia))
    as (_ & _ & _ & _ & _ & _ & Hb).
  unfold parseOptions in H. inv_bind H. destruct a as [g0|]; [|by inv_Ok H].
  inv_bind H. inv_Ok H.
  assert (Hlen : Z.of_nat (length (bins initial_globals)) ≤ MAX_DIM)
    by (vm_compute; congruence).
  pose proof (option_loop_leaves_bins _ _ _ 0 Hlen (Z.le_refl 0) Hl
                (count_w (options cl)) ltac:(lia)) as E.
  unfold elt in Hb. rewrite E in Hb.
  change (bins initial_globals) with (replicate (Z.to_nat MAX_DIM) 0) in Hb.
  destruct (replicate _ 0 !! _) eqn:E'; simpl in Hb; [|lia].
  apply lookup_replicate in E' as [-> _]. lia.
Qed.

Lemma parseOptions_needs_w_per_dimension_witness :
  dims (parsed cmdline_3d) ≤ count_w (options cmdline_3d).
Proof.
  apply (parseOptions_needs_w_per_dimension cmdline_3d (parsed cmdline_3d)).
  vm_compute; reflexivity.
Defined.
(** ** import: the range test on NaN, comment lines, short lines *)

Lemma SFcompare_refl (x : SpecFloat.spec_float) :
  SpecFloat.SFcompare x x = Some Eq ∨ x = SpecFloat.S754_nan.
Proof.
  destruct x as [s|s| |s m e]; simpl; auto.
  - left. by destruct s.
  - left. rewrite Z.compare_refl, Pos.compare_refl. by destruct s.
Qed.

Lemma is_nan_Prim2SF (x : float) :
  PrimFloat.is_nan x = true → Prim2SF x = SpecFloat.S754_nan.
Proof.
  unfold PrimFloat.is_nan. rewrite FloatAxioms.eqb_spec.
  unfold SpecFloat.SFeqb.
  destruct (SFcompare_refl (Prim2SF x)) as [-> | ->]; [discriminate|done].
Qed.

Lemma nan_leb_ltb (x y : float) :
  PrimFloat.is_nan x = true →
  (x <=? y)%float = false ∧ (y <=? x)%float = false ∧
  (x <? y)%float = false ∧ (y <? x)%float = false.
Proof.
  intros H. apply is_nan_Prim2SF in H.
  rewrite !FloatAxioms.leb_spec, !FloatAxioms.ltb_spec, H.
  unfold SpecFloat.SFleb, SpecFloat.SFltb.
  by destruct (Prim2SF y) as [[]|[]| |[] ? ?].
Qed.

(** X5. A tuple with a NaN coordinate, or read against a NaN bound, is out of
    range: both comparisons of the range test are false on NaN. *)
Theorem nan_is_out_of_range (g : globals) (vals : list float) (b : bool)
    (d : Z) :
  in_range_of g vals = Ok b →
  0 ≤ d < dims g →
  PrimFloat.is_nan (flt vals d) || PrimFloat.is_nan (flt (low g) d)
    || PrimFloat.is_nan (flt (hi g) d) = true →
  b = false.
Proof.
  intros H Hd Hnan. destruct b; [|done].
  destruct (proj1 (in_range_of_spec g vals true H) eq_refl d Hd)
    as (v & l & h & Hv & Hl & Hh & Hle & Hlt).
  unfold flt in Hnan. rewrite Hv, Hl, Hh in Hnan. simpl in Hnan.
  apply orb_true_iff in Hnan as [Hnan|Hnan];
    [apply orb_true_iff in Hnan as [Hnan|Hnan]|].
  - destruct (nan_leb_ltb v l Hnan) as (_ & E & _). congruence.
  - destruct (nan_leb_ltb l v Hnan) as (E & _). congruence.
  - destruct (nan_leb_ltb h v Hnan) as (_ & _ & _ & E). congruence.
Qed.

Lemma nan_is_out_of_range_witness :
  ∃ b, in_range_of (parsed cmdline_1d) [PrimFloat.nan] = Ok b ∧ b = false.
Proof.
  eexists. split; [vm_compute; reflexivity|].
  apply (nan_is_out_of_range (parsed cmdline_1d) [PrimFloat.nan] _ 0).
  - vm_compute; reflexivity.
  - vm_compute; intuition congruence.
  - vm_compute; reflexivity.
Defined.

Lemma import_loop_without_comments (stdin : list line) :
  ∀ st : import_state,
  import_loop st (without_comments stdin)
    = '(st', rest) ← import_loop st stdin; Ok (st', without_comments rest).
Proof.
  induction stdin as [|[|vs] rest IH]; intros st; simpl.
  - reflexivity.
  - apply IH.
  - destruct (_ <? _); [reflexivity|].
    destruct (import_tuple st vs); simpl; [apply IH|reflexivity..].
Qed.

(** X6. Comment lines change nothing a caller sees: the exit status and the
    output are those of the input without them, whatever the command
    line. *)
Theorem comments_are_skipped (fuel : nat) (cl : cmdline)
    (stdin : list line) :
  run fuel cl (without_comments stdin) = run fuel cl stdin.
Proof.
  unfold run, main.
  destruct (parseOptions initial_globals cl) as [[rc g]| |]; simpl;
    try reflexivity.
  destruct (negb (rc =? 0)); [reflexivity|].
  destruct (setup g) as [[g' field]| |]; simpl; try reflexivity.
  unfold import. rewrite import_loop_without_comments.
  destruct (import_loop _ stdin) as [[st rest]| |]; simpl; try reflexivity.
  destruct (int_wrap _ <=? 0); simpl; [reflexivity|].
  destruct (output _ _ _ _); reflexivity.
Qed.

Lemma import_loop_short_line (vs : list float) (post pre : list line) :
  ∀ st : import_state,
  Forall (full_line (dims (ist_globals st))) pre →
  Z.of_nat (length vs) < dims (ist_globals st) →
  import_loop st (pre ++ Numbers vs :: post)
    = '(st', _) ← import_loop st pre; Ok (st', post).
Proof.
  induction pre as [|[|ws] pre IH]; intros st Hpre Hvs; simpl.
  - destruct (Z.ltb_spec (Z.of_nat (length vs)) (dims (ist_globals st)));
      [reflexivity|lia].
  - apply IH; [by inversion Hpre|done].
  - inversion Hpre as [|? ? Hws Hrest]; subst. simpl in Hws.
    destruct (Z.ltb_spec (Z.of_nat (length ws)) (dims (ist_globals st)));
      [lia|].
    destruct (import_tuple st ws) as [st1| |] eqn:E; simpl;
      [|reflexivity..].
    destruct (import_tuple_spec st st1 ws E) as (Hc & _).
    destruct (same_config_fields _ _ Hc) as (_ & _ & _ & _ & Ed & _).
    apply IH; by rewrite Ed.
Qed.

Lemma compute_sizes_dims (g g' : globals) :
  compute_sizes g = Ok g' → dims g' = dims g.
Proof.
  intros H. unfold compute_sizes, for_upto in H.
  apply (for_loop_keeps (λ s, dims s = dims g) _ _ _ _ _ H); [done|].
  intros i s s' Hb Hs. do 4 inv_bind Hb. by inv_Ok Hb.
Qed.

Lemma init_seen_dims (g g' : globals) :
  init_seen g = Ok g' → dims g' = dims g.
Proof.
  intros H. unfold init_seen, for_upto in H.
  apply (for_loop_keeps (λ s, dims s = dims g) _ _ _ _ _ H); [done|].
  intros i s s' Hb Hs. do 2 inv_bind Hb. by inv_Ok Hb.
Qed.

Lemma setup_dims (g g' : globals) (field : list Z) :
  setup g = Ok (g', field) → dims g' = dims g.
Proof.
  intros H. unfold setup in H. do 3 inv_bind H. inv_Ok H.
  apply init_seen_dims in Hl1. apply compute_sizes_dims in Hl. congruence.
Qed.

(** X7. The first line that holds fewer numbers than there are dimensions
    ends the import: the run goes on with the tuples read before it, and
    the lines after it are left unread, all of them. *)
Theorem import_stops_at_short_line (fuel : nat) (cl : cmdline)
    (pre post : list line) (vs : list float) :
  Forall (full_line (dims (parsed cl))) pre →
  Z.of_nat (length vs) < dims (parsed cl) →
  run fuel cl (pre ++ Numbers vs :: post) = run fuel cl pre ∧
  ∀ g, parseOptions initial_globals cl = Ok (0, g) →
       main fuel cl (pre ++ Numbers vs :: post)
       = ('(rc, out, _) ← main fuel cl pre; Ok (rc, out, post)).
Proof.
  intros Hpre Hvs. split.
  - unfold run, main, parsed in *.
    destruct (parseOptions initial_globals cl) as [[rc g]| |]; simpl;
      try reflexivity.
    destruct (negb (rc =? 0)); [reflexivity|].
    destruct (setup g) as [[g' field]| |] eqn:Hsetup; simpl; try reflexivity.
    apply setup_dims in Hsetup.
    unfold import.
    rewrite import_loop_short_line by (simpl; by rewrite Hsetup).
    destruct (import_loop _ pre) as [[st rest]| |]; simpl; try reflexivity.
    destruct (int_wrap _ <=? 0); simpl; [reflexivity|].
    destruct (output _ _ _ _); reflexivity.
  - intros g Hparse. unfold parsed in *. rewrite Hparse in *.
    unfold main. rewrite Hparse. simpl.
    destruct (setup g) as [[g' field]| |] eqn:Hsetup; simpl; try reflexivity.
    apply setup_dims in Hsetup.
    unfold import.
    rewrite import_loop_short_line by (simpl; by rewrite Hsetup).
    destruct (import_loop _ pre) as [[st rest]| |]; simpl; try reflexivity.
    destruct (int_wrap _ <=? 0); simpl; [reflexivity|].
    destruct (output _ _ _ _); reflexivity.
Qed.

Lemma import_stops_at_short_line_witness :
  run 4 cmdline_raw8 (input_raw ++ Numbers [0.5%float] :: input_raw)
    = run 4 cmdline_raw8 input_raw ∧
  ∀ g, parseOptions initial_globals cmdline_raw8 = Ok (0, g) →
       main 4 cmdline_raw8 (input_raw ++ Numbers [0.5%float] :: input_raw)
       = ('(rc, out, _) ← main 4 cmdline_raw8 input_raw;
          Ok (rc, out, input_raw)).
Proof.
  apply (import_stops_at_short_line 4 cmdline_raw8 input_raw input_raw
           [0.5%float]).
  - repeat constructor; vm_compute; congruence.
  - vm_compute; reflexivity.
Defined.

(** ** import: the bin indices of a tuple *)

Lemma bin_of_values (g : globals) (vals : list float) (pos : list Z) :
  dims g ≤ Z.of_nat (length pos) →
  (∀ d, 0 ≤ d < dims g → ∃ p, bin_value g vals d = Ok p) →
  ∃ pos', bin_of g vals pos = Ok pos' ∧ length pos' = length pos ∧
          (∀ d, 0 ≤ d < dims g → bin_value g vals d = Ok (elt pos' d)) ∧
          (∀ d, dims g ≤ d → elt pos' d = elt pos d).
Proof.
  intros Hlp Hval. unfold bin_of, for_upto.
  destruct (Z.le_gt_cases (dims g) 0) as [Hneg|Hpos].
  { replace (Z.to_nat (dims g)) with 0%nat by lia. simpl. exists pos.
    split; [done|]. split; [done|]. split; [intros; lia|done]. }
  edestruct (for_loop_inv
    (λ i (p : list Z), 0 ≤ i ∧ length p = length pos ∧
       (∀ d, 0 ≤ d < i → bin_value g vals d = Ok (elt p d)) ∧
       (∀ d, i ≤ d → elt p d = elt pos d)))
    as (pos' & Hrun & _ & Hlen & Hv & Hrest);
    [| |exists pos'; split; [apply Hrun|]].
  - split; [lia|]. split; [done|]. split; [intros; lia|done].
  - intros i p Hi (Hi0 & Hlen & Hv & Hrest).
    destruct (Hval i ltac:(lia)) as (x & Hx).
    unfold bin_value in Hx. do 3 inv_bind Hx.
    rewrite Hxl, Hxl0, Hxl1. simpl. rewrite Hx. simpl.
    rewrite wr_in_bounds by lia. eexists; split; [reflexivity|].
    split; [lia|]. split; [by rewrite length_insert|]. split.
    + intros d Hd. destruct (Z.eq_dec d i) as [->|Hne].
      * rewrite elt_insert_eq by lia. unfold bin_value.
        rewrite Hxl, Hxl0, Hxl1. simpl. done.
      * rewrite elt_insert_ne by lia. apply Hv. lia.
    + intros d Hd. rewrite elt_insert_ne by lia. apply Hrest. lia.
  - rewrite Z2Nat.id in * by lia. split; [done|]. split.
    + intros d Hd. apply Hv. lia.
    + intros d Hd. apply Hrest. lia.
Qed.

Lemma bin_of_Ok_values (g : globals) (vals : list float) (pos pos' : list Z) :
  bin_of g vals pos = Ok pos' →
  ∀ d, 0 ≤ d < dims g → ∃ p, bin_value g vals d = Ok p.
Proof.
  intros H. unfold bin_of, for_upto in H.
  assert (Hinv : ∀ d, 0 ≤ d < 0 + Z.of_nat (Z.to_nat (dims g)) →
                      ∃ p, bin_value g vals d = Ok p).
  { apply (for_loop_ok_inv
             (λ i (_ : list Z), ∀ d, 0 ≤ d < i → ∃ p, bin_value g vals d = Ok p)
             _ _ _ _ _ H); [intros; lia|].
    intros i s s' Hi Hb Hprev d Hd.
    destruct (Z.eq_dec d i) as [->|Hne]; [|apply Hprev; lia].
    do 4 inv_bind Hb. unfold bin_value. rewrite Hbl, Hbl0, Hbl1. simpl. eauto. }
  intros d Hd. apply Hinv. lia.
Qed.

(** X8. The tuple [pos] of [import] is not reset between the lines: the
    binning loop overwrites its first [dims] entries, so the bin indices
    of a tuple do not depend on what an earlier tuple left there. *)
Theorem bin_of_overwrites (g : globals) (vals : list float)
    (pos1 pos2 pos1' : list Z) :
  dims g ≤ Z.of_nat (length pos2) →
  bin_of g vals pos1 = Ok pos1' →
  ∃ pos2', bin_of g vals pos2 = Ok pos2' ∧
           length pos2' = length pos2 ∧
           (∀ d, 0 ≤ d < dims g → elt pos2' d = elt pos1' d) ∧
           (∀ d, dims g ≤ d → elt pos2' d = elt pos2 d).
Proof.
  intros Hl2 H1.
  pose proof (bin_of_Ok_values g vals pos1 pos1' H1) as Hval.
  destruct (bin_of_values g vals pos2 Hl2 Hval) as (pos2' & H2 & Hlen & Hv & Hr).
  exists pos2'. split; [done|]. split; [done|]. split; [|done].
  intros d Hd.
  assert (Hl1 : dims g ≤ Z.of_nat (length pos1)).
  { unfold bin_of, for_upto in H1.
    destruct (Z.to_nat (dims g)) as [|n] eqn:En; [lia|].
    assert (Hlen1 : ∀ k (p p' : list Z) i, 0 ≤ i →
              for_loop k i
                (λ dim pos, v ← rd vals dim; l ← rd (low g) dim;
                   s ← rd (size g) dim;
                   p ← int_of_floor ((v - l) / s)%float; wr pos dim p) p
                = Ok p' →
              i + Z.of_nat k ≤ Z.of_nat (length p) ∨ k = 0%nat).
    { induction k as [|k IH]; intros p p' i Hi Hrun; [by right|left].
      simpl in Hrun. inv_bind Hrun. do 4 inv_bind Hrunl.
      apply wr_Ok in Hrunl as [Hb ->].
      destruct (IH _ _ (i + 1) ltac:(lia) Hrun) as [Hk| ->].
      - rewrite length_insert in Hk. lia.
      - lia. }
    destruct (Hlen1 _ _ _ 0 ltac:(lia) H1) as [?|?]; lia. }
  destruct (bin_of_values g vals pos1 Hl1 Hval) as (q & Hq & _ & Hvq & _).
  rewrite H1 in Hq. inv_Ok Hq.
  specialize (Hv d Hd). specialize (Hvq d Hd). congruence.
Qed.

Lemma bin_of_overwrites_witness :
  ∃ pos2', bin_of (configured cmdline_thirds_2d).1 [0.5; 0.75]%float [7; 7; 7]
             = Ok pos2' ∧
           length pos2' = length [7; 7; 7] ∧
           (∀ d, 0 ≤ d < dims (configured cmdline_thirds_2d).1 →
                 elt pos2' d = elt [1; 1] d) ∧
           (∀ d, dims (configured cmdline_thirds_2d).1 ≤ d →
                 elt pos2' d = elt [7; 7; 7] d).
Proof.
  apply (bin_of_overwrites (configured cmdline_thirds_2d).1 [0.5; 0.75]%float
           [0; 0] [7; 7; 7] [1; 1]).
  - vm_compute; congruence.
  - vm_compute; reflexivity.
Defined.

Lemma binnable_b_sound (g : globals) (vals : list float) :
  binnable_b g vals = true → binnable g vals.
Proof.
  unfold binnable_b, binnable. intros Hb Hin pos Hlp. rewrite Hin in Hb.
  rewrite forallb_forall in Hb.
  assert (Hval : ∀ d, 0 ≤ d < dims g →
            ∃ p, bin_value g vals d = Ok p ∧ 0 ≤ p < elt (bins g) d).
  { intros d Hd. specialize (Hb d).
    destruct (bin_value g vals d) as [p| |].
    - exists p. split; [done|].
      assert (Hd' : In d (seqZ 0 (dims g))).
      { apply list_elem_of_In, elem_of_seqZ. lia. }
      apply Hb in Hd'. apply andb_true_iff in Hd' as [H1 H2]. lia.
    - exfalso. assert (Hd' : In d (seqZ 0 (dims g))).
      { apply list_elem_of_In, elem_of_seqZ. lia. }
      apply Hb in Hd'. discriminate.
    - exfalso. assert (Hd' : In d (seqZ 0 (dims g))).
      { apply list_elem_of_In, elem_of_seqZ. lia. }
      apply Hb in Hd'. discriminate. }
  destruct (bin_of_values g vals pos Hlp) as (pos' & Hrun & Hlen & Hv & _).
  { intros d Hd. destruct (Hval d Hd) as (p & Hp & _). eauto. }
  exists pos'. split; [done|]. split; [done|].
  intros d Hd. destruct (Hval d Hd) as (p & Hp & Hrange).
  rewrite (Hv d Hd) in Hp. inv_Ok Hp. done.
Qed.

Lemma line_binnable_b_sound (g : globals) (stdin : list line) :
  forallb (line_binnable_b g) stdin = true → Forall (line_binnable g) stdin.
Proof.
  intros H. rewrite forallb_forall in H. apply Forall_forall.
  intros l Hl. specialize (H l Hl).
  destruct l as [|vs]; [done|]. by apply binnable_b_sound.
Qed.
(** ** import: an input without an accepted tuple, and the occupied range *)

Lemma in_range_of_same_options (g g' : globals) (vals : list float) :
  same_options g g' → in_range_of g' vals = in_range_of g vals.
Proof. unfold same_options. intros ->. reflexivity. Qed.

Lemma accepted_same_options (g g' : globals) (stdin : list line) :
  same_options g g' → accepted g' stdin = accepted g stdin.
Proof.
  intros Hc. destruct (same_options_fields g g' Hc) as (_ & _ & _ & Hd & _).
  induction stdin as [|[|vs] rest IH]; simpl; try done.
  rewrite Hd, IH, (in_range_of_same_options g g' vs Hc). reflexivity.
Qed.

Lemma accepted_nonneg (g : globals) (stdin : list line) :
  0 ≤ accepted g stdin.
Proof.
  induction stdin as [|[|vs] rest IH]; simpl; try lia.
  destruct (_ <? _); [lia|]. destruct (in_range_of g vs) as [[]| |]; lia.
Qed.

(** While no tuple passes the range test, the reading loop touches
    neither the array nor the trackers, and cannot fail. *)
Lemma import_loop_rejecting (stdin : list line) :
  ∀ st : import_state,
  full_arrays (ist_globals st) →
  dims (ist_globals st) < MAX_DIM →
  accepted (ist_globals st) stdin = 0 →
  ∃ st' rest, import_loop st stdin = Ok (st', rest) ∧
              ist_globals st' = ist_globals st ∧
              ist_field st' = ist_field st.
Proof.
  induction stdin as [|[|vs] stdin IH]; intros st Hfull Hd Hacc; simpl in *.
  - eauto.
  - by apply IH.
  - destruct (Z.ltb_spec (Z.of_nat (length vs)) (dims (ist_globals st)));
      [eauto|].
    pose proof (accepted_nonneg (ist_globals st) stdin).
    destruct (in_range_of_total (ist_globals st) vs Hfull Hd ltac:(done))
      as (b & Hb).
    rewrite Hb in Hacc. destruct b; simpl in Hacc; [lia|].
    unfold import_tuple. rewrite Hb. simpl.
    destruct (IH (ImportState (ist_globals st) (ist_field st)
                    (int_wrap (ist_count st + 1)) (int_wrap (ist_oor st + 1))
                    (ist_pos st))) as (st' & rest & E & Eg & Ef);
      [done|done|simpl; lia|].
    by exists st', rest.
Qed.

Lemma counted_zeros (g : globals) (n : Z) :
  counted (ImportState g (zeros n) 0 0 (zeros MAX_DIM)).
Proof.
  split; [|split]; simpl.
  - unfold zeros. by apply Forall_replicate.
  - rewrite Zsum_zeros. lia.
  - lia.
Qed.

(** X9. When no tuple of the input passes the range test (an empty input
    included), the program leaves with status 1 and writes nothing. *)
Theorem no_tuple_in_range_exit_1 (fuel : nat) (cl : cmdline) (g : globals)
    (stdin : list line) :
  parseOptions initial_globals cl = Ok (0, g) →
  stride (bins g) (Z.to_nat (dims g)) ≤ INT_MAX →
  Z.of_nat (length stdin) ≤ INT_MAX →
  accepted g stdin = 0 →
  ∃ rest, main fuel cl stdin = Ok (1, [], rest).
Proof.
  intros Hparse Hfit Hlen Hacc.
  destruct (setup_sound cl g Hparse Hfit)
    as (g' & Hsetup & Hopt & Hfull & Hsound & _).
  unfold main. rewrite Hparse. simpl. rewrite Hsetup. simpl.
  set (st := ImportState g' (zeros (stride (bins g) (Z.to_nat (dims g)))) 0 0
               (zeros MAX_DIM)).
  destruct (import_loop_rejecting stdin st) as (st' & rest & E & _); try done.
  { apply (sound_dims _ _ Hsound). }
  { simpl. by rewrite (accepted_same_options g g'). }
  unfold import. fold st. rewrite E. simpl.
  destruct (import_loop_spec stdin st st' rest E) as (_ & _ & _ & _ & _ & _ & Hc).
  { apply counted_zeros. }
  { simpl. lia. }
  simpl in Hc. rewrite (accepted_same_options g g') in Hc by done.
  rewrite Hc, Hacc. simpl. by exists rest.
Qed.

Lemma no_tuple_in_range_exit_1_witness :
  ∃ rest, main 4 cmdline_1d [Numbers [10%float]; Comment; Numbers [(-1)%float]]
          = Ok (1, [], rest).
Proof.
  apply (no_tuple_in_range_exit_1 4 cmdline_1d (parsed cmdline_1d)).
  - vm_compute; reflexivity.
  - vm_compute; congruence.
  - vm_compute; congruence.
  - vm_compute; reflexivity.
Defined.

(** What an accepted tuple does to the trackers: in every dimension the
    minimum and the maximum take in the tuple's bin index. *)
Lemma import_tuple_seen (st st' : import_state) (vals : list float) :
  import_tuple st vals = Ok st' →
  binnable (ist_globals st) vals →
  dims (ist_globals st) ≤ Z.of_nat (length (ist_pos st)) →
  dims (ist_globals st) ≤ Z.of_nat (length (min_bin_seen (ist_globals st))) →
  dims (ist_globals st) ≤ Z.of_nat (length (max_bin_seen (ist_globals st))) →
  length (ist_pos st') = length (ist_pos st) ∧
  ((in_range_of (ist_globals st) vals = Ok true ∧
    ∀ d, 0 ≤ d < dims (ist_globals st) →
      ∃ p, 0 ≤ p < elt (bins (ist_globals st)) d ∧
           elt (min_bin_seen (ist_globals st')) d
             = Z.min (elt (min_bin_seen (ist_globals st)) d) p ∧
           elt (max_bin_seen (ist_globals st')) d
             = Z.max (elt (max_bin_seen (ist_globals st)) d) p)
   ∨
   (in_range_of (ist_globals st) vals = Ok false ∧
    ist_globals st' = ist_globals st)).
Proof.
  intros H Hbin Hlp Hl1 Hl2. unfold import_tuple in H. inv_bind H.
  destruct a.
  - destruct (Hbin Hl (ist_pos st) Hlp) as (pos & Hpos & Hlen & Hin).
    rewrite Hpos in H. simpl in H. inv_bind H. inv_bind H.
    destruct a0 as [field g']. inv_Ok H. simpl.
    split; [done|]. left. split; [done|].
    unfold set_pos in Hl3. do 3 inv_bind Hl3. inv_Ok Hl3.
    destruct (update_seen_spec (dims (ist_globals st)) pos (ist_globals st))
      as (g'' & Hg'' & _ & _ & _ & Hseen); [lia|done|done|].
    match goal with
    | Hu : update_seen _ _ _ = Ok g' |- _ => rewrite Hg'' in Hu; inv_Ok Hu
    end.
    intros d Hd. exists (elt pos d). split; [by apply Hin|].
    destruct (Hseen d ltac:(lia)) as [E1 E2].
    destruct (Z.ltb_spec d (dims (ist_globals st))); [done|lia].
  - inv_Ok H. simpl. split; [done|]. by right.
Qed.

Lemma import_loop_seen (stdin : list line) :
  ∀ (st st' : import_state) (rest : list line),
  import_loop st stdin = Ok (st', rest) →
  Forall (line_binnable (ist_globals st)) stdin →
  dims (ist_globals st) ≤ Z.of_nat (length (ist_pos st)) →
  dims (ist_globals st) ≤ Z.of_nat (length (min_bin_seen (ist_globals st))) →
  dims (ist_globals st) ≤ Z.of_nat (length (max_bin_seen (ist_globals st))) →
  (∀ d, 0 ≤ d < dims (ist_globals st) →
        0 ≤ elt (min_bin_seen (ist_globals st)) d ∧
        elt (max_bin_seen (ist_globals st)) d
          < elt (bins (ist_globals st)) d) →
  (∀ d, 0 ≤ d < dims (ist_globals st) →
        0 ≤ elt (min_bin_seen (ist_globals st')) d ∧
        elt (max_bin_seen (ist_globals st')) d
          < elt (bins (ist_globals st)) d) ∧
  (0 < accepted (ist_globals st) stdin
   ∨ (∀ d, 0 ≤ d < dims (ist_globals st) →
           elt (min_bin_seen (ist_globals st)) d
             ≤ elt (max_bin_seen (ist_globals st)) d) →
   ∀ d, 0 ≤ d < dims (ist_globals st) →
        elt (min_bin_seen (ist_globals st')) d
          ≤ elt (max_bin_seen (ist_globals st')) d).
Proof.
  induction stdin as [|[|vs] stdin IH];
    intros st st' rest H Hall Hlp Hl1 Hl2 Hok; simpl in *.
  - inv_Ok H. split; [done|]. intros [?|?]; [lia|done].
  - apply (IH st st' rest); try done. by inversion Hall.
  - destruct (Z.ltb_spec (Z.of_nat (length vs)) (dims (ist_globals st))).
    { inv_Ok H. split; [done|]. intros [?|?]; [lia|done]. }
    inversion Hall as [|? ? Hvs Hrest]; subst. simpl in Hvs.
    inv_bind H. rename a into st1.
    destruct (import_tuple_spec st st1 vs Hl) as (Hc & Hl3 & Hl4 & _).
    destruct (same_config_fields _ _ Hc) as (_ & _ & _ & Eb & Ed & _).
    destruct (import_tuple_seen st st1 vs Hl Hvs Hlp Hl1 Hl2) as (Hlp1 & Hcase).
    assert (Hrest1 : Forall (line_binnable (ist_globals st1)) stdin).
    { revert Hrest. apply Forall_impl.
      intros [|vs']; simpl; [done|]. by apply binnable_same_config. }
    assert (Hlen1 : dims (ist_globals st1) ≤ Z.of_nat (length (ist_pos st1)))
      by (rewrite Ed, Hlp1; done).
    assert (Hmin1 : dims (ist_globals st1)
                    ≤ Z.of_nat (length (min_bin_seen (ist_globals st1))))
      by (rewrite Ed, Hl3; done).
    assert (Hmax1 : dims (ist_globals st1)
                    ≤ Z.of_nat (length (max_bin_seen (ist_globals st1))))
      by (rewrite Ed, Hl4; done).
    specialize (IH st1 st' rest H Hrest1 Hlen1 Hmin1 Hmax1).
    rewrite (accepted_same_config (ist_globals st) (ist_globals st1)) in IH
      by done.
    rewrite Ed, Eb in IH.
    destruct Hcase as [[Hr Hp]|[Hr Eg]].
    + rewrite Hr.
      destruct IH as [IH1 IH2].
      { intros d Hd. destruct (Hp d Hd) as (p & Hp0 & -> & ->).
        destruct (Hok d Hd). lia. }
      split; [done|]. intros _. apply IH2. right.
      intros d Hd. destruct (Hp d Hd) as (p & Hp0 & -> & ->). lia.
    + rewrite Hr. rewrite Eg in IH.
      destruct IH as [IH1 IH2]; [done|].
      split; [done|].
      intros Hor. apply IH2. destruct Hor as [?|?]; [left; lia|by right].
Qed.

(** X10. When [import] returns to [main], the trackers span a range of bins in
    every dimension: [0 <= min <= max < bins]; the values [INT_MAX] and
    [-1] that [main] stored do not reach [output]. *)
Theorem import_leaves_occupied_range (g g' : globals)
    (field field' : list Z) (count : Z) (stdin rest : list line) :
  full_arrays g →
  sound g field →
  Zsum field = 0 →
  Forall (λ c, 0 ≤ c) field →
  unoccupied g →
  Z.of_nat (length stdin) ≤ INT_MAX →
  Forall (line_binnable g) stdin →
  import g field 0 stdin = Ok (Imported g' field' count rest) →
  occupied_range g'.
Proof.
  intros Hfull Hsound Hsum Hnn Hun Hlen Hall H.
  unfold import in H. inv_bind H. destruct a as [st' rest'].
  destruct (Z.leb_spec (int_wrap (ist_count st' - ist_oor st')) 0) as [|Hpos];
    [discriminate|]. inv_Ok H.
  set (st := ImportState g field 0 0 (zeros MAX_DIM)) in *.
  pose proof (sound_dims g field Hsound) as Hd.
  pose proof Hfull as [].
  destruct (import_loop_spec stdin st st' rest Hl)
    as ((_ & _ & Hoor) & Hc & _ & _ & _ & Hcount & Hacc).
  { split; [done|]. simpl. lia. }
  { simpl. lia. }
  simpl in Hcount, Hacc.
  pose proof (tuples_read_bound g stdin).
  rewrite int_wrap_small in Hpos by (unfold INT_MIN, INT_MAX in *; lia).
  destruct (same_config_fields _ _ Hc) as (_ & _ & _ & Eb & Ed & _).
  simpl in Eb, Ed.
  assert (Hz : dims g ≤ Z.of_nat (length (zeros MAX_DIM))).
  { unfold zeros. rewrite length_replicate. unfold MAX_DIM in *. lia. }
  destruct (import_loop_seen stdin st st' rest Hl) as [H1 H2];
    [done|done|simpl; lia|simpl; lia| |].
  { simpl. intros d Hd'. destruct (Hun d Hd') as [-> ->].
    pose proof (sound_bins g field Hsound d Hd').
    unfold INT_MAX. lia. }
  simpl in H1, H2. intros d Hd'. rewrite Ed in Hd'. rewrite Eb.
  destruct (H1 d Hd'). assert (Ha : 0 < accepted g stdin) by (clear -Hpos Hacc; lia).
  specialize (H2 (or_introl Ha) d Hd'). lia.
Qed.

Lemma import_leaves_occupied_range_witness :
  occupied_range (imported cmdline_1d input_1d).1.1.
Proof.
  apply (import_leaves_occupied_range (configured cmdline_1d).1
           (imported cmdline_1d input_1d).1.1 (configured cmdline_1d).2
           (imported cmdline_1d input_1d).1.2
           (imported cmdline_1d input_1d).2 input_1d []).
  - constructor; vm_compute; reflexivity.
  - apply (configured_sound cmdline_1d); vm_compute; [reflexivity|congruence].
  - vm_compute; reflexivity.
  - repeat constructor; vm_compute; congruence.
  - intros d Hd. change (0 ≤ d < 1) in Hd. assert (d = 0) as -> by lia.
    vm_compute; split; reflexivity.
  - vm_compute; congruence.
  - apply line_binnable_b_sound; vm_compute; reflexivity.
  - vm_compute; reflexivity.
Defined.
(** ** set_pos and get_pos: the trackers, and distinct tuples *)

(** X11. [set_pos] widens the trackers by the tuple it writes at, in the
    dimensions below [dims] only, and changes no other global. *)
Theorem set_pos_widens_trackers (g g' : globals) (field field' : list Z)
    (value dims : Z) (size pos : list Z) :
  dims ≤ Z.of_nat (length pos) →
  dims ≤ Z.of_nat (length (min_bin_seen g)) →
  dims ≤ Z.of_nat (length (max_bin_seen g)) →
  set_pos g field value dims size pos = Ok (field', g') →
  same_config g g' ∧
  ∀ d, 0 ≤ d →
    elt (min_bin_seen g') d =
      (if d <? dims then Z.min (elt (min_bin_seen g) d) (elt pos d)
       else elt (min_bin_seen g) d) ∧
    elt (max_bin_seen g') d =
      (if d <? dims then Z.max (elt (max_bin_seen g) d) (elt pos d)
       else elt (max_bin_seen g) d).
Proof.
  intros Hlp Hl1 Hl2 H. unfold set_pos in H. do 3 inv_bind H. inv_Ok H.
  destruct (update_seen_spec dims pos g Hlp Hl1 Hl2)
    as (g'' & Hg'' & Hc & _ & _ & Hseen).
  match goal with
  | Hu : update_seen _ _ _ = Ok g' |- _ => rewrite Hg'' in Hu; inv_Ok Hu
  end.
  done.
Qed.

Lemma set_pos_widens_trackers_witness :
  same_config (configured cmdline_3d).1 (imported cmdline_3d input_3d).1.1.
Proof.
  apply (set_pos_widens_trackers (configured cmdline_3d).1
           (imported cmdline_3d input_3d).1.1 (configured cmdline_3d).2
           (imported cmdline_3d input_3d).1.2 1 3
           (bins (configured cmdline_3d).1) (zeros MAX_DIM)).
  - vm_compute; congruence.
  - vm_compute; congruence.
  - vm_compute; congruence.
  - vm_compute; reflexivity.
Defined.
Lemma flat_index_inj (bins pos pos' : list Z) (D : nat) :
  (∀ d, 0 ≤ d < Z.of_nat D → 1 ≤ elt bins d) →
  in_bins bins pos (Z.of_nat D) →
  in_bins bins pos' (Z.of_nat D) →
  ∀ k : nat, (k ≤ D)%nat →
  flat_index bins pos k = flat_index bins pos' k →
  ∀ d, 0 ≤ d < Z.of_nat k → elt pos d = elt pos' d.
Proof.
  intros Hb Hv Hv'. induction k as [|k IH]; intros Hk E d Hd; [lia|].
  simpl in E.
  pose proof (flat_index_bound bins D Hb pos k Hv ltac:(lia)) as B.
  pose proof (flat_index_bound bins D Hb pos' k Hv' ltac:(lia)) as B'.
  pose proof (stride_pos bins D Hb k ltac:(lia)) as Hs.
  assert (Ek : elt pos (Z.of_nat k) = elt pos' (Z.of_nat k)) by nia.
  destruct (decide (d = Z.of_nat k)) as [->|Hne]; [done|].
  apply IH; [lia| |lia]. rewrite Ek in E. lia.
Qed.

(** X12. Two index tuples within the bin counts that differ in some dimension
    address different cells: a [set_pos] at one of them leaves what
    [get_pos] reads at the other. *)
Theorem set_pos_keeps_other_cells (g g' : globals) (field field' : list Z)
    (v dims : Z) (bins pos pos' : list Z) :
  dims ≤ Z.of_nat (length pos) →
  dims ≤ Z.of_nat (length pos') →
  dims ≤ Z.of_nat (length bins) →
  dims ≤ Z.of_nat (length (min_bin_seen g)) →
  dims ≤ Z.of_nat (length (max_bin_seen g)) →
  in_bins bins pos dims →
  in_bins bins pos' dims →
  stride bins (Z.to_nat dims) ≤ Z.of_nat (length field) →
  stride bins (Z.to_nat dims) ≤ LONG_MAX →
  (∃ d, 0 ≤ d < dims ∧ elt pos d ≠ elt pos' d) →
  set_pos g field v dims bins pos = Ok (field', g') →
  flat_index bins pos (Z.to_nat dims) ≠ flat_index bins pos' (Z.to_nat dims) ∧
  get_pos field' dims bins pos' = get_pos field dims bins pos'.
Proof.
  intros Hlp Hlp' Hlb Hl1 Hl2 Hv Hv' Hf Hlong (d & Hd & Hne) H.
  destruct (accessors_in_bins g field v dims bins pos)
    as (Hi & _ & g1 & Hset); try done.
  rewrite Hset in H. inv_Ok H.
  destruct (accessors_in_bins g field v dims bins pos')
    as (Hi' & Hget & _); try done.
  assert (Hb : ∀ d, 0 ≤ d < Z.of_nat (Z.to_nat dims) → 1 ≤ elt bins d).
  { intros d' Hd'. specialize (Hv d' ltac:(lia)). lia. }
  assert (Hdiff : flat_index bins pos (Z.to_nat dims)
                  ≠ flat_index bins pos' (Z.to_nat dims)).
  { intros E. apply Hne.
    apply (flat_index_inj bins pos pos' (Z.to_nat dims) Hb) with
      (k := Z.to_nat dims); try done; try lia.
    - intros d' Hd'. apply Hv. lia.
    - intros d' Hd'. apply Hv'. lia. }
  split; [done|].
  destruct (accessors_in_bins g
              (<[Z.to_nat (flat_index bins pos (Z.to_nat dims)) := v]> field)
              v dims bins pos') as (_ & Hget' & _); try done.
  { by rewrite length_insert. }
  rewrite Hget, Hget'. f_equal. apply elt_insert_ne; lia.
Qed.

Lemma set_pos_keeps_other_cells_witness :
  flat_index [2; 3] [1; 0] 2 ≠ flat_index [2; 3] [0; 1] 2 ∧
  get_pos [0; 7; 0; 0; 0; 0] 2 [2; 3] [0; 1]
    = get_pos [0; 0; 0; 0; 0; 0] 2 [2; 3] [0; 1].
Proof.
  apply (set_pos_keeps_other_cells
           (set_seen [5; 5] [0; 0] odometer_2_3)
           (set_seen [1; 0] [1; 0] odometer_2_3)
           [0; 0; 0; 0; 0; 0] [0; 7; 0; 0; 0; 0] 7 2 [2; 3] [1; 0] [0; 1]).
  1-5: vm_compute; congruence.
  - intros d Hd. assert (d = 0 ∨ d = 1) as [-> | ->] by lia;
      vm_compute; split; congruence.
  - intros d Hd. assert (d = 0 ∨ d = 1) as [-> | ->] by lia;
      vm_compute; split; congruence.
  - vm_compute; congruence.
  - vm_compute; congruence.
  - exists 0. split; [lia|]. vm_compute; congruence.
  - vm_compute; reflexivity.
Defined.

(** ** adv_pos: a whole run over the array *)

Lemma adv_iter_S (n : nat) (g : globals) (pos pos1 pos2 : list Z) (over : Z)
    (flags : list Z) :
  adv_pos g (dims g) pos = Ok (pos1, over) →
  adv_iter n g pos1 = Ok (pos2, flags) →
  adv_iter (S n) g pos = Ok (pos2, over :: flags).
Proof. intros H1 H2. simpl. rewrite H1. simpl. rewrite H2. reflexivity. Qed.

Lemma adv_iter_spec (g : globals) (field : list Z) :
  sound g field →
  ∀ (k : nat) (pos : list Z),
  dims g ≤ Z.of_nat (length pos) →
  in_bins (bins g) pos (dims g) →
  flat_index (bins g) pos (Z.to_nat (dims g)) + Z.of_nat k
    < stride (bins g) (Z.to_nat (dims g)) →
  ∃ pos',
    adv_iter k g pos = Ok (pos', replicate k 0) ∧
    length pos' = length pos ∧
    in_bins (bins g) pos' (dims g) ∧
    flat_index (bins g) pos' (Z.to_nat (dims g))
      = flat_index (bins g) pos (Z.to_nat (dims g)) + Z.of_nat k.
Proof.
  intros Hs. induction k as [|k IH]; intros pos Hlp Hv Hk; simpl.
  - exists pos. split; [done|]. split; [done|]. split; [done|]. lia.
  - destruct (adv_pos_next g field pos Hs Hlp Hv)
      as (pos1 & Hl1 & Hv1 & [(Hlt & Hadv & Hfi)|(Heq & _)]); [|lia].
    rewrite Hadv. simpl.
    destruct (IH pos1) as (pos' & Hit & Hl' & Hv' & Hfi'); [lia|done|lia|].
    rewrite Hit. simpl. exists pos'.
    split; [done|]. split; [lia|]. split; [done|]. lia.
Qed.

(** X13. From a tuple within the bin counts whose linear index is [i], the
    next [N - i - 1] calls of [adv_pos] return 0 and lead through the
    linear indices [i + 1] to [N - 1] one by one; the call after them
    returns 1 and leaves the all-zero tuple ([N] the product of the bin
    counts). From the all-zero tuple the first overflow is the [N]-th
    call. *)
Theorem adv_pos_full_cycle (g : globals) (field pos : list Z) (k : nat) :
  sound g field →
  dims g ≤ Z.of_nat (length pos) →
  in_bins (bins g) pos (dims g) →
  flat_index (bins g) pos (Z.to_nat (dims g)) + Z.of_nat k + 1
    = stride (bins g) (Z.to_nat (dims g)) →
  (∀ j : nat, (j ≤ k)%nat →
     ∃ pos',
       adv_iter j g pos = Ok (pos', replicate j 0) ∧
       in_bins (bins g) pos' (dims g) ∧
       flat_index (bins g) pos' (Z.to_nat (dims g))
         = flat_index (bins g) pos (Z.to_nat (dims g)) + Z.of_nat j) ∧
  ∃ pos',
    adv_iter (S k) g pos = Ok (pos', replicate k 0 ++ [1]) ∧
    ∀ d, 0 ≤ d < dims g → elt pos' d = 0.
Proof.
  intros Hs Hlp Hv Hk. split.
  - intros j Hj.
    destruct (adv_iter_spec g field Hs j pos Hlp Hv ltac:(lia))
      as (pos' & H1 & _ & H2 & H3).
    by exists pos'.
  - revert pos Hlp Hv Hk. induction k as [|k IH]; intros pos Hlp Hv Hk.
    + destruct (adv_pos_next g field pos Hs Hlp Hv)
        as (pos1 & Hl1 & Hv1 & [(Hlt & _)|(Heq & Hadv & Hfi)]); [lia|].
      simpl. rewrite Hadv. simpl. exists pos1. split; [done|].
      pose proof (sound_dims g field Hs) as Hd.
      assert (Hb := sound_bins_D g field Hs).
      assert (Hz : flat_index (bins g) (zeros MAX_DIM) (Z.to_nat (dims g)) = 0).
      { apply flat_index_zero. intros d Hd'. unfold elt, zeros.
        rewrite lookup_replicate_2; [done|]. unfold MAX_DIM in *. lia. }
      assert (Hvz : in_bins (bins g) (zeros MAX_DIM)
                      (Z.of_nat (Z.to_nat (dims g)))).
      { intros d Hd'. unfold elt at 1 2, zeros.
        rewrite lookup_replicate_2 by (unfold MAX_DIM in *; lia). simpl.
        specialize (Hb d Hd'). lia. }
      intros d Hd'.
      rewrite (flat_index_inj (bins g) pos1 (zeros MAX_DIM)
                 (Z.to_nat (dims g)) Hb) with (k := Z.to_nat (dims g));
        try done; try lia.
      * unfold elt, zeros.
        rewrite lookup_replicate_2; [done|]. unfold MAX_DIM in *. lia.
      * intros d' Hd''. apply Hv1. lia.
    + destruct (adv_pos_next g field pos Hs Hlp Hv)
        as (pos1 & Hl1 & Hv1 & [(Hlt & Hadv & Hfi)|(Heq & _)]); [|lia].
      destruct (IH pos1) as (pos' & Hit & Hz); [lia|done|lia|].
      exists pos'. split; [|done].
      exact (adv_iter_S _ _ _ _ _ _ _ Hadv Hit).
Qed.

Lemma adv_pos_full_cycle_witness :
  (∀ j : nat, (j ≤ 5)%nat →
     ∃ pos',
       adv_iter j odometer_2_3 [0; 0] = Ok (pos', replicate j 0) ∧
       in_bins (bins odometer_2_3) pos' (dims odometer_2_3) ∧
       flat_index (bins odometer_2_3) pos' (Z.to_nat (dims odometer_2_3))
         = flat_index (bins odometer_2_3) [0; 0]
             (Z.to_nat (dims odometer_2_3)) + Z.of_nat j) ∧
  ∃ pos',
    adv_iter 6 odometer_2_3 [0; 0] = Ok (pos', replicate 5 0 ++ [1]) ∧
    ∀ d, 0 ≤ d < dims odometer_2_3 → elt pos' d = 0.
Proof.
  apply (adv_pos_full_cycle odometer_2_3 (zeros 6) [0; 0] 5).
  - constructor; try (vm_compute; intuition congruence).
    intros d Hd. change (0 ≤ d < 2) in Hd.
    assert (d = 0 ∨ d = 1) as [-> | ->] by lia; vm_compute; congruence.
  - vm_compute; congruence.
  - intros d Hd. change (0 ≤ d < 2) in Hd.
    assert (d = 0 ∨ d = 1) as [-> | ->] by lia; vm_compute; split; congruence.
  - vm_compute; reflexivity.
Defined.
(** ** output: a raw mode with boundary trimming *)

(** "reset pos pointer" with trimming: the tuple starts at the lower end
    of the occupied range. *)
Lemma start_pos_window (g : globals) (pos : list Z) :
  omit_outer_zero g = true →
  dims g ≤ Z.of_nat (length pos) →
  dims g ≤ Z.of_nat (length (min_bin_seen g)) →
  ∃ pos', start_pos g pos = Ok pos' ∧ length pos' = length pos ∧
          ∀ d, 0 ≤ d < dims g → elt pos' d = elt (min_bin_seen g) d.
Proof.
  intros Ho Hl Hm. unfold start_pos, for_upto. rewrite Ho.
  edestruct (for_loop_inv
    (λ i (p : list Z), 0 ≤ i ∧ length p = length pos ∧
                       ∀ d, 0 ≤ d < i → elt p d = elt (min_bin_seen g) d))
    as (pos' & Hrun & _ & Hlen & Hz); [| |exists pos'; split; [apply Hrun|]].
  - split; [lia|]. split; [done|]. intros; lia.
  - intros i p Hi (Hi0 & Hlen & Hz).
    rewrite rd_elt by lia. simpl.
    rewrite wr_in_bounds by lia. eexists; split; [reflexivity|].
    split; [lia|]. split; [by rewrite length_insert|].
    intros d Hd. destruct (Z.eq_dec d i) as [->|Hne].
    + apply elt_insert_eq. lia.
    + rewrite elt_insert_ne by lia. apply Hz. lia.
  - split; [done|]. intros d Hd. apply Hz. lia.
Qed.

Lemma flat_index_ext (bins pos pos' : list Z) (D : nat) :
  (∀ d, 0 ≤ d < Z.of_nat D → elt pos d = elt pos' d) →
  flat_index bins pos D = flat_index bins pos' D.
Proof.
  induction D as [|D IH]; intros H; simpl; [done|].
  rewrite IH by (intros; apply H; lia). rewrite H by lia. reflexivity.
Qed.

Lemma elt_fmap (f : Z → Z) (l : list Z) (d : Z) :
  0 ≤ d < Z.of_nat (length l) → elt (f <$> l) d = f (elt l d).
Proof.
  intros H. unfold elt. rewrite list_lookup_fmap.
  destruct (lookup_lt_is_Some_2 l (Z.to_nat d) ltac:(lia)) as [x ->].
  reflexivity.
Qed.

Lemma pad_min_bounds (m b : Z) :
  0 ≤ m < b → b ≤ INT_MAX → 0 ≤ pad_min m < b.
Proof.
  intros Hm Hb. unfold pad_min. destruct (Z.gtb_spec m 0); [|lia].
  rewrite int_wrap_small by (unfold INT_MIN, INT_MAX in *; lia). lia.
Qed.

(** X14. With boundary trimming, a raw mode does not write the whole array:
    the second pass starts at the tuple of the padded lower ends of the
    occupied range and runs from its cell to the last cell of the array
    by rising linear index, so the output is short by that cell's linear
    index in samples. The maximum is still that of the whole array. *)
Theorem raw_trim_starts_at_window (g : globals) (field : list Z) (count : Z)
    (fuel : nat) :
  sound g field →
  raw8 g || raw16 g = true →
  omit_outer_zero g = true →
  occupied_range g →
  (length field ≤ fuel)%nat →
  output fuel g field count
    = raw_samples (if raw8 g then sample8 (fold_left Z.max field 0)
                   else sample16 (fold_left Z.max field 0))
        (drop (Z.to_nat (flat_index (bins g) (pad_min <$> min_bin_seen g)
                           (Z.to_nat (dims g)))) field).
Proof.
  intros Hs Hraw Homit Hocc Hfuel. pose proof (sound_dims g field Hs) as Hd.
  pose proof (sound_min_len g field Hs) as Hml.
  unfold output.
  destruct (first_pass_raw g field fuel Hs Hraw Hfuel) as (pos & Hfp & Hlp).
  rewrite Hfp. simpl.
  destruct (fixup_seen_spec g) as (g' & Hfix & Hc & Hl1 & Hl2 & Hpad);
    [apply (sound_bins_len g field Hs) | done
     | apply (sound_max_len g field Hs) |].
  rewrite Hfix. simpl.
  destruct (same_config_fields g g' Hc)
    as (_ & _ & _ & Eb & Ed & _ & Eo & E8 & E16).
  destruct (start_pos_window g' pos) as (pos' & Hstart & Hlp' & Hz);
    [by rewrite Eo | rewrite Ed, Hlp; unfold MAX_DIM in *; lia
     | rewrite Ed, Hl1; done |].
  rewrite Hstart. simpl.
  assert (Hs' : sound g' field) by (eapply sound_same_config; eauto).
  assert (Hpos' : ∀ d, 0 ≤ d < dims g →
            elt pos' d = elt (pad_min <$> min_bin_seen g) d).
  { intros d Hd'. rewrite Hz by lia. rewrite elt_fmap by lia.
    destruct (Hpad d ltac:(lia)) as [-> _].
    destruct (Z.ltb_spec d (dims g)); [done|lia]. }
  assert (Hv : in_bins (bins g') pos' (dims g')).
  { intros d Hd'. rewrite Ed in Hd'. rewrite Hpos', elt_fmap, Eb by lia.
    apply pad_min_bounds; [|by eapply sound_bin_le].
    destruct (Hocc d Hd'). lia. }
  assert (Hfi : flat_index (bins g') pos' (Z.to_nat (dims g'))
                = flat_index (bins g) (pad_min <$> min_bin_seen g)
                    (Z.to_nat (dims g))).
  { rewrite Eb, Ed. apply flat_index_ext. intros d Hd'. apply Hpos'. lia. }
  assert (HvD : in_bins (bins g') pos' (Z.of_nat (Z.to_nat (dims g')))).
  { intros d Hd'. apply Hv. lia. }
  pose proof (flat_index_bound (bins g') _ (sound_bins_D g' field Hs') pos'
                (Z.to_nat (dims g')) HvD ltac:(lia)) as Hb.
  pose proof (sound_cells g' field Hs') as Hcells.
  rewrite (raw_loop_spec g' field count _ Hs' ltac:(by rewrite E8, E16)
             (Z.to_nat (Z.of_nat (length field)
                        - flat_index (bins g') pos' (Z.to_nat (dims g'))))
             fuel pos').
  - rewrite Hfi. apply raw_samples_ext. intros v.
    destruct (raw8 g) eqn:H8.
    + apply raw_sample_raw8. by rewrite E8.
    + apply raw_sample_raw16; [by rewrite E8 | rewrite E16].
      by destruct (raw16 g).
  - rewrite Hlp', Hlp, Ed. unfold MAX_DIM in *. lia.
  - done.
  - lia.
  - lia.
Qed.

Lemma raw_trim_starts_at_window_witness :
  output 4 (imported cmdline_raw8_strip input_strip).1.1 [0; 0; 0; 1] 1
    = raw_samples (sample8 1) [0; 1].
Proof.
  apply (raw_trim_starts_at_window
           (imported cmdline_raw8_strip input_strip).1.1 [0; 0; 0; 1] 1 4).
  - apply (sound_same_config (configured cmdline_raw8_strip).1 _
             (configured cmdline_raw8_strip).2).
    + apply (configured_sound cmdline_raw8_strip); vm_compute;
        [reflexivity|congruence].
    + vm_compute; reflexivity.
    + vm_compute; reflexivity.
    + vm_compute; reflexivity.
    + vm_compute; reflexivity.
  - vm_compute; reflexivity.
  - vm_compute; reflexivity.
  - intros d Hd. change (0 ≤ d < 2) in Hd.
    assert (d = 0 ∨ d = 1) as [-> | ->] by lia;
      vm_compute; intuition congruence.
  - vm_compute; lia.
Defined.
(** ** output: the lines of the text mode *)

Lemma text_line_spec (g : globals) (field : list Z) (count : Z)
    (pos : list Z) :
  full_arrays g →
  sound g field →
  dims g ≤ Z.of_nat (length pos) →
  in_bins (bins g) pos (dims g) →
  text_line g field count pos = Ok (line_of g field count pos).
Proof.
  intros [] Hs Hlp Hv. pose proof (sound_dims g field Hs) as Hd.
  unfold MAX_DIM in *. unfold text_line, line_of, for_upto.
  rewrite (for_loop_fold (λ d out, out ++ [OutMid (code_midpoint g pos d)])).
  2:{ intros i out Hi. unfold midpoint.
      rewrite (rd_flt (low g)), (rd_elt pos), (rd_flt (hi g)),
        (rd_elt (bins g)) by lia.
      reflexivity. }
  simpl.
  assert (HvD : in_bins (bins g) pos (Z.of_nat (Z.to_nat (dims g)))).
  { intros d Hd'. apply Hv. lia. }
  pose proof (flat_index_bound (bins g) _ (sound_bins_D g field Hs) pos
                (Z.to_nat (dims g)) HvD ltac:(lia)) as Hb.
  pose proof (sound_cells g field Hs). pose proof (sound_fits g field Hs).
  assert (Hget : get_pos field (dims g) (bins g) pos
                 = Ok (elt field (flat_index (bins g) pos
                                     (Z.to_nat (dims g))))).
  { unfold get_pos. rewrite index_of_flat; try done; try lia.
    2:{ unfold LONG_MAX, INT_MAX in *. lia. }
    simpl. by rewrite rd_elt by lia. }
  rewrite Z2Nat.id by lia. rewrite fold_left_snoc_map. simpl.
  destruct (relative g).
  - rewrite (for_loop_fold (λ d acc, (acc * flt (size g) d)%float)).
    2:{ intros i acc Hi. rewrite (rd_flt (size g)) by lia. reflexivity. }
    simpl. rewrite Z2Nat.id by lia. rewrite Hget. reflexivity.
  - rewrite Hget. reflexivity.
Qed.

(** X15. In absolute mode a text line holds the midpoint of the tuple's bin in
    every dimension, computed as [low + ((pos + 0.5) * (hi - low)) / bins],
    and then the count of the tuple's cell as an integer. *)
Theorem text_line_absolute (g : globals) (field : list Z) (count : Z)
    (pos : list Z) :
  full_arrays g →
  sound g field →
  relative g = false →
  dims g ≤ Z.of_nat (length pos) →
  in_bins (bins g) pos (dims g) →
  text_line g field count pos
    = Ok (((λ d, OutMid (code_midpoint g pos d)) <$> seqZ 0 (dims g))
          ++ [OutCount
                (elt field (flat_index (bins g) pos (Z.to_nat (dims g))))]).
Proof.
  intros Hfull Hs Hrel Hlp Hv. rewrite text_line_spec by done.
  unfold line_of. by rewrite Hrel.
Qed.

Lemma text_line_absolute_witness :
  text_line (imported cmdline_1d input_1d).1.1 [2; 3] 5 [1]
    = Ok [OutMid 7.5; OutCount 3].
Proof.
  apply (text_line_absolute (imported cmdline_1d input_1d).1.1 [2; 3] 5 [1]).
  - constructor; vm_compute; reflexivity.
  - apply (sound_same_config (configured cmdline_1d).1 _
             (configured cmdline_1d).2).
    + apply (configured_sound cmdline_1d); vm_compute;
        [reflexivity|congruence].
    + vm_compute; reflexivity.
    + vm_compute; reflexivity.
    + vm_compute; reflexivity.
    + vm_compute; reflexivity.
  - vm_compute; reflexivity.
  - vm_compute; congruence.
  - intros d Hd. change (0 ≤ d < 1) in Hd. assert (d = 0) as -> by lia.
    vm_compute; split; congruence.
Defined.
(** ** output: the whole run of the text mode *)

Lemma text_index_bound (bins pos : list Z) (D k : nat) :
  in_bins bins pos (Z.of_nat D) → (k ≤ D)%nat →
  0 ≤ text_index bins pos k < stride bins k.
Proof.
  intros Hv. induction k as [|k IH]; intros Hk; simpl; [lia|].
  specialize (IH ltac:(lia)). specialize (Hv (Z.of_nat k) ltac:(lia)).
  nia.
Qed.

Lemma text_tuple_length (bins : list Z) (k : nat) (i : Z) :
  length (text_tuple bins k i) = k.
Proof.
  revert i. induction k as [|k IH]; intros i; simpl; [done|].
  rewrite length_app, IH. simpl. lia.
Qed.

Lemma text_tuple_index (bins pos : list Z) (D k : nat) :
  in_bins bins pos (Z.of_nat D) → (k ≤ D)%nat →
  ∀ d, 0 ≤ d < Z.of_nat k →
       elt (text_tuple bins k (text_index bins pos k)) d = elt pos d.
Proof.
  intros Hv. induction k as [|k IH]; intros Hk d Hd; [lia|]. simpl.
  pose proof (Hv (Z.of_nat k) ltac:(lia)) as Hp.
  replace ((text_index bins pos k * elt bins (Z.of_nat k)
            + elt pos (Z.of_nat k)) / elt bins (Z.of_nat k))
    with (text_index bins pos k).
  2:{ rewrite Z.div_add_l by lia. rewrite Z.div_small by lia. lia. }
  replace ((text_index bins pos k * elt bins (Z.of_nat k)
            + elt pos (Z.of_nat k)) mod elt bins (Z.of_nat k))
    with (elt pos (Z.of_nat k)).
  2:{ rewrite Z.add_comm, Z.mod_add by lia. by rewrite Z.mod_small by lia. }
  unfold elt at 1. destruct (decide (d = Z.of_nat k)) as [->|Hne].
  - rewrite lookup_app_r by (rewrite text_tuple_length; lia).
    rewrite text_tuple_length.
    replace (Z.to_nat (Z.of_nat k) - k)%nat with 0%nat by lia. reflexivity.
  - rewrite lookup_app_l by (rewrite text_tuple_length; lia).
    apply IH; lia.
Qed.
Lemma text_index_ext (bins pos pos' : list Z) (D : nat) :
  (∀ d, 0 ≤ d < Z.of_nat D → elt pos d = elt pos' d) →
  text_index bins pos D = text_index bins pos' D.
Proof.
  induction D as [|D IH]; intros H; simpl; [done|].
  rewrite IH by (intros; apply H; lia). rewrite H by lia. reflexivity.
Qed.

Lemma text_index_zero (bins pos : list Z) (D : nat) :
  (∀ d, 0 ≤ d < Z.of_nat D → elt pos d = 0) → text_index bins pos D = 0.
Proof.
  induction D as [|D IH]; intros H; simpl; [done|].
  rewrite IH by (intros; apply H; lia). rewrite H by lia. lia.
Qed.

Lemma line_of_ext (g : globals) (field : list Z) (count : Z)
    (pos pos' : list Z) :
  0 ≤ dims g →
  (∀ d, 0 ≤ d < dims g → elt pos d = elt pos' d) →
  line_of g field count pos = line_of g field count pos'.
Proof.
  intros Hd H. unfold line_of. f_equal.
  - apply Forall_fmap_ext, Forall_seqZ. intros d Hd'.
    unfold code_midpoint. rewrite H by lia. reflexivity.
  - rewrite (flat_index_ext (bins g) pos pos'); [done|].
    intros d Hd'. apply H. lia.
Qed.

Lemma line_of_same_config (g g' : globals) (field : list Z) (count : Z)
    (pos : list Z) :
  same_config g g' → line_of g' field count pos = line_of g field count pos.
Proof. unfold same_config. intros ->. reflexivity. Qed.

Lemma text_output_same_config (g g' : globals) (field : list Z) (count : Z) :
  same_config g g' → text_output g' field count = text_output g field count.
Proof. unfold same_config. intros ->. reflexivity. Qed.

(** "update pos and maybe print a spacer line", without trimming: the
    tuple moves on to the next rank, or from the last rank back to the
    first with [dim < 0]; a blank line is added when the last dimension
    overflowed. *)
Lemma text_adv_loop_spec (g : globals) (field : list Z) :
  sound g field →
  omit_outer_zero g = false →
  ∀ (n : nat) (pos : list Z) (out : list out_item),
  Z.of_nat n ≤ dims g →
  dims g ≤ Z.of_nat (length pos) →
  in_bins (bins g) pos (dims g) →
  ∃ pos' dim,
    text_adv_loop n g pos out
      = Ok (pos',
            out ++ (if (Z.of_nat n =? dims g)
                       && (elt (bins g) (dims g - 1)
                           <=? elt pos (dims g - 1) + 1)
                    then [OutNewline] else []),
            dim) ∧
    length pos' = length pos ∧
    in_bins (bins g) pos' (dims g) ∧
    (∀ d, Z.of_nat n ≤ d → elt pos' d = elt pos d) ∧
    ((0 ≤ dim ∧
      text_index (bins g) pos' n = text_index (bins g) pos n + 1)
     ∨
     (dim = -1 ∧
      text_index (bins g) pos n + 1 = stride (bins g) n ∧
      text_index (bins g) pos' n = 0)).
Proof.
  intros Hs Homit. pose proof (sound_dims g field Hs) as Hd.
  pose proof (sound_bins_len g field Hs) as Hbl.
  pose proof (sound_max_len g field Hs) as Hxl.
  induction n as [|n IH]; intros pos out Hn Hlp Hv.
  - exists pos, (-1). cbn [text_adv_loop text_index stride].
    destruct (Z.eqb_spec (Z.of_nat 0) (dims g)) as [|_]; [lia|].
    cbn [andb]. rewrite app_nil_r. split; [done|]. split; [done|]. split; [done|].
    split; [done|]. right. lia.
  - cbn [text_adv_loop].
    assert (Hnd : 0 ≤ Z.of_nat n < dims g) by lia.
    pose proof (Hv (Z.of_nat n) Hnd) as Hp.
    pose proof (sound_bin_le g field (Z.of_nat n) Hs Hnd) as Hbmax.
    remember (if (Z.of_nat (S n) =? dims g)
                   && (elt (bins g) (dims g - 1) <=? elt pos (dims g - 1) + 1)
              then [OutNewline] else []) as spacer eqn:Hsp.
    rewrite Homit. rewrite (rd_elt pos) by lia. simpl.
    rewrite !int_wrap_small by (unfold INT_MIN, INT_MAX, MAX_DIM in *; lia).
    rewrite (wr_in_bounds pos) by lia. simpl.
    rewrite overflows_spec by lia. rewrite Homit. simpl.
    rewrite orb_false_r.
    set (p := elt pos (Z.of_nat n)) in *.
    set (b := elt (bins g) (Z.of_nat n)) in *.
    destruct (Z.geb_spec (p + 1) b) as [Hover|Hnot].
    + rewrite wr_in_bounds by (rewrite length_insert; lia). simpl.
      rewrite list_insert_insert_eq.
      set (pos2 := <[Z.to_nat (Z.of_nat n) := 0]> pos).
      assert (Hl2 : length pos2 = length pos) by apply length_insert.
      assert (E2 : ∀ d, 0 ≤ d → d ≠ Z.of_nat n → elt pos2 d = elt pos d).
      { intros d Hd0 Hne. apply elt_insert_ne; lia. }
      assert (E2n : elt pos2 (Z.of_nat n) = 0).
      { apply elt_insert_eq. lia. }
      assert (Hv2 : in_bins (bins g) pos2 (dims g)).
      { intros d Hd'. destruct (decide (d = Z.of_nat n)) as [->|Hne].
        - rewrite E2n. fold b. lia.
        - rewrite E2 by lia. by apply Hv. }
      destruct (IH pos2
                  (if Z.of_nat n =? dims g - 1
                   then out ++ [OutNewline] else out))
        as (pos' & dim & Hrun & Hl' & Hv' & Hrest & Hcase);
        [lia|lia|done|].
      rewrite Hrun. exists pos', dim.
      destruct (Z.eqb_spec (Z.of_nat n) (dims g)) as [|_]; [lia|].
      cbn [andb]. rewrite app_nil_r.
      split.
      { f_equal. f_equal. f_equal. subst spacer.
        destruct (Z.eqb_spec (Z.of_nat (S n)) (dims g)) as [E|E].
        - replace (dims g - 1) with (Z.of_nat n) by lia.
          rewrite Z.eqb_refl. fold p b.
          destruct (Z.leb_spec b (p + 1)); [done|lia].
        - destruct (Z.eqb_spec (Z.of_nat n) (dims g - 1)); [lia|].
          cbn [andb]. by rewrite app_nil_r. }
      split; [lia|]. split; [done|].
      split.
      { intros d Hd'. rewrite Hrest by lia. apply E2; lia. }
      assert (Et : text_index (bins g) pos2 n = text_index (bins g) pos n).
      { apply text_index_ext. intros d Hd'. apply E2; lia. }
      assert (En : elt pos' (Z.of_nat n) = 0).
      { rewrite Hrest by lia. done. }
      cbn [text_index stride]. fold p b. rewrite En.
      destruct Hcase as [[Hdim Hti]|(Hdim & Hlast & Hti)].
      * left. split; [done|]. rewrite Hti, Et. lia.
      * right. split; [done|]. rewrite Hti. rewrite Et in Hlast.
        split; [|lia]. nia.
    + exists (<[Z.to_nat (Z.of_nat n) := p + 1]> pos), (Z.of_nat n).
      assert (E1 : ∀ d, 0 ≤ d → d ≠ Z.of_nat n →
                elt (<[Z.to_nat (Z.of_nat n) := p + 1]> pos) d = elt pos d).
      { intros d Hd0 Hne. apply elt_insert_ne; lia. }
      assert (E1n : elt (<[Z.to_nat (Z.of_nat n) := p + 1]> pos) (Z.of_nat n)
                    = p + 1).
      { apply elt_insert_eq. lia. }
      split.
      { f_equal. f_equal. f_equal. subst spacer.
        destruct (Z.eqb_spec (Z.of_nat (S n)) (dims g)) as [E|E];
          [|by rewrite app_nil_r].
        replace (dims g - 1) with (Z.of_nat n) by lia. fold p b.
        destruct (Z.leb_spec b (p + 1)); [lia|]. cbn [andb].
        by rewrite app_nil_r. }
      split; [apply length_insert|].
      split.
      { intros d Hd'. destruct (decide (d = Z.of_nat n)) as [->|Hne].
        - rewrite E1n. fold b. lia.
        - rewrite E1 by lia. by apply Hv. }
      split.
      { intros d Hd'. apply E1; lia. }
      left. split; [lia|]. cbn [text_index]. rewrite E1n. fold p b.
      rewrite (text_index_ext (bins g) _ pos); [lia|].
      intros d Hd'. apply E1; lia.
Qed.
Lemma spacer_of_index (g : globals) (field pos : list Z) :
  sound g field →
  in_bins (bins g) pos (dims g) →
  spacer_of g (text_index (bins g) pos (Z.to_nat (dims g)))
    = if elt (bins g) (dims g - 1) <=? elt pos (dims g - 1) + 1
      then [OutNewline] else [].
Proof.
  intros Hs Hv. pose proof (sound_dims g field Hs) as Hd.
  unfold spacer_of.
  destruct (Z.to_nat (dims g)) as [|D'] eqn:ED; [lia|].
  cbn [text_index]. replace (Z.of_nat D') with (dims g - 1) by lia.
  specialize (Hv (dims g - 1) ltac:(lia)).
  set (p := elt pos (dims g - 1)) in *.
  set (b := elt (bins g) (dims g - 1)) in *.
  replace (text_index (bins g) pos D' * b + p + 1)
    with (p + 1 + text_index (bins g) pos D' * b) by lia.
  rewrite Z.mod_add by lia.
  destruct (Z.leb_spec b (p + 1)).
  - replace (p + 1) with b by lia. rewrite Z.mod_same by lia. reflexivity.
  - rewrite Z.mod_small by lia.
    destruct (Z.eqb_spec (p + 1) 0); [lia|reflexivity].
Qed.

(** The output loop in text mode without trimming, from a tuple of rank
    [r]: the lines of the ranks [r] to [N - 1]. *)
Lemma text_loop_spec (g : globals) (field : list Z) (count max : Z) :
  full_arrays g →
  sound g field →
  raw8 g || raw16 g = false →
  omit_outer_zero g = false →
  ∀ (n fuel : nat) (pos : list Z),
  dims g ≤ Z.of_nat (length pos) →
  in_bins (bins g) pos (dims g) →
  Z.of_nat n = stride (bins g) (Z.to_nat (dims g))
               - text_index (bins g) pos (Z.to_nat (dims g)) →
  (n ≤ fuel)%nat →
  output_loop fuel g field count max pos
    = Ok (k ← seqZ (text_index (bins g) pos (Z.to_nat (dims g))) (Z.of_nat n);
          line_of g field count (text_tuple (bins g) (Z.to_nat (dims g)) k)
            ++ spacer_of g k).
Proof.
  intros Hfull Hs Hraw Homit. pose proof (sound_dims g field Hs) as Hd.
  induction n as [|n IH]; intros fuel pos Hlp Hv Hn Hfuel.
  - assert (HvD : in_bins (bins g) pos (Z.of_nat (Z.to_nat (dims g)))).
    { intros d Hd'. apply Hv. lia. }
    pose proof (text_index_bound (bins g) pos _ (Z.to_nat (dims g)) HvD
                  ltac:(lia)).
    lia.
  - destruct fuel as [|fuel]; [lia|]. cbn [output_loop]. rewrite Hraw.
    rewrite text_line_spec by done. cbn [mbind result_bind].
    unfold text_advance.
    destruct (text_adv_loop_spec g field Hs Homit (Z.to_nat (dims g)) pos [])
      as (pos' & dim & Hrun & Hl' & Hv' & _ & Hcase); [lia|done|done|].
    rewrite Z2Nat.id, Z.eqb_refl in Hrun by lia.
    cbn [andb app] in Hrun.
    rewrite <- (spacer_of_index g field pos Hs Hv) in Hrun.
    rewrite Hrun. cbn [mbind result_bind].
    assert (HvD : in_bins (bins g) pos (Z.of_nat (Z.to_nat (dims g)))).
    { intros d Hd'. apply Hv. lia. }
    assert (Hline : line_of g field count pos
                    = line_of g field count
                        (text_tuple (bins g) (Z.to_nat (dims g))
                           (text_index (bins g) pos (Z.to_nat (dims g))))).
    { apply line_of_ext; [lia|]. intros d Hd'. symmetry.
      apply (text_tuple_index (bins g) pos (Z.to_nat (dims g))); try done; lia. }
    rewrite seqZ_cons by lia. rewrite bind_cons. rewrite <- Hline.
    replace (Z.pred (Z.of_nat (S n))) with (Z.of_nat n) by lia.
    destruct Hcase as [[Hdim Hti]|(Hdim & Hlast & Hti)].
    + destruct (Z.ltb_spec dim 0); [lia|].
      rewrite (IH fuel pos') by (done || lia).
      cbn [mbind result_bind]. rewrite Hti.
      replace (Z.succ (text_index (bins g) pos (Z.to_nat (dims g))))
        with (text_index (bins g) pos (Z.to_nat (dims g)) + 1) by lia.
      by rewrite app_assoc.
    + subst dim. cbn [Z.ltb Z.compare].
      assert (n = 0%nat) as -> by lia.
      change (seqZ _ (Z.of_nat 0)) with (@nil Z).
      by rewrite app_nil_r.
Qed.

Lemma output_text_spec (g : globals) (field : list Z) (count : Z)
    (fuel : nat) :
  full_arrays g →
  sound g field →
  raw8 g || raw16 g = false →
  omit_outer_zero g = false →
  (length field ≤ fuel)%nat →
  output fuel g field count = Ok (text_output g field count).
Proof.
  intros Hfull Hs Hraw Homit Hfuel. pose proof (sound_dims g field Hs) as Hd.
  unfold output, first_pass.
  destruct (reset_pos_spec (dims g) (zeros MAX_DIM)) as (pos & Hreset & Hlp & _).
  { rewrite zeros_length. unfold MAX_DIM in *. lia. }
  rewrite Hreset. cbn [mbind result_bind]. rewrite Hraw.
  cbn [mbind result_bind].
  destruct (fixup_seen_spec g) as (g' & Hfix & Hc & Hl1 & Hl2 & _);
    [apply (sound_bins_len g field Hs) | apply (sound_min_len g field Hs)
     | apply (sound_max_len g field Hs) |].
  rewrite Hfix. cbn [mbind result_bind].
  destruct (same_config_fields g g' Hc)
    as (_ & _ & _ & Eb & Ed & _ & Eo & E8 & E16).
  rewrite zeros_length in Hlp.
  destruct (start_pos_origin g' pos) as (pos' & Hstart & Hlp' & Hz);
    [by rewrite Eo | rewrite Ed, Hlp; unfold MAX_DIM in *; lia |].
  rewrite Hstart. cbn [mbind result_bind].
  assert (Hs' : sound g' field) by (eapply sound_same_config; eauto).
  assert (Hfull' : full_arrays g') by (eapply full_arrays_same_config; eauto).
  assert (Ht0 : text_index (bins g') pos' (Z.to_nat (dims g')) = 0).
  { apply text_index_zero. intros d Hd'. apply Hz. lia. }
  pose proof (sound_cells g' field Hs') as Hcells.
  rewrite (text_loop_spec g' field count 0 Hfull' Hs'
             ltac:(by rewrite E8, E16) ltac:(by rewrite Eo)
             (length field) fuel pos').
  - rewrite Ht0, Hcells. rewrite <- (text_output_same_config g g') by done.
    reflexivity.
  - rewrite Hlp', Hlp, Ed. unfold MAX_DIM in *. lia.
  - intros d Hd'. rewrite Hz by done.
    pose proof (sound_bins g' field Hs' d Hd'). lia.
  - rewrite Ht0. lia.
  - done.
Qed.

(** X16. In text mode without boundary trimming, [output] ends (a loop budget
    of the number of cells is enough) and writes one line per cell, the
    index tuples in row-major order with the last dimension running
    fastest, and a blank line after each run over the last dimension. *)
Theorem text_run_row_major (g : globals) (field : list Z) (count : Z)
    (fuel : nat) :
  full_arrays g →
  sound g field →
  raw8 g || raw16 g = false →
  omit_outer_zero g = false →
  (length field ≤ fuel)%nat →
  output fuel g field count = Ok (text_output g field count).
Proof. apply output_text_spec. Qed.

Lemma text_run_row_major_witness :
  output 4 (imported cmdline_3d input_3d).1.1 [1; 0; 0; 0] 1
    = Ok [OutMid 1; OutMid 0.5; OutMid 0.5; OutCount 1;
          OutMid 1; OutMid 0.5; OutMid 1.5; OutCount 0; OutNewline;
          OutMid 1; OutMid 1.5; OutMid 0.5; OutCount 0;
          OutMid 1; OutMid 1.5; OutMid 1.5; OutCount 0; OutNewline].
Proof.
  apply (text_run_row_major (imported cmdline_3d input_3d).1.1
           [1; 0; 0; 0] 1 4).
  - constructor; vm_compute; reflexivity.
  - apply (sound_same_config (configured cmdline_3d).1 _
             (configured cmdline_3d).2).
    + apply (configured_sound cmdline_3d); vm_compute;
        [reflexivity|congruence].
    + vm_compute; reflexivity.
    + vm_compute; reflexivity.
    + vm_compute; reflexivity.
    + vm_compute; reflexivity.
  - vm_compute; reflexivity.
  - vm_compute; reflexivity.
  - vm_compute; lia.
Defined.
(** ** main: a whole run in text mode *)

(** X17. A whole run in text mode without trimming: for an accepted command
    line and an input whose accepted tuples get bin indices within the
    bin counts, at least one of them accepted, the program ends with
    status 0; what it writes is the text output of an array of as many
    cells as the product of the bin counts, whose cells add up to the
    number of accepted tuples, the relative values taken over the number
    of tuples read. *)
Theorem main_text_run (fuel : nat) (cl : cmdline) (g : globals)
    (stdin : list line) :
  parseOptions initial_globals cl = Ok (0, g) →
  raw8 g || raw16 g = false →
  omit_outer_zero g = false →
  stride (bins g) (Z.to_nat (dims g)) ≤ INT_MAX →
  Z.of_nat (length stdin) ≤ INT_MAX →
  Forall (line_binnable (configured cl).1) stdin →
  0 < accepted g stdin →
  (Z.to_nat (stride (bins g) (Z.to_nat (dims g))) ≤ fuel)%nat →
  ∃ field rest,
    main fuel cl stdin
      = Ok (0, text_output (configured cl).1 field (tuples_read g stdin),
            rest) ∧
    Z.of_nat (length field) = stride (bins g) (Z.to_nat (dims g)) ∧
    Forall (λ c, 0 ≤ c) field ∧
    Zsum field = accepted g stdin.
Proof.
  intros Hparse Hraw Homit Hfit Hlen Hall Hacc Hfuel.
  destruct (setup_sound cl g Hparse Hfit)
    as (g0 & Hsetup & Hopt & Hfull & Hsound & _).
  assert (Hconf : configured cl = (g0, zeros (stride (bins g)
                                                (Z.to_nat (dims g))))).
  { unfold configured, parsed. by rewrite Hparse, Hsetup. }
  rewrite Hconf in *. cbn [fst] in *.
  destruct (same_options_fields g g0 Hopt)
    as (_ & _ & Eb0 & Ed0 & _ & Eo0 & E80 & E160).
  pose proof (sound_dims _ _ Hsound) as Hd.
  set (N := stride (bins g) (Z.to_nat (dims g))) in *.
  set (st := ImportState g0 (zeros N) 0 0 (zeros MAX_DIM)).
  destruct (import_loop_total stdin st) as (st' & rest & Hloop); try done.
  { change (dims g0 ≤ Z.of_nat (length (zeros MAX_DIM))).
    rewrite zeros_length. unfold MAX_DIM in *. lia. }
  destruct (import_loop_spec stdin st st' rest Hloop)
    as ((Hnn & Hsum & Hoor) & Hc & Hlf & Hl1 & Hl2 & Hcount & Hdiff).
  { apply counted_zeros. }
  { simpl. lia. }
  simpl in Hc, Hlf, Hl1, Hl2, Hcount, Hdiff.
  rewrite (accepted_same_options g g0) in Hdiff by done.
  rewrite (tuples_read_dims g g0) in Hcount by done.
  pose proof (tuples_read_bound g stdin) as Htr.
  destruct (same_config_fields _ _ Hc)
    as (_ & _ & _ & Eb & Ed & _ & Eo & E8 & E16).
  exists (ist_field st'), rest.
  unfold main. rewrite Hparse. simpl. rewrite Hsetup. simpl.
  unfold import. fold st. rewrite Hloop. simpl.
  rewrite int_wrap_small by (unfold INT_MIN, INT_MAX in *; lia).
  destruct (Z.leb_spec (ist_count st' - ist_oor st') 0) as [|_]; [lia|].
  simpl.
  rewrite (output_text_spec (ist_globals st') (ist_field st')).
  - simpl. rewrite (text_output_same_config g0 (ist_globals st')) by done.
    replace (ist_count st') with (tuples_read g stdin) by lia.
    split; [done|]. split.
    { rewrite Hlf, zeros_length.
      pose proof (sound_fits _ _ Hsound).
      pose proof (stride_pos (bins g0) _ (sound_bins_D _ _ Hsound)
                    (Z.to_nat (dims g0)) ltac:(lia)) as Hpos.
      rewrite Eb0, Ed0 in Hpos. fold N in Hpos. lia. }
    split; [done|]. lia.
  - by eapply full_arrays_same_config.
  - by eapply sound_same_config.
  - by rewrite E8, E16, E80, E160.
  - by rewrite Eo, Eo0.
  - rewrite Hlf, zeros_length. done.
Qed.

Lemma main_text_run_witness :
  ∃ field rest,
    main 2 cmdline_1d input_1d
      = Ok (0, text_output (configured cmdline_1d).1 field
                 (tuples_read (parsed cmdline_1d) input_1d), rest) ∧
    Z.of_nat (length field)
      = stride (bins (parsed cmdline_1d))
          (Z.to_nat (dims (parsed cmdline_1d))) ∧
    Forall (λ c, 0 ≤ c) field ∧
    Zsum field = accepted (parsed cmdline_1d) input_1d.
Proof.
  apply (main_text_run 2 cmdline_1d (parsed cmdline_1d) input_1d).
  - vm_compute; reflexivity.
  - vm_compute; reflexivity.
  - vm_compute; reflexivity.
  - vm_compute; congruence.
  - vm_compute; congruence.
  - apply line_binnable_b_sound; vm_compute; reflexivity.
  - vm_compute; reflexivity.
  - vm_compute; lia.
Defined.

(** ** output: the padding step on an occupied range *)

Lemma pad_max_bounds (m b : Z) :
  0 ≤ m < b → b ≤ INT_MAX → m ≤ pad_max m b < b.
Proof.
  intros Hm Hb. unfold pad_max.
  rewrite !int_wrap_small by (unfold INT_MIN, INT_MAX in *; lia).
  destruct (Z.ltb_spec m (b - 1)); lia.
Qed.

Lemma fixup_seen_occupied (g g' : globals) (field : list Z) :
  sound g field →
  occupied_range g →
  fixup_seen g = Ok g' →
  occupied_range g'.
Proof.
  intros Hs Hocc H.
  destruct (fixup_seen_spec g) as (g1 & Hfix & Hc & _ & _ & Hpad);
    [apply (sound_bins_len g field Hs) | apply (sound_min_len g field Hs)
     | apply (sound_max_len g field Hs) |].
  rewrite Hfix in H. inv_Ok H.
  destruct (same_config_fields _ _ Hc) as (_ & _ & _ & Eb & Ed & _).
  intros d Hd. rewrite Ed in Hd. rewrite Eb.
  destruct (Hpad d ltac:(lia)) as [-> ->].
  destruct (Z.ltb_spec d (dims g)); [|lia].
  destruct (Hocc d Hd) as (H0 & H1 & H2).
  pose proof (sound_bin_le g field d Hs Hd) as Hb.
  pose proof (pad_min_bounds (elt (min_bin_seen g) d) (elt (bins g) d)
                ltac:(lia) Hb).
  pose proof (pad_max_bounds (elt (max_bin_seen g) d) (elt (bins g) d)
                ltac:(lia) Hb).
  assert (pad_min (elt (min_bin_seen g) d) ≤ elt (min_bin_seen g) d).
  { unfold pad_min. destruct (Z.gtb_spec (elt (min_bin_seen g) d) 0); [|lia].
    rewrite int_wrap_small by (unfold INT_MIN, INT_MAX in *; lia). lia. }
  lia.
Qed.

(** X18. The padding step keeps the trackers a range of bins: after it, still
    [0 <= min <= max < bins] in every dimension, so that the start tuple
    of a trimmed run lies in the array. *)
Theorem padding_keeps_occupied_range (g g' : globals) (field : list Z) :
  sound g field →
  occupied_range g →
  fixup_seen g = Ok g' →
  occupied_range g'.
Proof. apply fixup_seen_occupied. Qed.

Lemma padding_keeps_occupied_range_witness :
  occupied_range
    (set_seen [6] [8] (imported cmdline_trim input_bin7).1.1).
Proof.
  apply (padding_keeps_occupied_range
           (set_seen [7] [7] (imported cmdline_trim input_bin7).1.1)
           (set_seen [6] [8] (imported cmdline_trim input_bin7).1.1)
           (imported cmdline_trim input_bin7).1.2).
  - constructor; try (vm_compute; intuition congruence).
    intros d Hd. change (0 ≤ d < 1) in Hd. assert (d = 0) as -> by lia.
    vm_compute; congruence.
  - intros d Hd. change (0 ≤ d < 1) in Hd. assert (d = 0) as -> by lia.
    vm_compute; intuition congruence.
  - vm_compute; reflexivity.
Defined.
(** ** output: the whole run of the text mode with boundary trimming *)

Lemma window_width_pos (g : globals) (d : Z) :
  occupied_range g → 0 ≤ d < dims g →
  1 ≤ window_width g d ≤ elt (bins g) d.
Proof.
  intros Hocc Hd. destruct (Hocc d Hd) as (H0 & H1 & H2).
  unfold window_width. lia.
Qed.

Lemma window_cells_bound (g : globals) (k : nat) :
  occupied_range g → Z.of_nat k ≤ dims g →
  1 ≤ window_cells g k ≤ stride (bins g) k.
Proof.
  intros Hocc. induction k as [|k IH]; intros Hk; simpl; [lia|].
  specialize (IH ltac:(lia)).
  pose proof (window_width_pos g (Z.of_nat k) Hocc ltac:(lia)). nia.
Qed.

Lemma window_index_bound (g : globals) (pos : list Z) (k : nat) :
  occupied_range g → in_window g pos → Z.of_nat k ≤ dims g →
  0 ≤ window_index g pos k < window_cells g k.
Proof.
  intros Hocc Hw. induction k as [|k IH]; intros Hk; simpl; [lia|].
  specialize (IH ltac:(lia)). specialize (Hw (Z.of_nat k) ltac:(lia)).
  pose proof (window_width_pos g (Z.of_nat k) Hocc ltac:(lia)).
  unfold window_width in *. nia.
Qed.

Lemma window_tuple_length (g : globals) (k : nat) (i : Z) :
  length (window_tuple g k i) = k.
Proof.
  revert i. induction k as [|k IH]; intros i; simpl; [done|].
  rewrite length_app, IH. simpl. lia.
Qed.

Lemma window_tuple_index (g : globals) (pos : list Z) (k : nat) :
  occupied_range g → in_window g pos → Z.of_nat k ≤ dims g →
  ∀ d, 0 ≤ d < Z.of_nat k →
       elt (window_tuple g k (window_index g pos k)) d = elt pos d.
Proof.
  intros Hocc Hw. induction k as [|k IH]; intros Hk d Hd; [lia|]. simpl.
  pose proof (Hw (Z.of_nat k) ltac:(lia)) as Hp.
  pose proof (window_width_pos g (Z.of_nat k) Hocc ltac:(lia)) as Hww.
  set (w := window_width g (Z.of_nat k)) in *.
  set (q := elt pos (Z.of_nat k) - elt (min_bin_seen g) (Z.of_nat k)).
  assert (Hq : 0 ≤ q < w) by (unfold q, w, window_width in *; lia).
  replace ((window_index g pos k * w + q) / w) with (window_index g pos k).
  2:{ rewrite Z.div_add_l by lia. rewrite Z.div_small by lia. lia. }
  replace ((window_index g pos k * w + q) mod w) with q.
  2:{ rewrite Z.add_comm, Z.mod_add by lia. by rewrite Z.mod_small by lia. }
  unfold elt at 1. destruct (decide (d = Z.of_nat k)) as [->|Hne].
  - rewrite lookup_app_r by (rewrite window_tuple_length; lia).
    rewrite window_tuple_length.
    replace (Z.to_nat (Z.of_nat k) - k)%nat with 0%nat by lia.
    simpl. unfold q. lia.
  - rewrite lookup_app_l by (rewrite window_tuple_length; lia).
    apply IH; lia.
Qed.

Lemma window_index_ext (g : globals) (pos pos' : list Z) (D : nat) :
  (∀ d, 0 ≤ d < Z.of_nat D → elt pos d = elt pos' d) →
  window_index g pos D = window_index g pos' D.
Proof.
  induction D as [|D IH]; intros H; simpl; [done|].
  rewrite IH by (intros; apply H; lia). rewrite H by lia. reflexivity.
Qed.

Lemma window_index_start (g : globals) (pos : list Z) (D : nat) :
  (∀ d, 0 ≤ d < Z.of_nat D → elt pos d = elt (min_bin_seen g) d) →
  window_index g pos D = 0.
Proof.
  induction D as [|D IH]; intros H; simpl; [done|].
  rewrite IH by (intros; apply H; lia). rewrite H by lia. lia.
Qed.

Lemma in_window_in_bins (g : globals) (pos : list Z) :
  occupied_range g → in_window g pos → in_bins (bins g) pos (dims g).
Proof.
  intros Hocc Hw d Hd. specialize (Hocc d Hd). specialize (Hw d Hd). lia.
Qed.

(** "update pos and maybe print a spacer line", with trimming: the tuple
    moves on to the next rank of the occupied range, or from its last
    rank back to its first with [dim < 0]. *)
Lemma text_adv_loop_trim (g : globals) (field : list Z) :
  sound g field →
  omit_outer_zero g = true →
  occupied_range g →
  ∀ (n : nat) (pos : list Z) (out : list out_item),
  Z.of_nat n ≤ dims g →
  dims g ≤ Z.of_nat (length pos) →
  in_window g pos →
  ∃ pos' dim,
    text_adv_loop n g pos out
      = Ok (pos',
            out ++ (if (Z.of_nat n =? dims g)
                       && (elt (max_bin_seen g) (dims g - 1)
                           <? elt pos (dims g - 1) + 1)
                    then [OutNewline] else []),
            dim) ∧
    length pos' = length pos ∧
    in_window g pos' ∧
    (∀ d, Z.of_nat n ≤ d → elt pos' d = elt pos d) ∧
    ((0 ≤ dim ∧ window_index g pos' n = window_index g pos n + 1)
     ∨
     (dim = -1 ∧
      window_index g pos n + 1 = window_cells g n ∧
      window_index g pos' n = 0)).
Proof.
  intros Hs Homit Hocc. pose proof (sound_dims g field Hs) as Hd.
  pose proof (sound_bins_len g field Hs) as Hbl.
  pose proof (sound_min_len g field Hs) as Hnl.
  pose proof (sound_max_len g field Hs) as Hxl.
  induction n as [|n IH]; intros pos out Hn Hlp Hv.
  - exists pos, (-1). cbn [text_adv_loop window_index window_cells].
    destruct (Z.eqb_spec (Z.of_nat 0) (dims g)) as [|_]; [lia|].
    cbn [andb]. rewrite app_nil_r. split; [done|]. split; [done|].
    split; [done|]. split; [done|]. right. lia.
  - cbn [text_adv_loop].
    assert (Hnd : 0 ≤ Z.of_nat n < dims g) by lia.
    pose proof (Hv (Z.of_nat n) Hnd) as Hp.
    pose proof (Hocc (Z.of_nat n) Hnd) as (Ho0 & Ho1 & Ho2).
    pose proof (sound_bin_le g field (Z.of_nat n) Hs Hnd) as Hbmax.
    remember (if (Z.of_nat (S n) =? dims g)
                   && (elt (max_bin_seen g) (dims g - 1)
                       <? elt pos (dims g - 1) + 1)
              then [OutNewline] else []) as spacer eqn:Hsp.
    rewrite Homit. rewrite (rd_elt pos) by lia. simpl.
    rewrite !int_wrap_small by (unfold INT_MIN, INT_MAX, MAX_DIM in *; lia).
    rewrite (wr_in_bounds pos) by lia. simpl.
    rewrite overflows_spec by lia. rewrite Homit. simpl.
    set (p := elt pos (Z.of_nat n)) in *.
    set (b := elt (bins g) (Z.of_nat n)) in *.
    set (lo := elt (min_bin_seen g) (Z.of_nat n)) in *.
    set (hi := elt (max_bin_seen g) (Z.of_nat n)) in *.
    assert (Hov : (p + 1 >=? b) || (p + 1 >? hi) = (p + 1 >? hi)).
    { destruct (Z.geb_spec (p + 1) b), (Z.gtb_spec (p + 1) hi);
        simpl; try done; lia. }
    rewrite Hov.
    destruct (Z.gtb_spec (p + 1) hi) as [Hover|Hnot].
    + rewrite (rd_elt (min_bin_seen g)) by lia. simpl. fold lo.
      rewrite wr_in_bounds by (rewrite length_insert; lia). simpl.
      rewrite list_insert_insert_eq.
      set (pos2 := <[Z.to_nat (Z.of_nat n) := lo]> pos).
      assert (Hl2 : length pos2 = length pos) by apply length_insert.
      assert (E2 : ∀ d, 0 ≤ d → d ≠ Z.of_nat n → elt pos2 d = elt pos d).
      { intros d Hd0 Hne. apply elt_insert_ne; lia. }
      assert (E2n : elt pos2 (Z.of_nat n) = lo).
      { apply elt_insert_eq. lia. }
      assert (Hv2 : in_window g pos2).
      { intros d Hd'. destruct (decide (d = Z.of_nat n)) as [->|Hne].
        - rewrite E2n. fold lo hi. lia.
        - rewrite E2 by lia. by apply Hv. }
      destruct (IH pos2
                  (if Z.of_nat n =? dims g - 1
                   then out ++ [OutNewline] else out))
        as (pos' & dim & Hrun & Hl' & Hv' & Hrest & Hcase);
        [lia|lia|done|].
      rewrite Hrun. exists pos', dim.
      destruct (Z.eqb_spec (Z.of_nat n) (dims g)) as [|_]; [lia|].
      cbn [andb]. rewrite app_nil_r.
      split.
      { f_equal. f_equal. f_equal. subst spacer.
        destruct (Z.eqb_spec (Z.of_nat (S n)) (dims g)) as [E|E].
        - replace (dims g - 1) with (Z.of_nat n) by lia.
          rewrite Z.eqb_refl. fold p hi.
          destruct (Z.ltb_spec hi (p + 1)); [done|lia].
        - destruct (Z.eqb_spec (Z.of_nat n) (dims g - 1)); [lia|].
          cbn [andb]. by rewrite app_nil_r. }
      split; [lia|]. split; [done|].
      split.
      { intros d Hd'. rewrite Hrest by lia. apply E2; lia. }
      assert (Et : window_index g pos2 n = window_index g pos n).
      { apply window_index_ext. intros d Hd'. apply E2; lia. }
      assert (En : elt pos' (Z.of_nat n) = lo).
      { rewrite Hrest by lia. done. }
      cbn [window_index window_cells]. unfold window_width. fold p lo hi.
      rewrite En.
      destruct Hcase as [[Hdim Hti]|(Hdim & Hlast & Hti)].
      * left. split; [done|]. rewrite Hti, Et. lia.
      * right. split; [done|]. rewrite Hti. rewrite Et in Hlast.
        split; [|lia]. nia.
    + exists (<[Z.to_nat (Z.of_nat n) := p + 1]> pos), (Z.of_nat n).
      assert (E1 : ∀ d, 0 ≤ d → d ≠ Z.of_nat n →
                elt (<[Z.to_nat (Z.of_nat n) := p + 1]> pos) d = elt pos d).
      { intros d Hd0 Hne. apply elt_insert_ne; lia. }
      assert (E1n : elt (<[Z.to_nat (Z.of_nat n) := p + 1]> pos) (Z.of_nat n)
                    = p + 1).
      { apply elt_insert_eq. lia. }
      split.
      { f_equal. f_equal. f_equal. subst spacer.
        destruct (Z.eqb_spec (Z.of_nat (S n)) (dims g)) as [E|E];
          [|by rewrite app_nil_r].
        replace (dims g - 1) with (Z.of_nat n) by lia. fold p hi.
        destruct (Z.ltb_spec hi (p + 1)); [lia|]. cbn [andb].
        by rewrite app_nil_r. }
      split; [apply length_insert|].
      split.
      { intros d Hd'. destruct (decide (d = Z.of_nat n)) as [->|Hne].
        - rewrite E1n. fold lo hi. lia.
        - rewrite E1 by lia. by apply Hv. }
      split.
      { intros d Hd'. apply E1; lia. }
      left. split; [lia|]. cbn [window_index]. rewrite E1n. fold p lo.
      rewrite (window_index_ext g _ pos); [lia|].
      intros d Hd'. apply E1; lia.
Qed.

Lemma window_spacer_index (g : globals) (field pos : list Z) :
  sound g field →
  occupied_range g →
  in_window g pos →
  window_spacer g (window_index g pos (Z.to_nat (dims g)))
    = if elt (max_bin_seen g) (dims g - 1) <? elt pos (dims g - 1) + 1
      then [OutNewline] else [].
Proof.
  intros Hs Hocc Hv. pose proof (sound_dims g field Hs) as Hd.
  unfold window_spacer.
  destruct (Z.to_nat (dims g)) as [|D'] eqn:ED; [lia|].
  cbn [window_index]. replace (Z.of_nat D') with (dims g - 1) by lia.
  specialize (Hv (dims g - 1) ltac:(lia)).
  pose proof (window_width_pos g (dims g - 1) Hocc ltac:(lia)) as Hw.
  set (w := window_width g (dims g - 1)) in *.
  set (q := elt pos (dims g - 1) - elt (min_bin_seen g) (dims g - 1)).
  replace (window_index g pos D' * w + q + 1)
    with (q + 1 + window_index g pos D' * w) by lia.
  rewrite Z.mod_add by lia.
  destruct (Z.ltb_spec (elt (max_bin_seen g) (dims g - 1))
              (elt pos (dims g - 1) + 1)).
  - replace (q + 1) with w by (unfold q, w, window_width; lia).
    rewrite Z.mod_same by lia. reflexivity.
  - rewrite Z.mod_small by (unfold q, w, window_width in *; lia).
    destruct (Z.eqb_spec (q + 1) 0); [unfold q in *; lia|reflexivity].
Qed.

Lemma text_loop_trim (g : globals) (field : list Z) (count max : Z) :
  full_arrays g →
  sound g field →
  raw8 g || raw16 g = false →
  omit_outer_zero g = true →
  occupied_range g →
  ∀ (n fuel : nat) (pos : list Z),
  dims g ≤ Z.of_nat (length pos) →
  in_window g pos →
  Z.of_nat n = window_cells g (Z.to_nat (dims g))
               - window_index g pos (Z.to_nat (dims g)) →
  (n ≤ fuel)%nat →
  output_loop fuel g field count max pos
    = Ok (k ← seqZ (window_index g pos (Z.to_nat (dims g))) (Z.of_nat n);
          line_of g field count (window_tuple g (Z.to_nat (dims g)) k)
            ++ window_spacer g k).
Proof.
  intros Hfull Hs Hraw Homit Hocc. pose proof (sound_dims g field Hs) as Hd.
  induction n as [|n IH]; intros fuel pos Hlp Hv Hn Hfuel.
  - pose proof (window_index_bound g pos (Z.to_nat (dims g)) Hocc Hv
                  ltac:(lia)).
    lia.
  - destruct fuel as [|fuel]; [lia|]. cbn [output_loop]. rewrite Hraw.
    rewrite text_line_spec by (done || by apply in_window_in_bins).
    cbn [mbind result_bind]. unfold text_advance.
    destruct (text_adv_loop_trim g field Hs Homit Hocc (Z.to_nat (dims g))
                pos [])
      as (pos' & dim & Hrun & Hl' & Hv' & _ & Hcase); [lia|done|done|].
    rewrite Z2Nat.id, Z.eqb_refl in Hrun by lia.
    cbn [andb app] in Hrun.
    rewrite <- (window_spacer_index g field pos Hs Hocc Hv) in Hrun.
    rewrite Hrun. cbn [mbind result_bind].
    assert (Hline : line_of g field count pos
                    = line_of g field count
                        (window_tuple g (Z.to_nat (dims g))
                           (window_index g pos (Z.to_nat (dims g))))).
    { apply line_of_ext; [lia|]. intros d Hd'. symmetry.
      apply window_tuple_index; try done; lia. }
    rewrite seqZ_cons by lia. rewrite bind_cons. rewrite <- Hline.
    replace (Z.pred (Z.of_nat (S n))) with (Z.of_nat n) by lia.
    destruct Hcase as [[Hdim Hti]|(Hdim & Hlast & Hti)].
    + destruct (Z.ltb_spec dim 0); [lia|].
      rewrite (IH fuel pos') by (done || lia).
      cbn [mbind result_bind]. rewrite Hti.
      replace (Z.succ (window_index g pos (Z.to_nat (dims g))))
        with (window_index g pos (Z.to_nat (dims g)) + 1) by lia.
      by rewrite app_assoc.
    + subst dim. cbn [Z.ltb Z.compare].
      assert (n = 0%nat) as -> by lia.
      change (seqZ _ (Z.of_nat 0)) with (@nil Z).
      by rewrite app_nil_r.
Qed.
(** X19. In text mode with boundary trimming, [output] ends (a loop budget of
    the number of cells is enough) and writes the lines of the index
    tuples of the padded occupied range only, in row-major order with
    the last dimension running fastest, and a blank line after each run
    over the last dimension of that range. *)
Theorem text_run_trimmed (g : globals) (field : list Z) (count : Z)
    (fuel : nat) :
  full_arrays g →
  sound g field →
  raw8 g || raw16 g = false →
  omit_outer_zero g = true →
  occupied_range g →
  (length field ≤ fuel)%nat →
  output fuel g field count = Ok (trimmed_output (padded g) field count).
Proof.
  intros Hfull Hs Hraw Homit Hocc Hfuel.
  pose proof (sound_dims g field Hs) as Hd.
  unfold output, first_pass.
  destruct (reset_pos_spec (dims g) (zeros MAX_DIM)) as (pos & Hreset & Hlp & _).
  { rewrite zeros_length. unfold MAX_DIM in *. lia. }
  rewrite Hreset. cbn [mbind result_bind]. rewrite Hraw.
  cbn [mbind result_bind].
  destruct (fixup_seen_spec g) as (g' & Hfix & Hc & Hl1 & Hl2 & _);
    [apply (sound_bins_len g field Hs) | apply (sound_min_len g field Hs)
     | apply (sound_max_len g field Hs) |].
  unfold padded. rewrite Hfix. cbn [mbind result_bind].
  destruct (same_config_fields g g' Hc)
    as (_ & _ & _ & Eb & Ed & _ & Eo & E8 & E16).
  rewrite zeros_length in Hlp.
  assert (Hs' : sound g' field) by (eapply sound_same_config; eauto).
  assert (Hfull' : full_arrays g') by (eapply full_arrays_same_config; eauto).
  assert (Hocc' : occupied_range g')
    by apply (fixup_seen_occupied g g' field Hs Hocc Hfix).
  destruct (start_pos_window g' pos) as (pos' & Hstart & Hlp' & Hz);
    [by rewrite Eo | rewrite Ed, Hlp; unfold MAX_DIM in *; lia
     | apply (sound_min_len g' field Hs') |].
  rewrite Hstart. cbn [mbind result_bind].
  assert (Ht0 : window_index g' pos' (Z.to_nat (dims g')) = 0).
  { apply window_index_start. intros d Hd'. apply Hz. lia. }
  assert (Hw' : in_window g' pos').
  { intros d Hd'. rewrite Hz by done. destruct (Hocc' d Hd'). lia. }
  pose proof (window_cells_bound g' (Z.to_nat (dims g')) Hocc' ltac:(lia))
    as Hcells.
  pose proof (sound_cells g' field Hs') as Hlen.
  rewrite (text_loop_trim g' field count 0 Hfull' Hs'
             ltac:(by rewrite E8, E16) ltac:(by rewrite Eo) Hocc'
             (Z.to_nat (window_cells g' (Z.to_nat (dims g')))) fuel pos').
  - rewrite Ht0, Z2Nat.id by lia. reflexivity.
  - rewrite Hlp', Hlp, Ed. unfold MAX_DIM in *. lia.
  - done.
  - rewrite Ht0. lia.
  - lia.
Qed.

Lemma text_run_trimmed_witness :
  output 10 (imported cmdline_trim input_bin7).1.1
    (imported cmdline_trim input_bin7).1.2 1
    = Ok [OutMid 6.5; OutCount 0; OutMid 7.5; OutCount 1;
          OutMid 8.5; OutCount 0; OutNewline].
Proof.
  apply (text_run_trimmed (imported cmdline_trim input_bin7).1.1
           (imported cmdline_trim input_bin7).1.2 1 10).
  - constructor; vm_compute; reflexivity.
  - apply (sound_same_config (configured cmdline_trim).1 _
             (configured cmdline_trim).2).
    + apply (configured_sound cmdline_trim); vm_compute;
        [reflexivity|congruence].
    + vm_compute; reflexivity.
    + vm_compute; reflexivity.
    + vm_compute; reflexivity.
    + vm_compute; reflexivity.
  - vm_compute; reflexivity.
  - vm_compute; reflexivity.
  - intros d Hd. change (0 ≤ d < 1) in Hd. assert (d = 0) as -> by lia.
    vm_compute; intuition congruence.
  - vm_compute; lia.
Defined.
(** ** main: the set-up, the exit status, a whole run in a raw mode *)

(** X20. Between [parseOptions] and [import], [main] leaves the options as
    they are, stores the bin size [(hi - low) / bins] of every dimension,
    allocates as many zeroed cells as the product of the bin counts and
    sets the trackers of every dimension to [INT_MAX] and [-1]. *)
Theorem main_prepares_array (cl : cmdline) (g : globals) :
  parseOptions initial_globals cl = Ok (0, g) →
  stride (bins g) (Z.to_nat (dims g)) ≤ INT_MAX →
  ∃ g',
    setup g = Ok (g', zeros (stride (bins g) (Z.to_nat (dims g)))) ∧
    same_options g g' ∧
    (∀ d, 0 ≤ d < dims g → size g' !! Z.to_nat d = bin_width g d) ∧
    unoccupied g'.
Proof.
  intros Hparse Hfit.
  destruct (setup_sound cl g Hparse Hfit)
    as (g' & Hsetup & Hopt & _ & _ & Hsize & Hseen).
  exists g'. split; [done|]. split; [done|]. split; [done|].
  intros d Hd. apply Hseen.
  destruct (same_options_fields g g' Hopt) as (_ & _ & _ & Ed & _).
  by rewrite <- Ed.
Qed.

Lemma main_prepares_array_witness :
  ∃ g',
    setup (parsed cmdline_3d)
      = Ok (g', zeros (stride (bins (parsed cmdline_3d))
                         (Z.to_nat (dims (parsed cmdline_3d))))) ∧
    same_options (parsed cmdline_3d) g' ∧
    (∀ d, 0 ≤ d < dims (parsed cmdline_3d) →
          size g' !! Z.to_nat d = bin_width (parsed cmdline_3d) d) ∧
    unoccupied g'.
Proof.
  apply (main_prepares_array cmdline_3d (parsed cmdline_3d)).
  - vm_compute; reflexivity.
  - vm_compute; congruence.
Defined.

(** X21. Whatever the command line and the input, the exit status is 0 or 1,
    and a run that leaves with status 1 has written nothing to the
    standard output. *)
Theorem main_status_and_output (fuel : nat) (cl : cmdline)
    (stdin rest : list line) (rc : Z) (out : list out_item) :
  main fuel cl stdin = Ok (rc, out, rest) →
  rc = 0 ∨ (rc = 1 ∧ out = []).
Proof.
  unfold main. intros H. inv_bind H. destruct a as [rc0 g].
  destruct (negb (rc0 =? 0)); [inv_Ok H; by right|].
  inv_bind H. destruct a as [g' field]. inv_bind H.
  destruct a as [status rest'|g'' field' count rest'].
  - unfold import in *.
    match goal with
    | Hi : _ ≫= _ = Ok (ImportExit _ _) |- _ =>
        inv_bind Hi; destruct a as [st r];
        destruct (int_wrap _ <=? 0); [inv_Ok Hi|discriminate Hi]
    end.
    inv_Ok H. by right.
  - inv_bind H. inv_Ok H. by left.
Qed.

Lemma main_status_and_output_witness :
  (1 = 0 ∨ (1 = 1 ∧ @nil out_item = [])).
Proof.
  apply (main_status_and_output 4 cmdline_no_bins input_1d input_1d 1 []).
  vm_compute; reflexivity.
Defined.

Lemma output_raw_spec (g : globals) (field : list Z) (count : Z)
    (fuel : nat) :
  sound g field →
  raw8 g || raw16 g = true →
  omit_outer_zero g = false →
  (length field ≤ fuel)%nat →
  output fuel g field count
    = raw_samples (if raw8 g then sample8 (fold_left Z.max field 0)
                   else sample16 (fold_left Z.max field 0)) field.
Proof.
  intros Hs Hraw Homit Hfuel. pose proof (sound_dims g field Hs) as Hd.
  unfold output.
  destruct (first_pass_raw g field fuel Hs Hraw Hfuel) as (pos & Hfp & Hlp).
  rewrite Hfp. simpl.
  destruct (fixup_seen_spec g) as (g' & Hfix & Hc & Hl1 & Hl2 & _);
    [apply (sound_bins_len g field Hs) | apply (sound_min_len g field Hs)
     | apply (sound_max_len g field Hs) |].
  rewrite Hfix. simpl.
  destruct (same_config_fields g g' Hc)
    as (_ & _ & _ & Eb & Ed & _ & Eo & E8 & E16).
  destruct (start_pos_origin g' pos) as (pos' & Hstart & Hlp' & Hz);
    [by rewrite Eo | rewrite Ed, Hlp; unfold MAX_DIM in *; lia |].
  rewrite Hstart. simpl.
  assert (Hs' : sound g' field) by (eapply sound_same_config; eauto).
  assert (Hf0 : flat_index (bins g') pos' (Z.to_nat (dims g')) = 0).
  { apply flat_index_zero. intros d Hd'. apply Hz. lia. }
  rewrite (raw_loop_spec g' field count _ Hs' ltac:(by rewrite E8, E16)
             (length field) fuel pos').
  - rewrite Hf0. simpl. apply raw_samples_ext. intros v.
    destruct (raw8 g) eqn:H8.
    + apply raw_sample_raw8. by rewrite E8.
    + apply raw_sample_raw16; [by rewrite E8 | rewrite E16].
      by destruct (raw16 g).
  - rewrite Hlp', Hlp, Ed. unfold MAX_DIM in *. lia.
  - intros d Hd'. rewrite Hz by done.
    pose proof (sound_bins g' field Hs' d Hd'). lia.
  - rewrite Hf0. lia.
  - done.
Qed.

(** X22. A whole run in a raw mode without trimming: for an accepted command
    line and an input whose accepted tuples get bin indices within the
    bin counts, at least one of them accepted, the standard output holds
    the samples of all cells of an array whose cells add up to the number
    of accepted tuples, scaled by its largest cell, which is at least 1;
    the exit status is 0. *)
Theorem main_raw_run (fuel : nat) (cl : cmdline) (g : globals)
    (stdin : list line) :
  parseOptions initial_globals cl = Ok (0, g) →
  raw8 g || raw16 g = true →
  omit_outer_zero g = false →
  stride (bins g) (Z.to_nat (dims g)) ≤ INT_MAX →
  Z.of_nat (length stdin) ≤ INT_MAX →
  Forall (line_binnable (configured cl).1) stdin →
  0 < accepted g stdin →
  (Z.to_nat (stride (bins g) (Z.to_nat (dims g))) ≤ fuel)%nat →
  ∃ field rest,
    main fuel cl stdin
      = (out ← raw_samples
                 (if raw8 g then sample8 (fold_left Z.max field 0)
                  else sample16 (fold_left Z.max field 0)) field;
         Ok (0, out, rest)) ∧
    Z.of_nat (length field) = stride (bins g) (Z.to_nat (dims g)) ∧
    Forall (λ c, 0 ≤ c) field ∧
    Zsum field = accepted g stdin ∧
    1 ≤ fold_left Z.max field 0.
Proof.
  intros Hparse Hraw Homit Hfit Hlen Hall Hacc Hfuel.
  destruct (setup_sound cl g Hparse Hfit)
    as (g0 & Hsetup & Hopt & Hfull & Hsound & _).
  assert (Hconf : configured cl = (g0, zeros (stride (bins g)
                                                (Z.to_nat (dims g))))).
  { unfold configured, parsed. by rewrite Hparse, Hsetup. }
  rewrite Hconf in *. cbn [fst] in *.
  destruct (same_options_fields g g0 Hopt)
    as (_ & _ & Eb0 & Ed0 & _ & Eo0 & E80 & E160).
  pose proof (sound_dims _ _ Hsound) as Hd.
  set (N := stride (bins g) (Z.to_nat (dims g))) in *.
  set (st := ImportState g0 (zeros N) 0 0 (zeros MAX_DIM)).
  destruct (import_loop_total stdin st) as (st' & rest & Hloop); try done.
  { change (dims g0 ≤ Z.of_nat (length (zeros MAX_DIM))).
    rewrite zeros_length. unfold MAX_DIM in *. lia. }
  destruct (import_loop_spec stdin st st' rest Hloop)
    as ((Hnn & Hsum & Hoor) & Hc & Hlf & Hl1 & Hl2 & Hcount & Hdiff).
  { apply counted_zeros. }
  { simpl. lia. }
  simpl in Hc, Hlf, Hl1, Hl2, Hcount, Hdiff.
  rewrite (accepted_same_options g g0) in Hdiff by done.
  rewrite (tuples_read_dims g g0) in Hcount by done.
  pose proof (tuples_read_bound g stdin) as Htr.
  destruct (same_config_fields _ _ Hc)
    as (_ & _ & _ & Eb & Ed & _ & Eo & E8 & E16).
  exists (ist_field st'), rest.
  unfold main. rewrite Hparse. simpl. rewrite Hsetup. simpl.
  unfold import. fold st. rewrite Hloop. simpl.
  rewrite int_wrap_small by (unfold INT_MIN, INT_MAX in *; lia).
  destruct (Z.leb_spec (ist_count st' - ist_oor st') 0) as [|_]; [lia|].
  simpl.
  rewrite (output_raw_spec (ist_globals st') (ist_field st')).
  - rewrite E8, E80. split; [done|]. split.
    { rewrite Hlf, zeros_length.
      pose proof (sound_fits _ _ Hsound).
      pose proof (stride_pos (bins g0) _ (sound_bins_D _ _ Hsound)
                    (Z.to_nat (dims g0)) ltac:(lia)) as Hpos.
      rewrite Eb0, Ed0 in Hpos. fold N in Hpos. lia. }
    split; [done|]. split; [lia|].
    destruct (Zsum_pos_lookup (ist_field st')) as (i & x & Hi & Hx); [lia|].
    pose proof (fold_left_max_ge (ist_field st') 0) as [_ Hge].
    specialize (Hge i x Hi). lia.
  - by eapply sound_same_config.
  - by rewrite E8, E16, E80, E160.
  - by rewrite Eo, Eo0.
  - rewrite Hlf, zeros_length. done.
Qed.

Lemma main_raw_run_witness :
  ∃ field rest,
    main 4 cmdline_raw8 input_raw
      = (out ← raw_samples
                 (if raw8 (parsed cmdline_raw8)
                  then sample8 (fold_left Z.max field 0)
                  else sample16 (fold_left Z.max field 0)) field;
         Ok (0, out, rest)) ∧
    Z.of_nat (length field)
      = stride (bins (parsed cmdline_raw8))
          (Z.to_nat (dims (parsed cmdline_raw8))) ∧
    Forall (λ c, 0 ≤ c) field ∧
    Zsum field = accepted (parsed cmdline_raw8) input_raw ∧
    1 ≤ fold_left Z.max field 0.
Proof.
  apply (main_raw_run 4 cmdline_raw8 (parsed cmdline_raw8) input_raw).
  - vm_compute; reflexivity.
  - vm_compute; reflexivity.
  - vm_compute; reflexivity.
  - vm_compute; congruence.
  - vm_compute; congruence.
  - apply line_binnable_b_sound; vm_compute; reflexivity.
  - vm_compute; reflexivity.
  - vm_compute; lia.
Defined.

(** ** The accessors on an index one past the bins *)

Lemma stride_nonneg_step (bins : list Z) (D k : nat) :
  (∀ d, 0 ≤ d < Z.of_nat D → 1 ≤ elt bins d) → (k < D)%nat →
  1 ≤ stride bins k ∧ stride bins k ≤ stride bins (S k).
Proof.
  intros Hb Hk. split; [apply (stride_pos bins D Hb); lia|].
  apply (stride_step bins D Hb). lia.
Qed.

Lemma flat_index_loose_bound (bins pos : list Z) (D : nat) :
  (∀ d, 0 ≤ d < Z.of_nat D → 1 ≤ elt bins d) →
  (∀ d, 0 ≤ d < Z.of_nat D → 0 ≤ elt pos d ≤ elt bins d) →
  ∀ k : nat, (k ≤ D)%nat →
  0 ≤ flat_index bins pos k ≤ Z.of_nat k * stride bins k.
Proof.
  intros Hb Hv. induction k as [|k IH]; intros Hk; simpl; [lia|].
  specialize (IH ltac:(lia)).
  destruct (stride_nonneg_step bins D k Hb ltac:(lia)) as [H1 H2].
  simpl in H2. specialize (Hv (Z.of_nat k) ltac:(lia)).
  specialize (Hb (Z.of_nat k) ltac:(lia)). nia.
Qed.

(** The address loop computes the stride formula also for indices equal
    to their bin count: nothing in it compares an index with a bound. *)
Lemma index_of_flat_loose (dims : Z) (bins pos : list Z) :
  0 ≤ dims < MAX_DIM →
  dims ≤ Z.of_nat (length pos) → dims ≤ Z.of_nat (length bins) →
  (∀ d, 0 ≤ d < dims → 1 ≤ elt bins d) →
  (∀ d, 0 ≤ d < dims → 0 ≤ elt pos d ≤ elt bins d) →
  stride bins (Z.to_nat dims) ≤ INT_MAX →
  index_of dims bins pos = Ok (flat_index bins pos (Z.to_nat dims)).
Proof.
  intros Hd Hlp Hlb Hb Hv Hmax. unfold index_of, for_upto.
  set (D := Z.to_nat dims) in *.
  assert (HbD : ∀ d, 0 ≤ d < Z.of_nat D → 1 ≤ elt bins d).
  { intros d Hd'. apply Hb. lia. }
  assert (HvD : ∀ d, 0 ≤ d < Z.of_nat D → 0 ≤ elt pos d ≤ elt bins d).
  { intros d Hd'. apply Hv. lia. }
  edestruct (for_loop_inv
    (λ i (s : Z * Z), 0 ≤ i ≤ Z.of_nat D ∧
       s = (flat_index bins pos (Z.to_nat i), stride bins (Z.to_nat i))))
    as (s' & Hs' & _ & ->); [| |rewrite Hs'; simpl].
  - split; [lia|reflexivity].
  - intros i s Hi (_ & ->). simpl.
    rewrite (rd_elt pos i) by lia. rewrite (rd_elt bins i) by lia. simpl.
    eexists; split; [reflexivity|]. split; [lia|].
    replace (Z.to_nat (i + 1)) with (S (Z.to_nat i)) by lia.
    simpl. rewrite Z2Nat.id by lia.
    pose proof (flat_index_loose_bound bins pos D HbD HvD (Z.to_nat i)
                  ltac:(lia)) as Hn0.
    pose proof (flat_index_loose_bound bins pos D HbD HvD (S (Z.to_nat i))
                  ltac:(lia)) as Hn.
    pose proof (stride_mono bins D HbD (S (Z.to_nat i)) D ltac:(lia) ltac:(lia))
      as Hm.
    destruct (stride_nonneg_step bins D (Z.to_nat i) HbD ltac:(lia))
      as [Hs1 Hs2].
    simpl in Hn, Hm, Hs2. rewrite Z2Nat.id in Hn, Hm, Hs2 by lia.
    specialize (HvD i ltac:(lia)). specialize (HbD i ltac:(lia)).
    assert (Hterm : 0 ≤ elt pos i * stride bins (Z.to_nat i)
                    ≤ stride bins (Z.to_nat i) * elt bins i) by nia.
    unfold MAX_DIM, INT_MAX in *.
    rewrite (long_wrap_small (elt pos i * _)) by (unfold LONG_MAX; nia).
    rewrite !long_wrap_small by (unfold LONG_MAX; nia).
    reflexivity.
  - replace (Z.to_nat (0 + Z.of_nat D)) with D by lia. reflexivity.
Qed.

Lemma flat_index_carry_over (bins pos pos' : list Z) (d : nat) :
  elt pos (Z.of_nat d) = elt bins (Z.of_nat d) →
  elt pos' (Z.of_nat d) = 0 →
  elt pos' (Z.of_nat (S d)) = elt pos (Z.of_nat (S d)) + 1 →
  (∀ d', 0 ≤ d' → d' ≠ Z.of_nat d → d' ≠ Z.of_nat (S d) →
         elt pos d' = elt pos' d') →
  ∀ k : nat, (S (S d) ≤ k)%nat →
  flat_index bins pos k = flat_index bins pos' k.
Proof.
  intros Hd Hd0 Hd1 Hrest.
  assert (E : flat_index bins pos d = flat_index bins pos' d).
  { apply flat_index_ext. intros d' Hd'. apply Hrest; lia. }
  induction k as [|k IH]; intros Hk; [lia|].
  destruct (decide (k = S d)) as [->|Hne].
  - cbn [flat_index stride]. rewrite E, Hd, Hd0, Hd1. lia.
  - cbn [flat_index]. rewrite IH by lia. rewrite Hrest by lia. reflexivity.
Qed.

(** X23. Neither accessor compares an index with its bin count: an index
    tuple whose index in a dimension [d] equals [bins[d]] addresses the
    cell of the tuple with index 0 in [d] and one more in dimension
    [d + 1], so [get_pos] reads, and [set_pos] writes, that other cell. *)
Theorem index_past_bins_aliases (g : globals) (field : list Z)
    (v dims : Z) (bins pos pos' : list Z) (d : nat) :
  0 ≤ dims < MAX_DIM →
  dims ≤ Z.of_nat (length pos) →
  dims ≤ Z.of_nat (length pos') →
  dims ≤ Z.of_nat (length bins) →
  stride bins (Z.to_nat dims) ≤ INT_MAX →
  stride bins (Z.to_nat dims) ≤ Z.of_nat (length field) →
  Z.of_nat (S d) < dims →
  in_bins bins pos' dims →
  elt pos (Z.of_nat d) = elt bins (Z.of_nat d) →
  0 ≤ elt pos (Z.of_nat (S d)) →
  elt pos' (Z.of_nat d) = 0 →
  elt pos' (Z.of_nat (S d)) = elt pos (Z.of_nat (S d)) + 1 →
  (∀ d', 0 ≤ d' → d' ≠ Z.of_nat d → d' ≠ Z.of_nat (S d) →
         elt pos d' = elt pos' d') →
  get_pos field dims bins pos = get_pos field dims bins pos' ∧
  (field' ← wr field (flat_index bins pos' (Z.to_nat dims)) v;
   g' ← update_seen dims pos g; Ok (field', g'))
    = set_pos g field v dims bins pos.
Proof.
  intros Hdims Hlp Hlp' Hlb Hfit Hcells Hd Hv' Hpd Hp1 Hpd0 Hpd1 Hrest.
  assert (Hb : ∀ d', 0 ≤ d' < dims → 1 ≤ elt bins d').
  { intros d' Hd'. specialize (Hv' d' Hd'). lia. }
  assert (Hv : ∀ d', 0 ≤ d' < dims → 0 ≤ elt pos d' ≤ elt bins d').
  { intros d' Hd'. pose proof (Hv' d' Hd') as Hq.
    pose proof (Hv' (Z.of_nat (S d)) ltac:(lia)) as Hq1.
    destruct (decide (d' = Z.of_nat d)) as [->|Hne]; [rewrite Hpd; lia|].
    destruct (decide (d' = Z.of_nat (S d))) as [->|Hne1]; [lia|].
    rewrite Hrest by lia. lia. }
  assert (E : flat_index bins pos (Z.to_nat dims)
              = flat_index bins pos' (Z.to_nat dims)).
  { apply (flat_index_carry_over bins pos pos' d); try done. lia. }
  assert (Hi : index_of dims bins pos
               = Ok (flat_index bins pos' (Z.to_nat dims))).
  { rewrite <- E. by apply index_of_flat_loose. }
  assert (Hi' : index_of dims bins pos'
                = Ok (flat_index bins pos' (Z.to_nat dims))).
  { apply index_of_flat; try done. unfold LONG_MAX, INT_MAX in *. lia. }
  unfold get_pos, set_pos. rewrite Hi, Hi'. split; reflexivity.
Qed.

Lemma index_past_bins_aliases_witness :
  get_pos [0; 0; 0; 7; 0; 0] 2 [3; 2] [3; 0]
    = get_pos [0; 0; 0; 7; 0; 0] 2 [3; 2] [0; 1] ∧
  (field' ← wr [0; 0; 0; 7; 0; 0] (flat_index [3; 2] [0; 1] (Z.to_nat 2)) 8;
   g' ← update_seen 2 [3; 0] initial_globals; Ok (field', g'))
    = set_pos initial_globals [0; 0; 0; 7; 0; 0] 8 2 [3; 2] [3; 0].
Proof.
  apply (index_past_bins_aliases initial_globals [0; 0; 0; 7; 0; 0] 8 2
           [3; 2] [3; 0] [0; 1] 0).
  - vm_compute; intuition congruence.
  - vm_compute; congruence.
  - vm_compute; congruence.
  - vm_compute; congruence.
  - vm_compute; congruence.
  - vm_compute; congruence.
  - vm_compute; reflexivity.
  - intros d' Hd'. assert (d' = 0 ∨ d' = 1) as [-> | ->] by lia;
      vm_compute; split; congruence.
  - vm_compute; reflexivity.
  - vm_compute; congruence.
  - vm_compute; reflexivity.
  - vm_compute; reflexivity.
  - intros d' H0 H1 H2. change (Z.of_nat 0) with 0 in H1.
    change (Z.of_nat 1) with 1 in H2. unfold elt.
    destruct (Z.to_nat d') as [|[|n]] eqn:E; [lia|lia|reflexivity].
Defined.

(** ** import: what it leaves alone *)

Lemma import_loop_frame (stdin : list line) :
  ∀ (st st' : import_state) (rest : list line),
  import_loop st stdin = Ok (st', rest) →
  same_config (ist_globals st) (ist_globals st') ∧
  length (ist_field st') = length (ist_field st) ∧
  length (min_bin_seen (ist_globals st'))
    = length (min_bin_seen (ist_globals st)) ∧
  length (max_bin_seen (ist_globals st'))
    = length (max_bin_seen (ist_globals st)).
Proof.
  induction stdin as [|[|vs] stdin IH]; intros st st' rest H; simpl in H.
  - inv_Ok H. split; [apply same_config_refl|done].
  - by apply (IH st st' rest).
  - destruct (_ <? _).
    { inv_Ok H. split; [apply same_config_refl|done]. }
    inv_bind H. rename a into st1.
    destruct (import_tuple_spec st st1 vs Hl) as (Hc & Hl1 & Hl2 & _ & Hf).
    destruct (IH st1 st' rest H) as (Hc' & Hlf & Hl1' & Hl2').
    split; [by eapply same_config_trans|].
    split; [|split; congruence].
    rewrite Hlf. destruct Hf as [(_ & _ & i & c & _ & ->)|(_ & _ & ->)];
      [apply length_insert|done].
Qed.

(** X24. [import] leaves the options alone: the bounds, the bin sizes,
    the bin counts, the number of dimensions and every flag are as before
    when it returns, and the array has as many cells as before. *)
Theorem import_keeps_options (g g' : globals)
    (field field' : list Z) (count count' : Z) (stdin rest : list line) :
  import g field count stdin = Ok (Imported g' field' count' rest) →
  low g' = low g ∧ hi g' = hi g ∧ size g' = size g ∧ bins g' = bins g ∧
  dims g' = dims g ∧ relative g' = relative g ∧
  omit_outer_zero g' = omit_outer_zero g ∧ verbose g' = verbose g ∧
  raw8 g' = raw8 g ∧ raw16 g' = raw16 g ∧
  length field' = length field.
Proof.
  intros H. unfold import in H. inv_bind H. destruct a as [st' rest'].
  destruct (int_wrap _ <=? 0); [discriminate|]. inv_Ok H.
  destruct (import_loop_frame _ _ _ _ Hl) as (Hc & Hlf & _).
  destruct (same_config_fields _ _ Hc)
    as (E1 & E2 & E3 & E4 & E5 & E6 & E7 & E8 & E9).
  assert (Ev : verbose (ist_globals st') = verbose g).
  { unfold same_config in Hc. rewrite Hc. reflexivity. }
  simpl in *. do 10 (split; [done|]). done.
Qed.

Lemma import_keeps_options_witness :
  low (imported cmdline_3d input_3d).1.1 = low (configured cmdline_3d).1 ∧
  hi (imported cmdline_3d input_3d).1.1 = hi (configured cmdline_3d).1 ∧
  size (imported cmdline_3d input_3d).1.1 = size (configured cmdline_3d).1 ∧
  bins (imported cmdline_3d input_3d).1.1 = bins (configured cmdline_3d).1 ∧
  dims (imported cmdline_3d input_3d).1.1 = dims (configured cmdline_3d).1 ∧
  relative (imported cmdline_3d input_3d).1.1
    = relative (configured cmdline_3d).1 ∧
  omit_outer_zero (imported cmdline_3d input_3d).1.1
    = omit_outer_zero (configured cmdline_3d).1 ∧
  verbose (imported cmdline_3d input_3d).1.1
    = verbose (configured cmdline_3d).1 ∧
  raw8 (imported cmdline_3d input_3d).1.1 = raw8 (configured cmdline_3d).1 ∧
  raw16 (imported cmdline_3d input_3d).1.1 = raw16 (configured cmdline_3d).1 ∧
  length (imported cmdline_3d input_3d).1.2
    = length (configured cmdline_3d).2.
Proof.
  apply (import_keeps_options (configured cmdline_3d).1
           (imported cmdline_3d input_3d).1.1 (configured cmdline_3d).2
           (imported cmdline_3d input_3d).1.2 0
           (imported cmdline_3d input_3d).2 input_3d []).
  vm_compute; reflexivity.
Defined.

(** ** output: the size of a raw image *)

Lemma raw_samples_length (sample : Z → result (list out_item)) (k : nat)
    (cells : list Z) :
  (∀ v s, sample v = Ok s → length s = k) →
  ∀ out, raw_samples sample cells = Ok out →
         length out = (k * length cells)%nat.
Proof.
  intros Hk. induction cells as [|v cells IH]; intros out H; simpl in H.
  - inv_Ok H. simpl. lia.
  - inv_bind H. inv_bind H. inv_Ok H.
    rewrite length_app, (Hk _ _ Hl), (IH _ Hl0). simpl. lia.
Qed.

(** X25. A raw image has the size the bin counts give it: without
    trimming, a raw8 run writes as many bytes as the array has cells, the
    product of the bin counts, and a raw16 run twice as many. *)
Theorem raw_image_size (g : globals) (field : list Z) (count : Z)
    (fuel : nat) (out : list out_item) :
  sound g field →
  raw8 g || raw16 g = true →
  omit_outer_zero g = false →
  (length field ≤ fuel)%nat →
  output fuel g field count = Ok out →
  Z.of_nat (length out)
    = (if raw8 g then 1 else 2) * stride (bins g) (Z.to_nat (dims g)).
Proof.
  intros Hs Hraw Homit Hfuel H.
  rewrite output_raw_spec in H by done.
  rewrite <- (sound_cells g field Hs).
  destruct (raw8 g).
  - assert (H8 : ∀ m v s, sample8 m v = Ok s → length s = 1%nat).
    { intros m v s Hv. unfold sample8 in Hv. inv_bind Hv. by inv_Ok Hv. }
    rewrite (raw_samples_length (sample8 _) 1 field (H8 _) out H). lia.
  - assert (H16 : ∀ m v s, sample16 m v = Ok s → length s = 2%nat).
    { intros m v s Hv. unfold sample16 in Hv. inv_bind Hv. by inv_Ok Hv. }
    rewrite (raw_samples_length (sample16 _) 2 field (H16 _) out H). lia.
Qed.

Lemma raw_image_size_witness :
  Z.of_nat (length [OutByte 63; OutByte 255; OutByte 0; OutByte 0])
    = (if raw8 (imported cmdline_raw8 input_raw).1.1 then 1 else 2)
      * stride (bins (imported cmdline_raw8 input_raw).1.1)
          (Z.to_nat (dims (imported cmdline_raw8 input_raw).1.1)).
Proof.
  apply (raw_image_size (imported cmdline_raw8 input_raw).1.1 [1; 4; 0; 0]
           5 4).
  - apply (sound_same_config (configured cmdline_raw8).1 _
             (configured cmdline_raw8).2).
    + apply (configured_sound cmdline_raw8); vm_compute;
        [reflexivity|congruence].
    + vm_compute; reflexivity.
    + vm_compute; reflexivity.
    + vm_compute; reflexivity.
    + vm_compute; reflexivity.
  - vm_compute; reflexivity.
  - vm_compute; reflexivity.
  - vm_compute; lia.
  - vm_compute; reflexivity.
Defined.

(** ** import: conservation *)


